(** * Employee directory: database triggers, offline queue, sync engine,
      org-chart construction and Gravatar URLs

    A shallow embedding of the employee-directory application:
    - [Pg]: the [employees] table of the SQL migrations with its column
      constraints and its two row triggers;
    - [Js]: the JavaScript string primitives the client code relies on;
    - [MD5] and [Gravatar]: [getGravatarUrl] together with the digest it
      calls;
    - [Client]: the IndexedDB cache, the pending-operation queue and the
      React handlers of [EmployeeList] and [EmployeeDialog];
    - [Hierarchy]: [buildHierarchyTree] of [EmployeeHierarchy];
    - [Samples]: concrete data on which the statements are exercised.

    The properties follow the definitions. *)

From Stdlib Require Import ZArith Lia Ascii.
From stdpp Require Import base option list strings pretty gmap.

Open Scope Z_scope.

Set Warnings "-register-all".

(** ** Results of fallible code *)

(** [inl e] is a raised error, [inr v] is a normal result; sequencing stops
    at the first error. *)
#[global] Instance sum_bind {E} : MBind (sum E) := fun A B k m =>
  match m with
  | inl e => inl e
  | inr a => k a
  end.

(** ** The remote relational store *)

Module Pg.

(** Column types: [UUID] and [TEXT] values are strings, [TIMESTAMPTZ] is a
    number of time units, and [DECIMAL(12, 2)] is the integer number of
    hundredths. *)
Definition UUID := string.
Definition Timestamp := Z.

(** A tuple of [public.employees]. Every column is nullable at the level of
    a tuple: [NOT NULL] is a constraint checked when the tuple is stored. *)
Record Row := mkRow {
  id : option UUID;
  employee_number : option string;
  first_name : option string;
  last_name : option string;
  birth_date : option string;
  salary : option Z;
  role : option string;
  manager_id : option UUID;
  created_at : option Timestamp;
  updated_at : option Timestamp;
  created_by : option UUID;
  email : option string
}.

#[global] Instance Row_eq_dec : EqDecision Row.
Proof. solve_decision. Defined.

Definition set_id (v : option UUID) (r : Row) : Row :=
  mkRow v (employee_number r) (first_name r) (last_name r) (birth_date r)
        (salary r) (role r) (manager_id r) (created_at r) (updated_at r)
        (created_by r) (email r).

Definition set_manager_id (v : option UUID) (r : Row) : Row :=
  mkRow (id r) (employee_number r) (first_name r) (last_name r) (birth_date r)
        (salary r) (role r) v (created_at r) (updated_at r)
        (created_by r) (email r).

Definition set_created_at (v : option Timestamp) (r : Row) : Row :=
  mkRow (id r) (employee_number r) (first_name r) (last_name r) (birth_date r)
        (salary r) (role r) (manager_id r) v (updated_at r)
        (created_by r) (email r).

Definition set_updated_at (v : option Timestamp) (r : Row) : Row :=
  mkRow (id r) (employee_number r) (first_name r) (last_name r) (birth_date r)
        (salary r) (role r) (manager_id r) (created_at r) v
        (created_by r) (email r).

Inductive Error :=
| RaisedException (message : string)
| NotNullViolation (column : string)
| CheckViolation (constraint : string)
| NumericOverflow (column : string)
| UniqueViolation (constraint : string)
| ForeignKeyViolation (constraint : string)
| InsufficientPrivilege (message : string).

#[global] Instance Error_eq_dec : EqDecision Error.
Proof. solve_decision. Defined.

(** *** SQL three-valued comparison *)

(** [a = b] in SQL is NULL as soon as one side is NULL. *)
Definition sql_eq {A} `{EqDecision A} (a b : option A) : option bool :=
  match a, b with
  | Some x, Some y => Some (bool_decide (x = y))
  | _, _ => None
  end.

(** [IF c THEN] takes the branch only when [c] is true; NULL does not. *)
Definition sql_if (c : option bool) : bool :=
  match c with
  | Some true => true
  | _ => false
  end.

(** *** Trigger functions *)

Definition self_manager_message : string :=
  "An employee cannot be their own manager".

(** [public.check_manager_not_self()]. *)
Definition check_manager_not_self (NEW : Row) : Error + Row :=
  if sql_if (sql_eq (manager_id NEW) (id NEW))
  then inl (RaisedException self_manager_message)
  else inr NEW.

(** [public.update_updated_at()]; [now] is the value of [NOW()]. *)
Definition update_updated_at (now : Timestamp) (NEW : Row) : Error + Row :=
  inr (set_updated_at (Some now) NEW).

(** Row triggers of one event fire in the alphabetical order of their names:
    [prevent_self_reporting] (BEFORE INSERT OR UPDATE), then
    [set_updated_at] (BEFORE UPDATE). *)
Definition before_insert (NEW : Row) : Error + Row :=
  check_manager_not_self NEW.

Definition before_update (now : Timestamp) (NEW : Row) : Error + Row :=
  NEW1 ← check_manager_not_self NEW;
  update_updated_at now NEW1.

(** *** Constraints of [CREATE TABLE public.employees] *)

Definition require_not_null {A} (column : string) (v : option A) : Error + unit :=
  match v with
  | Some _ => inr tt
  | None => inl (NotNullViolation column)
  end.

(** [DECIMAL(12, 2)]: at most ten digits before the decimal point. *)
Definition salary_in_range (v : option Z) : Error + unit :=
  match v with
  | Some c => if (Z.abs c <? 10 ^ 12) then inr tt else inl (NumericOverflow "salary")
  | None => inr tt
  end.

(** [CHECK (salary >= 0)]; a NULL check result passes. *)
Definition salary_check (v : option Z) : Error + unit :=
  match v with
  | Some c => if (0 <=? c) then inr tt else inl (CheckViolation "employees_salary_check")
  | None => inr tt
  end.

(** What is checked of the tuple that the triggers return, before it is
    stored: it has the types of the columns, then [NOT NULL] and [CHECK]. *)
Definition check_row (NEW : Row) : Error + unit :=
  salary_in_range (salary NEW) ;;
  require_not_null "id" (id NEW) ;;
  require_not_null "employee_number" (employee_number NEW) ;;
  require_not_null "first_name" (first_name NEW) ;;
  require_not_null "last_name" (last_name NEW) ;;
  require_not_null "birth_date" (birth_date NEW) ;;
  require_not_null "salary" (salary NEW) ;;
  require_not_null "role" (role NEW) ;;
  salary_check (salary NEW).

(** A unique index rejects a non-NULL key that another tuple holds; NULL
    keys never conflict. *)
Definition unique_key {A} `{EqDecision A} (constraint : string)
    (column : Row -> option A) (others : list Row) (NEW : Row) : Error + unit :=
  match column NEW with
  | None => inr tt
  | Some v =>
      if bool_decide (Some v ∈ column <$> others)
      then inl (UniqueViolation constraint)
      else inr tt
  end.

Definition check_unique (others : list Row) (NEW : Row) : Error + unit :=
  unique_key "employees_pkey" id others NEW ;;
  unique_key "employees_employee_number_key" employee_number others NEW ;;
  unique_key "employees_email_key" email others NEW.

(** A foreign key is satisfied by NULL or by a referenced key that exists. *)
Definition references (constraint : string) (v : option UUID)
    (keys : list (option UUID)) : Error + unit :=
  match v with
  | None => inr tt
  | Some k =>
      if bool_decide (Some k ∈ keys) then inr tt
      else inl (ForeignKeyViolation constraint)
  end.

Record Database := mkDatabase {
  auth_users : list UUID;
  employees : list Row
}.

Definition check_foreign_keys (users : list UUID) (rows : list Row) (NEW : Row)
    : Error + unit :=
  references "employees_manager_id_fkey" (manager_id NEW) (id <$> rows) ;;
  references "employees_created_by_fkey" (created_by NEW) (Some <$> users).

(** *** Statements *)

(** What a statement reads from its environment: [NOW()] and the value
    [gen_random_uuid()] would produce. *)
Record Env := mkEnv {
  now : Timestamp;
  random_uuid : UUID
}.

(** [INSERT INTO employees ...], [UPDATE employees SET ... WHERE id = key]
    and [DELETE FROM employees WHERE id = key], issued by a role that the
    policies of the table let through ([authenticated], with [USING (true)]
    and [WITH CHECK (true)]). In the values of an insert a column left at
    [None] that has a [DEFAULT] takes its default. *)
Inductive Statement :=
| Insert (values : Row)
| Update (set : Row -> Row) (key : UUID)
| Delete (key : UUID).

Definition or_default {A} (v : option A) (d : A) : option A :=
  match v with
  | Some x => Some x
  | None => Some d
  end.

Definition apply_defaults (env : Env) (values : Row) : Row :=
  set_id (or_default (id values) (random_uuid env))
    (set_created_at (or_default (created_at values) (now env))
      (set_updated_at (or_default (updated_at values) (now env)) values)).

(** The values of a statement are brought to the types of their columns
    before any row trigger fires: a salary that does not fit
    [DECIMAL(12, 2)] is refused there. *)
Definition coerce (values : Row) : Error + Row :=
  salary_in_range (salary values) ;;
  inr values.

Definition insert (env : Env) (values : Row) (db : Database) : Error + Database :=
  typed ← coerce (apply_defaults env values);
  NEW ← before_insert typed;
  check_row NEW ;;
  check_unique (employees db) NEW ;;
  check_foreign_keys (auth_users db) (employees db ++ [NEW]) NEW ;;
  inr (mkDatabase (auth_users db) (employees db ++ [NEW])).

(** Position of the tuple whose primary key is [key]. *)
Fixpoint find_key (key : UUID) (rows : list Row) : option nat :=
  match rows with
  | [] => None
  | r :: rest =>
      if bool_decide (id r = Some key) then Some 0%nat
      else S <$> find_key key rest
  end.

(** No [ON UPDATE] action is declared: a referenced key cannot change. *)
Definition still_referenced (OLD NEW : Row) (others : list Row) : Error + unit :=
  if bool_decide (id OLD = id NEW) then inr tt
  else if bool_decide (is_Some (id OLD) ∧ id OLD ∈ manager_id <$> others)
       then inl (ForeignKeyViolation "employees_manager_id_fkey")
       else inr tt.

Definition update (env : Env) (set : Row -> Row) (key : UUID) (db : Database)
    : Error + Database :=
  match find_key key (employees db) with
  | None => inr db
  | Some i =>
      match employees db !! i with
      | None => inr db
      | Some OLD =>
          let others := delete i (employees db) in
          typed ← coerce (set OLD);
          NEW ← before_update (now env) typed;
          check_row NEW ;;
          check_unique others NEW ;;
          check_foreign_keys (auth_users db) (<[i:=NEW]> (employees db)) NEW ;;
          still_referenced OLD NEW others ;;
          inr (mkDatabase (auth_users db) (<[i:=NEW]> (employees db)))
      end
  end.

(** [manager_id ... ON DELETE SET NULL]: the referential action is an update
    of the referencing tuples, so their BEFORE UPDATE triggers fire. *)
Definition on_delete_set_null (env : Env) (key : UUID) (r : Row) : Error + Row :=
  if bool_decide (manager_id r = Some key)
  then before_update (now env) (set_manager_id None r)
  else inr r.

Fixpoint map_sum {E A B} (f : A -> E + B) (l : list A) : E + list B :=
  match l with
  | [] => inr []
  | x :: rest =>
      y ← f x;
      ys ← map_sum f rest;
      inr (y :: ys)
  end.

Definition delete_row (env : Env) (key : UUID) (db : Database) : Error + Database :=
  let kept := filter (fun r => id r ≠ Some key) (employees db) in
  rows ← map_sum (on_delete_set_null env key) kept;
  inr (mkDatabase (auth_users db) rows).

Definition exec (env : Env) (stmt : Statement) (db : Database) : Error + Database :=
  match stmt with
  | Insert values => insert env values db
  | Update set key => update env set key db
  | Delete key => delete_row env key db
  end.

(** A statement that raises is rolled back: the database is the one before. *)
Definition run (env : Env) (stmt : Statement) (db : Database)
    : Database * option Error :=
  match exec env stmt db with
  | inl e => (db, Some e)
  | inr db' => (db', None)
  end.

(** Two tuples that agree on every column other than [updated_at]. *)
Definition same_except_updated_at (r r' : Row) : Prop :=
  id r = id r' /\ employee_number r = employee_number r'
  /\ first_name r = first_name r' /\ last_name r = last_name r'
  /\ birth_date r = birth_date r' /\ salary r = salary r'
  /\ role r = role r' /\ manager_id r = manager_id r'
  /\ created_at r = created_at r' /\ created_by r = created_by r'
  /\ email r = email r'.

(** Sample tuples: a manager, a report, and a tuple that names itself as
    its manager. *)
Definition sample_manager : Row :=
  mkRow (Some "u1") (Some "E001") (Some "Ada") (Some "Byron")
        (Some "1990-01-01") (Some 5000000) (Some "CEO") None
        (Some 10) (Some 10) None None.

Definition sample_report : Row :=
  mkRow (Some "u2") (Some "E002") (Some "Bob") (Some "Cole")
        (Some "1991-02-02") (Some 3000000) (Some "Engineer") (Some "u1")
        None None None (Some "bob@example.com").

Definition sample_self_managed : Row :=
  mkRow (Some "u3") (Some "E003") (Some "Cy") (Some "Dale")
        (Some "1992-03-03") (Some 2000000) (Some "Clerk") (Some "u3")
        None None None None.

(** A new tuple with its own key and the employee number of
    [sample_manager]. *)
Definition sample_duplicate_number : Row :=
  mkRow (Some "u4") (Some "E001") (Some "Dee") (Some "Eve")
        (Some "1993-04-04") (Some 1000000) (Some "Clerk") None
        None None None None.

Definition sample_env : Env := mkEnv 20 "u9".

Definition sample_db : Database := mkDatabase [] [sample_manager].

(** Databases that statements can produce from an empty table. *)
Inductive reachable : Database -> Prop :=
| reachable_empty users : reachable (mkDatabase users [])
| reachable_exec env stmt db db' :
    reachable db -> exec env stmt db = inr db' -> reachable db'.

End Pg.

(** ** Profiles: the sign-up trigger and row-level security *)

Module Profiles.
Import Pg.

(** A tuple of [auth.users] with the columns that the trigger reads. The
    JSON document [raw_user_meta_data] is given by the text that [->>]
    extracts for each of its keys; a key that is missing or holds a JSON
    null has none. *)
Record User := mkUser {
  user_id : UUID;
  user_email : option string;
  raw_user_meta_data : option (gmap string string)
}.

(** [document ->> key]: NULL when the document is NULL. *)
Definition get_text (document : option (gmap string string)) (key : string)
    : option string :=
  document ≫= (fun d => d !! key).

(** [COALESCE(v, d)] with a second argument that is not NULL. *)
Definition coalesce {A} (v : option A) (d : A) : option A :=
  match v with
  | Some x => Some x
  | None => Some d
  end.

(** A tuple of [public.profiles]. *)
Record Profile := mkProfile {
  id : option UUID;
  email : option string;
  full_name : option string;
  created_at : option Timestamp
}.

Record Database := mkDatabase {
  users : list User;
  profiles : list Profile
}.

(** [INSERT INTO public.profiles]: the default of [created_at], then
    [email TEXT NOT NULL], the primary key and the foreign key to
    [auth.users]. *)
Definition insert_profile (now : Timestamp) (users : list User)
    (profiles : list Profile) (values : Profile) : Error + list Profile :=
  let NEW :=
    mkProfile (id values) (email values) (full_name values)
      (coalesce (created_at values) now) in
  require_not_null "id" (id NEW) ;;
  require_not_null "email" (email NEW) ;;
  (if bool_decide (id NEW ∈ id <$> profiles)
   then inl (UniqueViolation "profiles_pkey") else inr tt) ;;
  references "profiles_id_fkey" (id NEW) ((Some ∘ user_id) <$> users) ;;
  inr (profiles ++ [NEW]).

(** [public.handle_new_user()]: the body inserts the profile of [new]; the
    columns left out of the insert are NULL before the defaults. *)
Definition handle_new_user (now : Timestamp) (new : User) (db : Database)
    : Error + Database :=
  profiles' ←
    insert_profile now (users db) (profiles db)
      (mkProfile (Some (user_id new)) (user_email new)
         (coalesce (get_text (raw_user_meta_data new) "full_name") "")
         None);
  inr (mkDatabase (users db) profiles').

(** [INSERT INTO auth.users], of which the primary key [id] is the only
    constraint taken into account; the trigger
    [on_auth_user_created] then runs [handle_new_user] for the new tuple,
    and an error it raises aborts the insert. *)
Definition sign_up (now : Timestamp) (new : User) (db : Database)
    : Error + Database :=
  if bool_decide (user_id new ∈ user_id <$> users db)
  then inl (UniqueViolation "users_pkey")
  else handle_new_user now new (mkDatabase (users db ++ [new]) (profiles db)).

(** [DELETE FROM auth.users WHERE id = key] for a user that no tuple of
    [public.employees] names in [created_by]; the profile goes with the user
    ([ON DELETE CASCADE]). *)
Definition delete_user (key : UUID) (db : Database) : Database :=
  mkDatabase (filter (fun u => user_id u ≠ key) (users db))
             (filter (fun p => id p ≠ Some key) (profiles db)).

(** The policies of [public.profiles], both [USING (auth.uid() = id)];
    [uid] is the value of [auth.uid()], NULL for a request without a user. *)
Definition own_profile (uid : option UUID) (p : Profile) : bool :=
  sql_if (sql_eq uid (id p)).

(** [SELECT * FROM public.profiles] under the policy for SELECT. *)
Definition select_profiles (uid : option UUID) (db : Database) : list Profile :=
  filter (fun p => own_profile uid p = true) (profiles db).

(** [UPDATE public.profiles SET ...] under the policy for UPDATE, which has
    no [WITH CHECK] and so applies [USING] to the new tuple as well: the
    tuples that pass [USING] are updated, each new tuple has to pass it too,
    and [email TEXT NOT NULL] is checked. A tuple that passes before and
    after keeps its [id], so the keys need no further check. *)
Definition double_quote : string := String (Ascii.ascii_of_nat 34) EmptyString.

(** The message of the error 42501, with the name of the table between
    double quotes. *)
Definition rls_message : string :=
  "new row violates row-level security policy for table "
    +:+ double_quote +:+ "profiles" +:+ double_quote.

Definition update_profile_row (uid : option UUID) (set : Profile -> Profile)
    (p : Profile) : Error + Profile :=
  if own_profile uid p
  then
    if own_profile uid (set p)
    then require_not_null "email" (email (set p)) ;; inr (set p)
    else inl (InsufficientPrivilege rls_message)
  else inr p.

Definition update_profiles (uid : option UUID) (set : Profile -> Profile)
    (db : Database) : Error + Database :=
  profiles' ← map_sum (update_profile_row uid set) (profiles db);
  inr (mkDatabase (users db) profiles').

(** What can happen to the two tables, and the databases that these
    statements produce from empty tables. *)
Inductive Statement :=
| SignUp (now : Timestamp) (new : User)
| DeleteUser (key : UUID)
| UpdateProfiles (uid : option UUID) (set : Profile -> Profile).

Definition exec (stmt : Statement) (db : Database) : Error + Database :=
  match stmt with
  | SignUp now new => sign_up now new db
  | DeleteUser key => inr (delete_user key db)
  | UpdateProfiles uid set => update_profiles uid set db
  end.

Inductive reachable : Database -> Prop :=
| reachable_empty : reachable (mkDatabase [] [])
| reachable_exec stmt db db' :
    reachable db -> exec stmt db = inr db' -> reachable db'.

(** Two users: one with a name in the metadata, one without metadata. *)
Definition eve : User :=
  mkUser "a1" (Some "eve@example.com") (Some {[ "full_name" := "Eve Ende" ]}).

Definition guest : User := mkUser "a2" (Some "guest@example.com") None.

Definition sample_db : Database :=
  mkDatabase [eve; guest]
    [mkProfile (Some "a1") (Some "eve@example.com") (Some "Eve Ende") (Some 5);
     mkProfile (Some "a2") (Some "guest@example.com") (Some "") (Some 6)].

End Profiles.

(** ** JavaScript string primitives *)

Module Js.

(** Strings are sequences of 8-bit code units read as UTF-8.
    [String.prototype.toLowerCase] and [String.prototype.trim] follow the
    Unicode tables of the engine that runs the code: the model takes the two
    functions from the platform. *)
Class Strings := {
  toLowerCase : string -> string;
  trim : string -> string
}.

(** The two functions on ASCII text, where [toLowerCase] lowers the letters
    A to Z and [trim] strips TAB, LF, VT, FF, CR and SPACE: the platform of
    the examples, whose texts are ASCII. *)
Definition lower_char (c : ascii) : ascii :=
  let n := Ascii.N_of_ascii c in
  if ((65 <=? n) && (n <=? 90))%N then Ascii.ascii_of_N (n + 32) else c.

Fixpoint ascii_toLowerCase (s : string) : string :=
  match s with
  | EmptyString => EmptyString
  | String c rest => String (lower_char c) (ascii_toLowerCase rest)
  end.

Definition is_space (c : ascii) : bool :=
  let n := Ascii.N_of_ascii c in
  (((9 <=? n) && (n <=? 13)) || (n =? 32))%N.

Fixpoint ascii_trimStart (s : string) : string :=
  match s with
  | EmptyString => EmptyString
  | String c rest => if is_space c then ascii_trimStart rest else s
  end.

Fixpoint ascii_trimEnd (s : string) : string :=
  match s with
  | EmptyString => EmptyString
  | String c rest =>
      match ascii_trimEnd rest with
      | EmptyString => if is_space c then EmptyString else String c EmptyString
      | kept => String c kept
      end
  end.

Definition ascii_trim (s : string) : string := ascii_trimEnd (ascii_trimStart s).

#[global] Instance ascii_strings : Strings := {|
  toLowerCase := ascii_toLowerCase;
  trim := ascii_trim
|}.

Fixpoint startsWith (s t : string) : bool :=
  match t, s with
  | EmptyString, _ => true
  | String b t', String a s' => bool_decide (a = b) && startsWith s' t'
  | String _ _, EmptyString => false
  end.

(** [String.prototype.includes]. *)
Fixpoint includes (s t : string) : bool :=
  startsWith s t ||
  match s with
  | EmptyString => false
  | String _ rest => includes rest t
  end.

(** Truthiness of a [string]: only the empty string is falsy. *)
Definition truthy (s : string) : bool :=
  match s with
  | EmptyString => false
  | String _ _ => true
  end.

(** A value of type [string | null | undefined]. *)
Inductive Nullable :=
| null
| undefined
| str (s : string).

Definition truthy_nullable (v : Nullable) : bool :=
  match v with
  | str s => truthy s
  | _ => false
  end.

End Js.

(** ** MD5 (RFC 1321), the digest behind [CryptoJS.MD5(s).toString()] *)

Module MD5.

Definition word (x : Z) : Z := x mod 2 ^ 32.

Definition rotl (x c : Z) : Z :=
  word (Z.lor (Z.shiftl x c) (Z.shiftr x (32 - c))).

Definition not32 (x : Z) : Z := Z.lxor x 0xffffffff.

Definition K : list Z := [
  0xd76aa478; 0xe8c7b756; 0x242070db; 0xc1bdceee;
  0xf57c0faf; 0x4787c62a; 0xa8304613; 0xfd469501;
  0x698098d8; 0x8b44f7af; 0xffff5bb1; 0x895cd7be;
  0x6b901122; 0xfd987193; 0xa679438e; 0x49b40821;
  0xf61e2562; 0xc040b340; 0x265e5a51; 0xe9b6c7aa;
  0xd62f105d; 0x02441453; 0xd8a1e681; 0xe7d3fbc8;
  0x21e1cde6; 0xc33707d6; 0xf4d50d87; 0x455a14ed;
  0xa9e3e905; 0xfcefa3f8; 0x676f02d9; 0x8d2a4c8a;
  0xfffa3942; 0x8771f681; 0x6d9d6122; 0xfde5380c;
  0xa4beea44; 0x4bdecfa9; 0xf6bb4b60; 0xbebfbc70;
  0x289b7ec6; 0xeaa127fa; 0xd4ef3085; 0x04881d05;
  0xd9d4d039; 0xe6db99e5; 0x1fa27cf8; 0xc4ac5665;
  0xf4292244; 0x432aff97; 0xab9423a7; 0xfc93a039;
  0x655b59c3; 0x8f0ccc92; 0xffeff47d; 0x85845dd1;
  0x6fa87e4f; 0xfe2ce6e0; 0xa3014314; 0x4e0811a1;
  0xf7537e82; 0xbd3af235; 0x2ad7d2bb; 0xeb86d391 ].

Definition shifts : list Z := [
  7; 12; 17; 22; 7; 12; 17; 22; 7; 12; 17; 22; 7; 12; 17; 22;
  5; 9; 14; 20; 5; 9; 14; 20; 5; 9; 14; 20; 5; 9; 14; 20;
  4; 11; 16; 23; 4; 11; 16; 23; 4; 11; 16; 23; 4; 11; 16; 23;
  6; 10; 15; 21; 6; 10; 15; 21; 6; 10; 15; 21; 6; 10; 15; 21 ].

Definition bytes_of_string (s : string) : list Z :=
  (fun c => Z.of_N (Ascii.N_of_ascii c)) <$> String.list_ascii_of_string s.

Fixpoint le_bytes (n : nat) (x : Z) : list Z :=
  match n with
  | O => []
  | S n' => x mod 256 :: le_bytes n' (x / 256)
  end.

Fixpoint le_word (bytes : list Z) : Z :=
  match bytes with
  | [] => 0
  | b :: rest => b + 256 * le_word rest
  end.

(** Append the bit 1, zero bits up to 56 modulo 64 bytes, then the length of
    the message in bits as a 64-bit little-endian number. *)
Definition pad (msg : list Z) : list Z :=
  let len := Z.of_nat (length msg) in
  msg ++ [0x80] ++ replicate (Z.to_nat ((55 - len) mod 64)) 0
      ++ le_bytes 8 (8 * len mod 2 ^ 64).

Fixpoint chunks {A} (fuel size : nat) (l : list A) : list (list A) :=
  match fuel, l with
  | O, _ | _, [] => []
  | S fuel', _ => take size l :: chunks fuel' size (drop size l)
  end.

Definition State : Type := Z * Z * Z * Z.

Definition init : State := (0x67452301, 0xefcdab89, 0x98badcfe, 0x10325476).

Definition step (M : list Z) (st : State) (i : nat) : State :=
  let '(A, B, C, D) := st in
  let iz := Z.of_nat i in
  let '(F, g) :=
    if iz <? 16 then (Z.lor (Z.land B C) (Z.land (not32 B) D), iz)
    else if iz <? 32 then (Z.lor (Z.land D B) (Z.land (not32 D) C), (5 * iz + 1) mod 16)
    else if iz <? 48 then (Z.lxor B (Z.lxor C D), (3 * iz + 5) mod 16)
    else (Z.lxor C (Z.lor B (not32 D)), (7 * iz) mod 16) in
  let F' := word (F + A + K !!! i + M !!! Z.to_nat g) in
  (D, word (B + rotl F' (shifts !!! i)), B, C).

Definition process (st : State) (block : list Z) : State :=
  let M := le_word <$> chunks 16 4 block in
  let '(A, B, C, D) := foldl (step M) st (seq 0 64) in
  let '(a0, b0, c0, d0) := st in
  (word (a0 + A), word (b0 + B), word (c0 + C), word (d0 + D)).

Definition digest (msg : list Z) : list Z :=
  let padded := pad msg in
  let '(a, b, c, d) :=
    foldl process init (chunks (length padded) 64 padded) in
  le_bytes 4 a ++ le_bytes 4 b ++ le_bytes 4 c ++ le_bytes 4 d.

Definition hex_digit (n : Z) : ascii :=
  Ascii.ascii_of_N (Z.to_N (if n <? 10 then 48 + n else 87 + n)).

Fixpoint hex (bytes : list Z) : string :=
  match bytes with
  | [] => EmptyString
  | b :: rest => String (hex_digit (b / 16)) (String (hex_digit (b mod 16)) (hex rest))
  end.

(** [CryptoJS.MD5(s).toString()]: the digest in lowercase hexadecimal. *)
Definition MD5 (s : string) : string := hex (digest (bytes_of_string s)).

End MD5.

(** ** Gravatar URLs *)

Module Gravatar.

(** The type [number] of the platform, with the text that a template
    literal gives a number and the number that a decimal literal denotes. *)
Class Numbers := {
  Number : Type;
  number_to_string : Number -> string;
  literal : N -> Number
}.

Section WithPlatform.
Context `{Js.Strings} `{Numbers}.

(** [getGravatarUrl(email, size = 200, defaultImage = 'mp')]; an argument
    left out is [None] and takes its default. *)
Definition getGravatarUrl (email : Js.Nullable) (size : option Number)
    (defaultImage : option string) : string :=
  let size := default (literal 200) size in
  let defaultImage := default "mp" defaultImage in
  match email with
  | Js.str e =>
      if Js.truthy e then
        let trimmedEmail := Js.toLowerCase (Js.trim e) in
        let md5Hash := MD5.MD5 trimmedEmail in
        "https://www.gravatar.com/avatar/" +:+ md5Hash +:+ "?s="
          +:+ number_to_string size +:+ "&d=" +:+ defaultImage
      else
        "https://www.gravatar.com/avatar/?s=" +:+ number_to_string size
          +:+ "&d=" +:+ defaultImage
  | _ =>
      "https://www.gravatar.com/avatar/?s=" +:+ number_to_string size
        +:+ "&d=" +:+ defaultImage
  end.

End WithPlatform.

(** The numbers of the examples: the sizes 40 and 200, among the
    non-negative integers that a template literal writes with their decimal
    digits. *)
#[global] Instance decimal_numbers : Numbers := {|
  Number := N;
  number_to_string := pretty;
  literal n := n
|}.

End Gravatar.

(** ** The client: cache, pending-operation queue and React handlers *)

(** The handlers are functions on a [World]: the remote store and the log of
    the exchanges with it, the two IndexedDB object stores, and the React
    state of [EmployeeList] and [EmployeeDialog]. An [await] is a step of
    the function, so a handler runs to its end before the next event; the
    IndexedDB transactions complete (their [catch] branches only log); the
    two instances of [useEmployeeCache] see the same connectivity signal;
    and the search box and the sort order of the table, which only feed the
    rendering, are left out. *)

Module Client.

(** What the browser and the validation library provide: JavaScript numbers
    with [parseFloat], and the tests behind [z.number().min(0)] and
    [z.string().email()]. *)
Class Platform := {
  Number : Type;
  parseFloat : string -> Number;
  isNaN : Number -> bool;
  nonNegative : Number -> bool;
  isEmail : string -> bool
}.

Section WithPlatform.
Context `{Platform}.

(** The joined [manager:manager_id(first_name, last_name)] object. *)
Record Manager := mkManager {
  manager_first_name : string;
  manager_last_name : string
}.

(** [interface Employee] of [EmployeeList]. *)
Record Employee := mkEmployee {
  id : string;
  employee_number : string;
  first_name : string;
  last_name : string;
  email : option string;
  birth_date : string;
  salary : Number;
  role : string;
  manager_id : option string;
  manager : option Manager
}.

(** The object [dataToSubmit] built by [handleSubmit]: an employee without
    its [id]. *)
Record EmployeeData := mkEmployeeData {
  d_employee_number : string;
  d_first_name : string;
  d_last_name : string;
  d_email : option string;
  d_birth_date : string;
  d_salary : Number;
  d_role : string;
  d_manager_id : option string
}.

(** The state [formData] of the dialog: every field is the text of an input. *)
Record FormData := mkFormData {
  f_employee_number : string;
  f_first_name : string;
  f_last_name : string;
  f_email : string;
  f_birth_date : string;
  f_salary : string;
  f_role : string;
  f_manager_id : string
}.

(** *** Requests to the remote store *)

(** The object handed to [insert] or [update]: a whole employee
    ([op.employee]) or the form data ([dataToSubmit]). *)
Inductive Values :=
| employee_values (e : Employee)
| data_values (d : EmployeeData).

(** [supabase.from("employees")] followed by [.insert(v)],
    [.update(v).eq("id", k)], [.delete().eq("id", k)] or
    [.select(columns).order(column)]. *)
Inductive Request :=
| insert (v : Values)
| update_eq_id (v : Values) (k : string)
| delete_eq_id (k : string)
| select_order (columns : string) (column : string).

(** The [{ data, error }] object of a response; [error] is the message. *)
Record Response := mkResponse {
  data : option (list Employee);
  error : option string
}.

(** The remote store: a state and the answer it gives to each request. *)
Class Backend := {
  Remote : Type;
  send : Remote -> Request -> Remote * Response
}.

Context `{Backend}.

(** *** IndexedDB *)

Inductive Operation :=
| create
| update
| delete.

Definition operation_name (op : Operation) : string :=
  match op with
  | create => "create"
  | update => "update"
  | delete => "delete"
  end.

(** The object given to [store.add] by [addPendingOperation]. *)
Record PendingOperation := mkPendingOperation {
  operation : Operation;
  employee : Employee;
  timestamp : Z
}.

(** The object store [pending_operations] ([keyPath: 'id'],
    [autoIncrement: true]): the records in ascending order of the key that
    the key generator gave them, and the next key it will give. *)
Record PendingStore := mkPendingStore {
  next_key : N;
  records : list (N * PendingOperation)
}.

Definition pending_add (v : PendingOperation) (s : PendingStore) : PendingStore :=
  mkPendingStore (next_key s + 1) (records s ++ [(next_key s, v)]).

Definition pending_getAll (s : PendingStore) : list PendingOperation :=
  snd <$> records s.

(** [store.clear()] removes every record and leaves the key generator. *)
Definition pending_clear (s : PendingStore) : PendingStore :=
  mkPendingStore (next_key s) [].

Definition pending_empty : PendingStore := mkPendingStore 1 [].

(** The two calls the application makes on the queue, and a history of
    them. *)
Inductive QueueCall :=
| add_call (op : Operation) (e : Employee) (now : Z)
| clear_call.

Definition queue_call (s : PendingStore) (c : QueueCall) : PendingStore :=
  match c with
  | add_call op e now => pending_add (mkPendingOperation op e now) s
  | clear_call => pending_clear s
  end.

(** The object store [employees] ([keyPath: 'id']). *)
Definition CacheStore : Type := gmap string Employee.

Fixpoint insert_sorted (e : Employee) (l : list Employee) : list Employee :=
  match l with
  | [] => [e]
  | x :: rest =>
      if String.leb (id e) (id x) then e :: l else x :: insert_sorted e rest
  end.

(** [store.getAll()] returns the records in ascending order of their key. *)
Definition cache_getAll (c : CacheStore) : list Employee :=
  foldr insert_sorted [] (snd <$> map_to_list c).

(** *** The state of the application *)

Inductive Toast :=
| toast_info (message : string)
| toast_success (message : string)
| toast_error (message : string).

Record World := mkWorld {
  remote : Remote;
  log : list (Request * Response);
  cache : CacheStore;
  pending : PendingStore;
  isOnline : bool;
  employees : list Employee;
  loading : bool;
  dialogOpen : bool;
  selectedEmployee : option Employee;
  pendingCount : nat;
  syncing : bool;
  saving : bool;
  toasts : list Toast
}.

Definition with_remote (r : Remote) (l : list (Request * Response)) (w : World) : World :=
  mkWorld r l (cache w) (pending w) (isOnline w) (employees w) (loading w)
          (dialogOpen w) (selectedEmployee w) (pendingCount w) (syncing w)
          (saving w) (toasts w).

Definition with_cache (c : CacheStore) (w : World) : World :=
  mkWorld (remote w) (log w) c (pending w) (isOnline w) (employees w) (loading w)
          (dialogOpen w) (selectedEmployee w) (pendingCount w) (syncing w)
          (saving w) (toasts w).

Definition with_pending (p : PendingStore) (w : World) : World :=
  mkWorld (remote w) (log w) (cache w) p (isOnline w) (employees w) (loading w)
          (dialogOpen w) (selectedEmployee w) (pendingCount w) (syncing w)
          (saving w) (toasts w).

Definition setIsOnline (b : bool) (w : World) : World :=
  mkWorld (remote w) (log w) (cache w) (pending w) b (employees w) (loading w)
          (dialogOpen w) (selectedEmployee w) (pendingCount w) (syncing w)
          (saving w) (toasts w).

Definition setEmployees (l : list Employee) (w : World) : World :=
  mkWorld (remote w) (log w) (cache w) (pending w) (isOnline w) l (loading w)
          (dialogOpen w) (selectedEmployee w) (pendingCount w) (syncing w)
          (saving w) (toasts w).

Definition setLoading (b : bool) (w : World) : World :=
  mkWorld (remote w) (log w) (cache w) (pending w) (isOnline w) (employees w) b
          (dialogOpen w) (selectedEmployee w) (pendingCount w) (syncing w)
          (saving w) (toasts w).

Definition setDialogOpen (b : bool) (w : World) : World :=
  mkWorld (remote w) (log w) (cache w) (pending w) (isOnline w) (employees w)
          (loading w) b (selectedEmployee w) (pendingCount w) (syncing w)
          (saving w) (toasts w).

Definition setSelectedEmployee (e : option Employee) (w : World) : World :=
  mkWorld (remote w) (log w) (cache w) (pending w) (isOnline w) (employees w)
          (loading w) (dialogOpen w) e (pendingCount w) (syncing w)
          (saving w) (toasts w).

Definition setPendingCount (n : nat) (w : World) : World :=
  mkWorld (remote w) (log w) (cache w) (pending w) (isOnline w) (employees w)
          (loading w) (dialogOpen w) (selectedEmployee w) n (syncing w)
          (saving w) (toasts w).

Definition setSyncing (b : bool) (w : World) : World :=
  mkWorld (remote w) (log w) (cache w) (pending w) (isOnline w) (employees w)
          (loading w) (dialogOpen w) (selectedEmployee w) (pendingCount w) b
          (saving w) (toasts w).

Definition setSaving (b : bool) (w : World) : World :=
  mkWorld (remote w) (log w) (cache w) (pending w) (isOnline w) (employees w)
          (loading w) (dialogOpen w) (selectedEmployee w) (pendingCount w)
          (syncing w) b (toasts w).

Definition toast (t : Toast) (w : World) : World :=
  mkWorld (remote w) (log w) (cache w) (pending w) (isOnline w) (employees w)
          (loading w) (dialogOpen w) (selectedEmployee w) (pendingCount w)
          (syncing w) (saving w) (toasts w ++ [t]).

(** One awaited call on the [supabase] client: the remote store answers and
    the exchange is recorded. *)
Definition supabase (req : Request) (w : World) : World * Response :=
  let '(r, resp) := send (remote w) req in
  (with_remote r (log w ++ [(req, resp)]) w, resp).

(** *** [useEmployeeCache] *)

Definition saveToCache (l : list Employee) (w : World) : World :=
  with_cache (foldl (fun c e => <[id e := e]> c) ∅ l) w.

Definition getFromCache (w : World) : list Employee := cache_getAll (cache w).

Definition addPendingOperation (op : Operation) (e : Employee) (now : Z)
    (w : World) : World :=
  with_pending (pending_add (mkPendingOperation op e now) (pending w)) w.

Definition getPendingOperations (w : World) : list PendingOperation :=
  pending_getAll (pending w).

Definition clearPendingOperations (w : World) : World :=
  with_pending (pending_clear (pending w)) w.

Definition addToLocalDB (e : Employee) (w : World) : World :=
  with_cache (<[id e := e]> (cache w)) w.

Definition updateInLocalDB (e : Employee) (w : World) : World :=
  with_cache (<[id e := e]> (cache w)) w.

Definition deleteFromLocalDB (k : string) (w : World) : World :=
  with_cache (base.delete k (cache w)) w.

(** *** [EmployeeList] *)

Definition checkPendingOperations (w : World) : World :=
  setPendingCount (length (getPendingOperations w)) w.

(** The select list of [fetchEmployees], without its line breaks. *)
Definition employees_with_manager : string :=
  "*, manager:manager_id(first_name, last_name)".

Definition fetchEmployees (w : World) : World :=
  let w := setLoading true w in
  let cachedData := getFromCache w in
  let w :=
    if (0 <? length cachedData)%nat
    then setLoading false (setEmployees cachedData w)
    else w in
  let w :=
    if isOnline w then
      let '(w, resp) := supabase (select_order employees_with_manager "employee_number") w in
      match error resp with
      | Some _ =>
          if (length cachedData =? 0)%nat
          then toast (toast_error "Failed to fetch employees") w
          else toast (toast_error "Using cached data - sync failed") w
      | None =>
          saveToCache (default [] (data resp))
            (setEmployees (default [] (data resp)) w)
      end
    else if (length cachedData =? 0)%nat
    then toast (toast_error "No cached data available offline") w
    else toast (toast_info "Viewing cached data (offline mode)") w in
  setLoading false w.

(** The request that replays one pending operation. *)
Definition replay_request (op : PendingOperation) : Request :=
  match operation op with
  | create => insert (employee_values (employee op))
  | update => update_eq_id (employee_values (employee op)) (id (employee op))
  | delete => delete_eq_id (id (employee op))
  end.

(** The [for (const op of pending)] loop of [syncPendingOperations]: the
    result is the operation whose replay threw, if any. *)
Fixpoint replay (ops : list PendingOperation) (w : World)
    : World * option PendingOperation :=
  match ops with
  | [] => (w, None)
  | op :: rest =>
      let '(w1, resp) := supabase (replay_request op) w in
      match error resp with
      | Some _ => (w1, Some op)
      | None => replay rest w1
      end
  end.

Definition syncPendingOperations (w : World) : World :=
  let w := setSyncing true w in
  let pending := getPendingOperations w in
  if (length pending =? 0)%nat then setSyncing false w
  else
    let w := toast (toast_info
      ("Syncing " +:+ pretty (length pending) +:+ " pending changes...")) w in
    match replay pending w with
    | (w, Some op) =>
        setSyncing false
          (toast (toast_error
            ("Failed to sync " +:+ operation_name (operation op) +:+ " operation")) w)
    | (w, None) =>
        let w := clearPendingOperations w in
        let w := setPendingCount 0 w in
        let w := setSyncing false w in
        let w := toast (toast_success "All changes synced successfully!") w in
        fetchEmployees w
    end.

(** The effect [useEffect(..., [isOnline])]. *)
Definition reconnect_effect (w : World) : World :=
  if isOnline w && (0 <? pendingCount w)%nat then syncPendingOperations w else w.

Definition handleDelete (k : string) (confirmed : bool) (now : Z) (w : World)
    : World :=
  if negb confirmed then w
  else
    match List.find (fun e => bool_decide (id e = k)) (employees w) with
    | None => w
    | Some employee =>
        if isOnline w then
          let '(w, resp) := supabase (delete_eq_id k) w in
          match error resp with
          | Some _ => toast (toast_error "Failed to delete employee") w
          | None => fetchEmployees (toast (toast_success "Employee deleted successfully") w)
          end
        else
          let w := deleteFromLocalDB k w in
          let w := addPendingOperation delete employee now w in
          let w := checkPendingOperations w in
          let w := toast (toast_success "Employee deleted (will sync when online)") w in
          fetchEmployees w
    end.

Definition handleDialogClose (shouldRefresh : bool) (w : World) : World :=
  let w := setDialogOpen false w in
  let w := setSelectedEmployee None w in
  if shouldRefresh then fetchEmployees (checkPendingOperations w) else w.

(** *** [EmployeeDialog] *)

(** [fetchManagers]; the list it stores only feeds the manager select. *)
Definition fetchManagers (w : World) : World :=
  fst (supabase (select_order "*" "first_name") w).

(** [z.string().min(1, message)]. *)
Definition min1 (message value : string) : list string :=
  if Js.truthy value then [] else [message].

(** The issues of [employeeSchema.safeParse], in the order of the fields. *)
Definition employeeSchema (f : FormData) (salary : Number) : list string :=
  min1 "Employee number is required" (f_employee_number f)
  ++ min1 "First name is required" (f_first_name f)
  ++ min1 "Last name is required" (f_last_name f)
  ++ (if isEmail (f_email f) || negb (Js.truthy (f_email f)) then []
      else ["Invalid email address"])
  ++ min1 "Birth date is required" (f_birth_date f)
  ++ (if isNaN salary then ["Expected number, received nan"]
      else if nonNegative salary then [] else ["Salary must be positive"])
  ++ min1 "Role is required" (f_role f).

(** [value || null]. *)
Definition or_null (value : string) : option string :=
  if Js.truthy value then Some value else None.

Definition dataToSubmit (f : FormData) : EmployeeData :=
  mkEmployeeData (f_employee_number f) (f_first_name f) (f_last_name f)
    (or_null (f_email f)) (f_birth_date f) (parseFloat (f_salary f))
    (f_role f) (or_null (f_manager_id f)).

(** [{ ...employee, ...dataToSubmit }]. *)
Definition updatedEmployee (employee : Employee) (d : EmployeeData) : Employee :=
  mkEmployee (id employee) (d_employee_number d) (d_first_name d) (d_last_name d)
    (d_email d) (d_birth_date d) (d_salary d) (d_role d) (d_manager_id d)
    (manager employee).

(** [{ ...dataToSubmit, id: crypto.randomUUID() }]. *)
Definition newEmployee (d : EmployeeData) (uuid : string) : Employee :=
  mkEmployee uuid (d_employee_number d) (d_first_name d) (d_last_name d)
    (d_email d) (d_birth_date d) (d_salary d) (d_role d) (d_manager_id d)
    None.

(** [handleSubmit]; [uuid] is the value of [crypto.randomUUID()], [now] the
    value of [Date.now()], and [onClose] is [handleDialogClose]. *)
Definition handleSubmit (formData : FormData) (uuid : string) (now : Z)
    (w : World) : World :=
  let employee := selectedEmployee w in
  let w := setSaving true w in
  match employeeSchema formData (parseFloat (f_salary formData)) with
  | message :: _ => setSaving false (toast (toast_error message) w)
  | [] =>
      let d := dataToSubmit formData in
      let w :=
        match employee with
        | Some employee =>
            let updated := updatedEmployee employee d in
            if isOnline w then
              let '(w, resp) := supabase (update_eq_id (data_values d) (id employee)) w in
              match error resp with
              | Some message =>
                  if Js.includes message "cannot be their own manager"
                  then toast (toast_error "An employee cannot be their own manager") w
                  else toast (toast_error "Failed to update employee") w
              | None =>
                  handleDialogClose true
                    (toast (toast_success "Employee updated successfully") w)
              end
            else
              let w := updateInLocalDB updated w in
              let w := addPendingOperation update updated now w in
              let w := toast (toast_success "Employee updated (will sync when online)") w in
              handleDialogClose true w
        | None =>
            let created := newEmployee d uuid in
            if isOnline w then
              let '(w, resp) := supabase (insert (data_values d)) w in
              match error resp with
              | Some message =>
                  if Js.includes message "duplicate key"
                  then toast (toast_error "Employee number already exists") w
                  else if Js.includes message "cannot be their own manager"
                  then toast (toast_error "An employee cannot be their own manager") w
                  else toast (toast_error "Failed to create employee") w
              | None =>
                  handleDialogClose true
                    (toast (toast_success "Employee created successfully") w)
              end
            else
              let w := addToLocalDB created w in
              let w := addPendingOperation create created now w in
              let w := toast (toast_success "Employee created (will sync when online)") w in
              handleDialogClose true w
        end in
      setSaving false w
  end.

(** *** Events *)

(** Opening the dialog runs its effect, which fetches the managers. *)
Definition openDialog (e : option Employee) (w : World) : World :=
  fetchManagers (setDialogOpen true (setSelectedEmployee e w)).

(** What the user and the browser can do to the mounted application. *)
Inductive Event :=
| online_event
| offline_event
| click_add
| click_edit (e : Employee)
| click_cancel
| submit (formData : FormData) (uuid : string) (now : Z)
| click_delete (k : string) (confirmed : bool) (now : Z).

(** An [online] event sets [isOnline]; the effect runs when the value changed. *)
Definition handleOnline (w : World) : World :=
  if isOnline w then w else reconnect_effect (setIsOnline true w).

Definition handleOffline (w : World) : World := setIsOnline false w.

Definition handle (ev : Event) (w : World) : World :=
  match ev with
  | online_event => handleOnline w
  | offline_event => handleOffline w
  | click_add => openDialog None w
  | click_edit e => openDialog (Some e) w
  | click_cancel => handleDialogClose false w
  | submit formData uuid now => handleSubmit formData uuid now w
  | click_delete k confirmed now => handleDelete k confirmed now w
  end.

(** Mounting [EmployeeList] over the persistent stores: the initial state,
    then the effects [fetchEmployees(); checkPendingOperations()]; the
    reconnect effect of the first render sees [pendingCount = 0]. *)
Definition mount (r : Remote) (c : CacheStore) (p : PendingStore)
    (online : bool) : World :=
  checkPendingOperations
    (fetchEmployees
      (mkWorld r [] c p online [] true false None 0%nat false false [])).

Inductive reachable : World -> Prop :=
| reachable_mount r c p online : reachable (mount r c p online)
| reachable_handle ev w : reachable w -> reachable (handle ev w).

(** The application after a sequence of events. *)
Definition after (evs : list Event) (w : World) : World :=
  foldl (fun w ev => handle ev w) w evs.

(** *** The rest of [useEmployeeCache], [EmployeeList] and [EmployeeDialog] *)

Definition clearCache (w : World) : World := with_cache ∅ w.

(** What the handlers send for the user, given the events so far: a select,
    the form data of a submitted form, or the delete of a confirmed delete
    click. A whole employee object is sent by the replay of the queue only. *)
Definition user_request (evs : list Event) (req : Request) : Prop :=
  match req with
  | select_order _ _ => True
  | insert (data_values d) | update_eq_id (data_values d) _ =>
      exists formData uuid now,
        submit formData uuid now ∈ evs /\ d = dataToSubmit formData
  | delete_eq_id k => exists now, click_delete k true now ∈ evs
  | insert (employee_values _) | update_eq_id (employee_values _) _ => False
  end.

(** No spinner is on: the list is not loading, no sync is running and the
    dialog is not saving. *)
Definition settled (w : World) : Prop :=
  loading w = false /\ syncing w = false /\ saving w = false.

(** The store after [store.clear()] and a [store.put] for each employee of
    the list, as [saveToCache] leaves it. *)
Definition saved (l : list Employee) : CacheStore :=
  foldl (fun c e => <[id e := e]> c) ∅ l.

(** An object store with [keyPath: 'id'] holds every record under the [id]
    of the record. *)
Definition keyed (c : CacheStore) : Prop :=
  forall k e, c !! k = Some e -> id e = k.

Context `{Js.Strings}.

(** The test of the search box of [EmployeeList]; [email && ...] is falsy
    for a null and for an empty e-mail address. *)
Definition found (term : string) (emp : Employee) : bool :=
  Js.includes (Js.toLowerCase (first_name emp)) term
  || Js.includes (Js.toLowerCase (last_name emp)) term
  || Js.includes (Js.toLowerCase (employee_number emp)) term
  || Js.includes (Js.toLowerCase (role emp)) term
  || match email emp with
     | Some e => Js.truthy e && Js.includes (Js.toLowerCase e) term
     | None => false
     end.

(** [filterAndSortEmployees] on the state [employees] and [searchTerm]; the
    result is the new [filteredEmployees]. [sort] stands for
    [Array.prototype.sort] with the comparator built from [sortField] and
    [sortDirection]. *)
Definition filterAndSortEmployees (sort : list Employee -> list Employee)
    (employees : list Employee) (searchTerm : string) : list Employee :=
  let filtered :=
    if Js.truthy searchTerm
    then filter (fun emp => found (Js.toLowerCase searchTerm) emp = true) employees
    else employees in
  sort filtered.

(** The state [formData] that the effect of [EmployeeDialog] sets when the
    dialog opens; [toString] is [Number.prototype.toString]. *)
Definition initialFormData (toString : Number -> string)
    (employee : option Employee) : FormData :=
  match employee with
  | Some employee =>
      mkFormData (employee_number employee) (first_name employee)
        (last_name employee) (default "" (email employee))
        (birth_date employee) (toString (salary employee)) (role employee)
        (default "" (manager_id employee))
  | None => mkFormData "" "" "" "" "" "" "" ""
  end.

(** The manager select of the dialog: the values of its items, 'none' for
    the item 'No Manager' and then the [id] of every manager other than the
    employee being edited, and the handler [onValueChange] of the select. *)
Definition managerOptions (managers : list Employee)
    (employee : option Employee) : list string :=
  "none"
  :: (id <$> filter (fun m => match employee with
                              | Some e => negb (bool_decide (id m = id e))
                              | None => true
                              end = true) managers).

Definition onManagerChange (value : string) (formData : FormData) : FormData :=
  mkFormData (f_employee_number formData) (f_first_name formData)
    (f_last_name formData) (f_email formData) (f_birth_date formData)
    (f_salary formData) (f_role formData) value.

End WithPlatform.
End Client.

(** ** The org chart of [EmployeeHierarchy] *)

Module Hierarchy.

(** [interface Employee] of [EmployeeHierarchy], without [subordinates]. *)
Record Employee := mkEmployee {
  id : string;
  employee_number : string;
  first_name : string;
  last_name : string;
  email : option string;
  role : string;
  manager_id : option string
}.

#[global] Instance Employee_eq_dec : EqDecision Employee.
Proof. solve_decision. Defined.

(** An object of [employeeMap]: a copy of the employee and its
    [subordinates] array. The array holds references to objects of the map;
    a reference is the key under which the map holds the object. *)
Record Node := mkNode {
  employee : Employee;
  subordinates : list string
}.

(** First loop: [employeeMap.set(emp.id, { ...emp, subordinates: [] })]. *)
Definition buildMap (employees : list Employee) : gmap string Node :=
  foldl (fun m emp => <[id emp := mkNode emp []]> m) ∅ employees.

(** [manager.subordinates.push(employee)]. *)
Definition push (ref : string) (n : Node) : Node :=
  mkNode (employee n) (subordinates n ++ [ref]).

(** [emp.manager_id && employeeMap.has(emp.manager_id)]. *)
Definition has_manager (m : gmap string Node) (emp : Employee) : option string :=
  match manager_id emp with
  | Some k => if Js.truthy k && bool_decide (is_Some (m !! k)) then Some k else None
  | None => None
  end.

(** Body of the second loop, on the map and the array [roots]. *)
Definition link (st : gmap string Node * list string) (emp : Employee)
    : gmap string Node * list string :=
  let '(m, roots) := st in
  match m !! id emp with
  | None => st
  | Some _ =>
      match has_manager m emp with
      | Some k => (alter (push (id emp)) k m, roots)
      | None => (m, roots ++ [id emp])
      end
  end.

(** An employee object read together with everything below it. *)
Inductive Tree :=
| tree_node (e : Employee) (subs : list Tree).

Definition root (t : Tree) : Employee :=
  match t with
  | tree_node e _ => e
  end.

Definition subs (t : Tree) : list Tree :=
  match t with
  | tree_node _ l => l
  end.

(** Reading the object behind a reference as a tree. Objects that contain
    themselves have no such reading: [None] after [fuel] levels. *)
Fixpoint unfold (fuel : nat) (m : gmap string Node) (ref : string) : option Tree :=
  match fuel with
  | O => None
  | S fuel' =>
      n ← m !! ref;
      l ← mapM (unfold fuel' m) (subordinates n);
      Some (tree_node (employee n) l)
  end.

Section WithStrings.
Context `{Js.Strings}.

Definition matches (e : Employee) (term : string) : bool :=
  Js.includes (Js.toLowerCase (first_name e)) term
  || Js.includes (Js.toLowerCase (last_name e)) term
  || Js.includes (Js.toLowerCase (employee_number e)) term
  || Js.includes (Js.toLowerCase (role e)) term.

(** One step of the [map] of [filterHierarchy]; [None] is [null]. *)
Fixpoint filterNode (term : string) (node : Tree) : option Tree :=
  match node with
  | tree_node e l =>
      let filteredSubordinates := omap (filterNode term) l in
      if matches e term || (0 <? length filteredSubordinates)%nat
      then Some (tree_node e filteredSubordinates)
      else None
  end.

Definition filterHierarchy (nodes : list Tree) (term : string) : list Tree :=
  omap (filterNode term) nodes.

(** [buildHierarchyTree] on the state [employees], [searchTerm] and
    [hierarchyTree]; the result is the new [hierarchyTree]. *)
Definition buildHierarchyTree (employees : list Employee) (searchTerm : string)
    (hierarchyTree : list Tree) : option (list Tree) :=
  if (length employees =? 0)%nat then Some hierarchyTree
  else
    let employeeMap := buildMap employees in
    let '(m, roots) := foldl link (employeeMap, []) employees in
    forest ← mapM (unfold (length employees) m) roots;
    if Js.truthy searchTerm
    then Some (filterHierarchy forest (Js.toLowerCase searchTerm))
    else Some forest.

End WithStrings.

(** The employees of a tree, each node before its subordinates. *)
Fixpoint flatten (t : Tree) : list Employee :=
  match t with
  | tree_node e l => e :: concat (flatten <$> l)
  end.

(** Every node of a tree, with what is below it. *)
Fixpoint nodes (t : Tree) : list Tree :=
  match t with
  | tree_node e l => t :: concat (nodes <$> l)
  end.

(** The manager of [e] in the list: the employee whose [id] is the
    non-empty [manager_id] of [e]. *)
Definition parent (employees : list Employee) (e : Employee) : option Employee :=
  match manager_id e with
  | Some k =>
      if Js.truthy k then List.find (fun m => bool_decide (id m = k)) employees
      else None
  | None => None
  end.

(** The [k]-th manager up the reporting line. *)
Fixpoint ancestor (employees : list Employee) (k : nat) (e : Employee)
    : option Employee :=
  match k with
  | O => Some e
  | S k' => parent employees e ≫= ancestor employees k'
  end.

(** No employee of the list is above itself. *)
Definition acyclic (employees : list Employee) : Prop :=
  ∀ e k, e ∈ employees → (0 < k)%nat → ancestor employees k e ≠ Some e.

(** A test for [acyclic]: every reporting line ends within [fuel] steps. *)
Fixpoint ends_within (employees : list Employee) (fuel : nat) (e : Employee) : bool :=
  match parent employees e with
  | None => true
  | Some p =>
      match fuel with
      | O => false
      | S fuel' => ends_within employees fuel' p
      end
  end.

Definition acyclicb (employees : list Employee) : bool :=
  forallb (ends_within employees (length employees)) employees.

(** The reports of [m], the employees without a manager in the list, and
    the tree below an employee down to [fuel] levels, all read off the list. *)
Definition children (employees : list Employee) (m : Employee) : list Employee :=
  filter (fun c => parent employees c = Some m) employees.

Definition roots (employees : list Employee) : list Employee :=
  filter (fun e => parent employees e = None) employees.

Fixpoint tree (employees : list Employee) (fuel : nat) (e : Employee) : Tree :=
  tree_node e
    match fuel with
    | O => []
    | S fuel' => tree employees fuel' <$> children employees e
    end.

(** [level employees e d]: the reporting line of [e] reaches an employee
    without a manager after [d] steps. *)
Inductive level (employees : list Employee) : Employee -> nat -> Prop :=
| level_root e : parent employees e = None -> level employees e 0
| level_report e p d :
    parent employees e = Some p -> level employees p d ->
    level employees e (S d).

(** The state of the second loop after the employees of [done_] have been
    visited: the roots so far, and under each employee the reports so far. *)
Definition linked (employees done_ : list Employee)
    (st : gmap string Node * list string) : Prop :=
  st.2 = id <$> filter (fun e => parent employees e = None) done_
  /\ (forall y, y ∈ employees ->
       st.1 !! id y
         = Some (mkNode y (id <$> filter (fun c => parent employees c = Some y) done_)))
  /\ (forall k, k ∉ id <$> employees -> st.1 !! k = None).

(** How many times an employee appears in a list, and in a forest. *)
Definition count (l : list Employee) (x : Employee) : nat :=
  count_occ Employee_eq_dec l x.

Definition one_if (P : Prop) `{Decision P} : nat :=
  if decide P then 1%nat else 0%nat.

Definition occurrences (e : Employee) (forest : list Tree) : nat :=
  count (concat (flatten <$> forest)) e.

(** Sample lists: a chain of three with one outsider, a list with the same
    [id] twice, and a list whose second employee names the empty [id]. *)
Definition ann : Employee := mkEmployee "1" "E1" "Ann" "Ames" None "CEO" None.
Definition ben : Employee := mkEmployee "2" "E2" "Ben" "Bell" None "CTO" (Some "1").
Definition cat : Employee := mkEmployee "3" "E3" "Cat" "Cole" None "Dev" (Some "2").
Definition dan : Employee := mkEmployee "4" "E4" "Dan" "Dunn" None "Dev" (Some "9").
Definition ann_again : Employee := mkEmployee "1" "E5" "Anna" "Ames" None "CFO" None.
Definition nameless : Employee := mkEmployee "" "E6" "Eve" "Ende" None "CEO" None.
Definition fay : Employee := mkEmployee "7" "E7" "Fay" "Ford" None "Dev" (Some "").

(** [pruned t' t]: the tree [t'] is [t] with some of the subtrees taken
    out, the others staying in the order and under the node they were. *)
Inductive pruned : Tree -> Tree -> Prop :=
| pruned_node e l l' kept :
    sublist kept l -> Forall2 pruned l' kept ->
    pruned (tree_node e l') (tree_node e l).

(** *** Expanding and collapsing the chart *)

(** [toggleNode] on the state [expandedNodes]; the result is the new set. *)
Definition toggleNode (k : string) (expandedNodes : gset string) : gset string :=
  if bool_decide (k ∈ expandedNodes)
  then expandedNodes ∖ {[k]}
  else expandedNodes ∪ {[k]}.

(** [addAllIds] of [expandAll], on the set [allIds] and one node. *)
Fixpoint addAllIds (allIds : gset string) (node : Tree) : gset string :=
  match node with
  | tree_node e l => foldl addAllIds (allIds ∪ {[id e]}) l
  end.

Definition expandAll (hierarchyTree : list Tree) : gset string :=
  foldl addAllIds ∅ hierarchyTree.

Definition collapseAll : gset string := ∅.

(** What [renderNode] puts on the page, one row for each card in document
    order: the employee, the [level] of indentation, and the button, when
    there is one, with its sign ([true] for the minus of an expanded node)
    and the number of reports it shows. *)
Record Card := mkCard {
  shown : Employee;
  indent : nat;
  button : option (bool * nat)
}.

Fixpoint renderNode (expandedNodes : gset string) (level : nat)
    (employee : Tree) : list Card :=
  match employee with
  | tree_node e l =>
      let hasSubordinates := (0 <? length l)%nat in
      let isExpanded := bool_decide (id e ∈ expandedNodes) in
      mkCard e level
        (if hasSubordinates then Some (isExpanded, length l) else None)
      :: (if hasSubordinates && isExpanded
          then concat (renderNode expandedNodes (S level) <$> l)
          else [])
  end.

(** [hierarchyTree.map((employee) => renderNode(employee, 0))]. *)
Definition render (expandedNodes : gset string) (hierarchyTree : list Tree)
    : list Card :=
  concat (renderNode expandedNodes 0 <$> hierarchyTree).

End Hierarchy.

(** ** A sample platform and a scripted remote store *)

Module Samples.
Import Client.

Fixpoint digits_value (acc : Z) (s : string) : option Z :=
  match s with
  | EmptyString => Some acc
  | String c rest =>
      let n := Z.of_N (Ascii.N_of_ascii c) in
      if (48 <=? n) && (n <=? 57) then digits_value (10 * acc + (n - 48)) rest
      else None
  end.

(** Numbers are the non-negative integers written in decimal digits, and
    [None] stands for [NaN]; an e-mail address is a text with an [@]. *)
#[global] Instance sample_platform : Platform := {|
  Number := option Z;
  parseFloat s := if Js.truthy s then digits_value 0 s else None;
  isNaN n := bool_decide (n = None);
  nonNegative n := match n with Some z => 0 <=? z | None => false end;
  isEmail s := Js.includes s "@"
|}.

(** A remote store that answers from a script: the next answer for each
    request, whatever the request is, and success once the script is over. *)
Definition ok : Response := mkResponse (Some []) None.

Definition failure : Response := mkResponse None (Some "Failed to fetch").

#[global] Instance scripted_backend : Backend := {|
  Remote := list Response;
  send script req :=
    match script with
    | [] => ([], ok)
    | resp :: rest => (rest, resp)
    end
|}.

Definition sample_form : FormData :=
  mkFormData "E001" "Ada" "Byron" "ada@example.com" "1990-01-01" "50000" "CEO" "".

Definition invalid_form : FormData :=
  mkFormData "" "Ada" "Byron" "" "1990-01-01" "50000" "CEO" "".

Definition ada : Employee := newEmployee (dataToSubmit sample_form) "u1".

Definition bob : Employee :=
  mkEmployee "u2" "E002" "Bob" "Cole" None "1991-02-02" (Some 30000) "Engineer"
    (Some "u1") None.

Definition cy : Employee :=
  mkEmployee "u3" "E003" "Cy" "Dale" None "1992-03-03" (Some 20000) "Clerk"
    (Some "u1") None.

(** A queue of three operations enqueued at times 1, 2 and 3. *)
Definition sample_queue : PendingStore :=
  pending_add (mkPendingOperation delete cy 3)
    (pending_add (mkPendingOperation update bob 2)
      (pending_add (mkPendingOperation create ada 1) pending_empty)).

(** The application mounted offline over [sample_queue], with a remote store
    that will answer success, success, failure, failure. *)
Definition offline_world : World :=
  mount [ok; ok; failure; failure] ∅ sample_queue false.

(** The application mounted offline with an empty queue and [bob] cached. *)
Definition offline_clean : World :=
  mount [] {[ "u2" := bob ]} pending_empty false.

End Samples.

(** ** More sample data *)

Module Fixtures.

(** A row that names itself as its manager and whose salary, ten thousand
    million, does not fit [DECIMAL(12, 2)]. *)
Definition self_managed_overflow : Pg.Row :=
  Pg.mkRow (Some "u3") (Some "E003") (Some "Cy") (Some "Dale")
           (Some "1992-03-03") (Some (10 ^ 12)) (Some "Clerk") (Some "u3")
           None None None None.

(** Two rows without an e-mail address, a row with an address of its own,
    and a row with the address of [Pg.sample_report]. *)
Definition clerk : Pg.Row :=
  Pg.mkRow (Some "u5") (Some "E005") (Some "Cleo") (Some "Kerr")
           (Some "1994-05-05") (Some 1500000) (Some "Clerk") (Some "u1")
           None None None None.

Definition temp : Pg.Row :=
  Pg.mkRow (Some "u8") (Some "E008") (Some "Tom") (Some "Temp")
           (Some "1996-07-07") (Some 1000000) (Some "Clerk") None
           None None None None.

Definition dee : Pg.Row :=
  Pg.mkRow (Some "u6") (Some "E006") (Some "Dee") (Some "Eve")
           (Some "1995-06-06") (Some 2500000) (Some "Engineer") (Some "u1")
           None None None (Some "dee@example.com").

Definition bob_again : Pg.Row :=
  Pg.mkRow (Some "u7") (Some "E007") (Some "Rob") (Some "Cole")
           (Some "1991-02-02") (Some 3000000) (Some "Engineer") None
           None None None (Some "bob@example.com").

(** The table after [sample_manager] and then [sample_report] were
    inserted. *)
Definition staffed_db : Pg.Database :=
  Pg.mkDatabase []
    [Pg.sample_manager; Pg.apply_defaults Pg.sample_env Pg.sample_report].

(** An answer that lists two employees, and the application mounted online
    over an empty cache with a remote store that answers the first fetch
    with an empty list and the next request with that answer, or with a
    failure. *)
Definition listing : Client.Response :=
  Client.mkResponse (Some [Samples.bob; Samples.cy]) None.

Definition online_world : Client.World :=
  Client.mount [Samples.ok; listing] ∅ Client.pending_empty true.

Definition online_failing : Client.World :=
  Client.mount [Samples.ok; Samples.failure] ∅ Client.pending_empty true.

(** The chart of [ann], [ben], [cat] and [dan]. *)
Definition chart : list Hierarchy.Tree :=
  [Hierarchy.tree_node Hierarchy.ann
     [Hierarchy.tree_node Hierarchy.ben
        [Hierarchy.tree_node Hierarchy.cat []]];
   Hierarchy.tree_node Hierarchy.dan []].

(** [Number.prototype.toString] on the numbers of [Samples.sample_platform]. *)
Definition sample_toString (n : option Z) : string :=
  match n with
  | Some z => pretty z
  | None => "NaN"
  end.

(** The table after [clerk] and [dee] were inserted as well. *)
Definition team_db : Pg.Database :=
  Pg.mkDatabase []
    [Pg.sample_manager; Pg.apply_defaults Pg.sample_env Pg.sample_report;
     Pg.apply_defaults Pg.sample_env clerk; Pg.apply_defaults Pg.sample_env dee].

End Fixtures.

(** * Properties *)

(** ** Test vectors of RFC 1321 *)

Example MD5_empty : MD5.MD5 "" = "d41d8cd98f00b204e9800998ecf8427e".
Proof. vm_compute. reflexivity. Qed.

Example MD5_abc : MD5.MD5 "abc" = "900150983cd24fb0d6963f7d28e17f72".
Proof. vm_compute. reflexivity. Qed.

Example MD5_alphabet :
  MD5.MD5 "abcdefghijklmnopqrstuvwxyz" = "c3fcd3d76192e4007dfb496cca67e13b".
Proof. vm_compute. reflexivity. Qed.

Example MD5_two_blocks :
  MD5.MD5 "12345678901234567890123456789012345678901234567890123456789012345678901234567890"
    = "57edf4a22be3c955ac49da2e2107b67a".
Proof. vm_compute. reflexivity. Qed.

(** ** Sequencing of fallible steps *)

Lemma bind_inr {E A B} (m : E + A) (k : A -> E + B) (b : B) :
  m ≫= k = inr b -> exists a, m = inr a /\ k a = inr b.
Proof. destruct m as [e|a]; [discriminate | eauto]. Qed.

(** ** The triggers of the remote store *)

Section PgFacts.
Import Pg.

Lemma sql_if_eq_true (a b : option UUID) :
  sql_if (sql_eq a b) = true <-> exists k, a = Some k /\ b = Some k.
Proof.
  destruct a as [x|], b as [y|]; simpl; split; try discriminate;
    try (intros (k & ? & ?); discriminate).
  - case_bool_decide; [subst; eauto | discriminate].
  - intros (k & [= ->] & [= ->]). by rewrite bool_decide_eq_true_2.
Qed.

Lemma check_manager_not_self_raises NEW k :
  id NEW = Some k -> manager_id NEW = Some k ->
  check_manager_not_self NEW = inl (RaisedException self_manager_message).
Proof.
  intros Hid Hm. unfold check_manager_not_self.
  replace (sql_if (sql_eq (manager_id NEW) (id NEW))) with true; [done|].
  symmetry. apply sql_if_eq_true. eauto.
Qed.

Lemma check_manager_not_self_passes NEW :
  manager_id NEW = None \/ manager_id NEW <> id NEW ->
  check_manager_not_self NEW = inr NEW.
Proof.
  intros Hne. unfold check_manager_not_self.
  destruct (sql_if (sql_eq (manager_id NEW) (id NEW))) eqn:E; [|done].
  apply sql_if_eq_true in E as (k & Hm & Hid).
  destruct Hne; congruence.
Qed.

Lemma coerce_inr values typed :
  coerce values = inr typed ->
  typed = values /\ salary_in_range (salary values) = inr tt.
Proof.
  unfold coerce. intros Hc. apply bind_inr in Hc as ([] & Hs & Hc).
  by injection Hc as <-.
Qed.

Lemma coerce_fits values :
  salary_in_range (salary values) = inr tt -> coerce values = inr values.
Proof. unfold coerce. by intros ->. Qed.

Lemma find_key_lookup key rows i :
  find_key key rows = Some i ->
  exists OLD, rows !! i = Some OLD /\ id OLD = Some key.
Proof.
  revert i. induction rows as [|r rows IH]; intros i; simpl; [discriminate|].
  case_bool_decide as Hk.
  - intros [= <-]. eauto.
  - destruct (find_key key rows) as [j|]; simpl; [|discriminate].
    intros [= <-]. destruct (IH j eq_refl) as (OLD & ? & ?). eauto.
Qed.

End PgFacts.

Section PgInvariant.
Import Pg.

Lemma unique_key_fresh {A} `{EqDecision A} constraint
    (column : Row -> option A) others NEW v :
  unique_key constraint column others NEW = inr tt ->
  column NEW = Some v -> Some v ∉ column <$> others.
Proof.
  unfold unique_key. intros Hu Hc. rewrite Hc in Hu.
  case_bool_decide; [discriminate | assumption].
Qed.

Lemma check_unique_number others NEW v :
  check_unique others NEW = inr tt ->
  employee_number NEW = Some v -> Some v ∉ employee_number <$> others.
Proof.
  unfold check_unique. intros Hu.
  apply bind_inr in Hu as ([] & _ & Hu).
  apply bind_inr in Hu as ([] & Hn & _).
  by eapply unique_key_fresh.
Qed.

Lemma check_row_number NEW :
  check_row NEW = inr tt -> is_Some (employee_number NEW).
Proof.
  unfold check_row. intros Hc.
  apply bind_inr in Hc as ([] & _ & Hc).
  apply bind_inr in Hc as ([] & _ & Hc).
  apply bind_inr in Hc as ([] & Hn & _).
  destruct (employee_number NEW); [eauto | discriminate].
Qed.

Lemma before_update_number now r r' :
  before_update now r = inr r' -> employee_number r' = employee_number r.
Proof.
  unfold before_update. intros Hb.
  apply bind_inr in Hb as (r1 & Hc & Ht).
  unfold check_manager_not_self in Hc. destruct (sql_if _); [discriminate|].
  injection Hc as <-. by injection Ht as <-.
Qed.

Lemma on_delete_set_null_number env key r r' :
  on_delete_set_null env key r = inr r' ->
  employee_number r' = employee_number r.
Proof.
  unfold on_delete_set_null. case_bool_decide.
  - intros Hb. by apply before_update_number in Hb.
  - by intros [= <-].
Qed.

Lemma map_sum_numbers env key rows rows' :
  map_sum (on_delete_set_null env key) rows = inr rows' ->
  employee_number <$> rows' = employee_number <$> rows.
Proof.
  revert rows'. induction rows as [|r rows IH]; intros rows'; simpl.
  - by intros [= <-].
  - intros Hm. apply bind_inr in Hm as (r' & Hr & Hm).
    apply bind_inr in Hm as (rest & Hrest & Hm). injection Hm as <-.
    simpl. f_equal; [by eapply on_delete_set_null_number | by apply IH].
Qed.

Lemma NoDup_list_insert {A} (l : list A) i x :
  NoDup l -> x ∉ delete i l -> NoDup (<[i:=x]> l).
Proof.
  intros Hl Hx. destruct (l !! i) as [y|] eqn:Hi.
  - rewrite insert_take_drop by (by eapply lookup_lt_Some).
    rewrite delete_take_drop in Hx.
    rewrite <- (take_drop_middle l i y Hi) in Hl.
    apply NoDup_app in Hl as (Ht & Hdisj & Hd).
    apply NoDup_cons in Hd as [_ Hd].
    apply NoDup_app. split; [done|]. split.
    + intros z Hz [->|Hz']%elem_of_cons.
      * apply Hx, elem_of_app. by left.
      * apply (Hdisj z Hz). by right.
    + apply NoDup_cons. split; [|done].
      intros Hin. apply Hx, elem_of_app. by right.
  - apply lookup_ge_None in Hi. by rewrite list_insert_ge.
Qed.

Lemma insert_unique_numbers env values db db' :
  insert env values db = inr db' ->
  NoDup (employee_number <$> employees db) ->
  NoDup (employee_number <$> employees db').
Proof.
  unfold insert. intros Hi Hnd.
  apply bind_inr in Hi as (typed & _ & Hi).
  apply bind_inr in Hi as (NEW & _ & Hi).
  apply bind_inr in Hi as ([] & Hrow & Hi).
  apply bind_inr in Hi as ([] & Huniq & Hi).
  apply bind_inr in Hi as ([] & _ & Hi). injection Hi as <-. simpl.
  destruct (check_row_number _ Hrow) as [v Hv].
  rewrite fmap_app. apply NoDup_app. split; [done|]. split.
  - simpl. intros x Hx ->%list_elem_of_singleton. rewrite Hv in Hx.
    by eapply check_unique_number.
  - simpl. apply NoDup_singleton.
Qed.

Lemma update_unique_numbers env set key db db' :
  update env set key db = inr db' ->
  NoDup (employee_number <$> employees db) ->
  NoDup (employee_number <$> employees db').
Proof.
  unfold update. intros Hu Hnd.
  destruct (find_key key (employees db)) as [i|]; [|by injection Hu as <-].
  destruct (employees db !! i) as [OLD|]; [|by injection Hu as <-].
  apply bind_inr in Hu as (typed & _ & Hu).
  apply bind_inr in Hu as (NEW & _ & Hu).
  apply bind_inr in Hu as ([] & Hrow & Hu).
  apply bind_inr in Hu as ([] & Huniq & Hu).
  apply bind_inr in Hu as ([] & _ & Hu).
  apply bind_inr in Hu as ([] & _ & Hu). injection Hu as <-. simpl.
  destruct (check_row_number _ Hrow) as [v Hv].
  rewrite list_fmap_insert. apply NoDup_list_insert; [done|].
  rewrite <- list_fmap_delete, Hv. by eapply check_unique_number.
Qed.

Lemma delete_unique_numbers env key db db' :
  delete_row env key db = inr db' ->
  NoDup (employee_number <$> employees db) ->
  NoDup (employee_number <$> employees db').
Proof.
  unfold delete_row. intros Hd Hnd.
  apply bind_inr in Hd as (rows & Hrows & Hd). injection Hd as <-. simpl.
  rewrite (map_sum_numbers _ _ _ _ Hrows).
  eapply sublist_NoDup; [exact Hnd | apply fmap_sublist, sublist_filter].
Qed.

Lemma reachable_unique_numbers db :
  reachable db -> NoDup (employee_number <$> employees db).
Proof.
  induction 1 as [users|env stmt db db' _ IH Hexec]; [apply NoDup_nil_2|].
  destruct stmt; simpl in Hexec.
  - by eapply insert_unique_numbers.
  - by eapply update_unique_numbers.
  - by eapply delete_unique_numbers.
Qed.

Lemma reachable_numbers_not_null db r :
  reachable db -> r ∈ employees db -> is_Some (employee_number r).
Proof.
  intros Hreach. revert r.
  induction Hreach as [users|env stmt db db' _ IH Hexec]; intros r Hr.
  { by apply elem_of_nil in Hr. }
  destruct stmt as [values|set key|key]; simpl in Hexec.
  - unfold insert in Hexec.
    apply bind_inr in Hexec as (typed & _ & Hexec).
    apply bind_inr in Hexec as (NEW & _ & Hexec).
    apply bind_inr in Hexec as ([] & Hrow & Hexec).
    repeat (apply bind_inr in Hexec as ([] & _ & Hexec)).
    injection Hexec as <-. simpl in Hr.
    apply elem_of_app in Hr as [Hr| ->%list_elem_of_singleton]; [by apply IH|].
    by apply check_row_number.
  - unfold update in Hexec.
    destruct (find_key key (employees db)) as [i|];
      [|injection Hexec as <-; by apply IH].
    destruct (employees db !! i) as [OLD|] eqn:Hold;
      [|injection Hexec as <-; by apply IH].
    apply bind_inr in Hexec as (typed & _ & Hexec).
    apply bind_inr in Hexec as (NEW & _ & Hexec).
    apply bind_inr in Hexec as ([] & Hrow & Hexec).
    repeat (apply bind_inr in Hexec as ([] & _ & Hexec)).
    injection Hexec as <-. simpl in Hr.
    apply list_elem_of_lookup in Hr as [j Hj].
    destruct (decide (i = j)) as [->|Hne].
    + rewrite list_lookup_insert_eq in Hj by (by eapply lookup_lt_Some).
      injection Hj as <-. by apply check_row_number.
    + rewrite list_lookup_insert_ne in Hj by done.
      apply IH. by eapply list_elem_of_lookup_2.
  - unfold delete_row in Hexec.
    apply bind_inr in Hexec as (rows & Hrows & Hexec). injection Hexec as <-.
    simpl in Hr. apply (list_elem_of_fmap_2 employee_number) in Hr.
    rewrite (map_sum_numbers _ _ _ _ Hrows) in Hr.
    apply list_elem_of_fmap in Hr as (r0 & -> & Hr0).
    apply list_elem_of_filter in Hr0 as [_ Hr0]. by apply IH.
Qed.

End PgInvariant.

Section PgTheorems.
Import Pg.

(** C3, as the code has it. An insert or an update whose values fit the
    types of their columns and whose new row has [manager_id] equal to its
    own [id] makes the trigger raise 'An employee cannot be their own
    manager', and the statement leaves the table as it was; when the salary
    does not fit [DECIMAL(12, 2)] the statement fails with a numeric
    overflow before the trigger fires, and the table is as it was too. A new
    row whose [manager_id] is NULL or differs from its [id] is returned by
    the trigger unchanged. *)
Theorem self_manager_rejected :
  (forall NEW k, id NEW = Some k -> manager_id NEW = Some k ->
     check_manager_not_self NEW
       = inl (RaisedException "An employee cannot be their own manager"))
  /\ (forall env db values k,
       id (apply_defaults env values) = Some k ->
       manager_id (apply_defaults env values) = Some k ->
       run env (Insert values) db
         = (db, Some (if match salary values with
                         | Some c => Z.abs c <? 10 ^ 12
                         | None => true
                         end
                      then RaisedException "An employee cannot be their own manager"
                      else NumericOverflow "salary")))
  /\ (forall env db set key i OLD k,
       find_key key (employees db) = Some i ->
       employees db !! i = Some OLD ->
       id (set OLD) = Some k -> manager_id (set OLD) = Some k ->
       run env (Update set key) db
         = (db, Some (if match salary (set OLD) with
                         | Some c => Z.abs c <? 10 ^ 12
                         | None => true
                         end
                      then RaisedException "An employee cannot be their own manager"
                      else NumericOverflow "salary")))
  /\ (forall NEW, manager_id NEW = None \/ manager_id NEW <> id NEW ->
       check_manager_not_self NEW = inr NEW).
Proof.
  split; [exact check_manager_not_self_raises|]. split; [|split].
  - intros env db values k Hid Hm. unfold run; simpl.
    unfold insert, coerce, before_insert, salary_in_range.
    change (salary (apply_defaults env values)) with (salary values).
    destruct (salary values) as [c|]; [destruct (Z.abs c <? 10 ^ 12)|];
      simpl; try done;
      by rewrite (check_manager_not_self_raises _ k Hid Hm).
  - intros env db set key i OLD k Hfind Hold Hid Hm. unfold run; simpl.
    unfold update. rewrite Hfind, Hold.
    unfold coerce, before_update, salary_in_range.
    destruct (salary (set OLD)) as [c|]; [destruct (Z.abs c <? 10 ^ 12)|];
      simpl; try done;
      by rewrite (check_manager_not_self_raises _ k Hid Hm).
  - exact check_manager_not_self_passes.
Qed.

Lemma self_manager_rejected_witness :
  check_manager_not_self sample_self_managed
    = inl (RaisedException "An employee cannot be their own manager")
  /\ run sample_env (Insert sample_self_managed) sample_db
      = (sample_db, Some (RaisedException "An employee cannot be their own manager"))
  /\ run sample_env (Update (set_manager_id (Some "u1")) "u1") sample_db
      = (sample_db, Some (RaisedException "An employee cannot be their own manager"))
  /\ run sample_env (Insert Fixtures.self_managed_overflow) sample_db
      = (sample_db, Some (NumericOverflow "salary"))
  /\ check_manager_not_self sample_report = inr sample_report.
Proof.
  destruct self_manager_rejected as (H1 & H2 & H3 & H4).
  split; [apply (H1 _ "u3"); reflexivity|].
  split; [apply (H2 sample_env sample_db sample_self_managed "u3"); reflexivity|].
  split; [apply (H3 sample_env sample_db (set_manager_id (Some "u1")) "u1"
                   0%nat sample_manager "u1"); reflexivity|].
  split; [apply (H2 sample_env sample_db Fixtures.self_managed_overflow "u3");
          reflexivity|].
  apply H4. right. discriminate.
Defined.

(** C3, as stated, fails for a new row whose salary does not fit the column:
    the row names itself as its manager, and yet the error is the numeric
    overflow of the salary, raised before the trigger is fired, not the
    exception of the trigger. The row is not written. *)
Lemma overflow_preempts_trigger :
  id Fixtures.self_managed_overflow = manager_id Fixtures.self_managed_overflow
  /\ id Fixtures.self_managed_overflow = Some "u3"
  /\ salary Fixtures.self_managed_overflow = Some (10 ^ 12)
  /\ check_manager_not_self Fixtures.self_managed_overflow
     = inl (RaisedException "An employee cannot be their own manager")
  /\ run sample_env (Insert Fixtures.self_managed_overflow) sample_db
     = (sample_db, Some (NumericOverflow "salary"))
  /\ run sample_env (Update (fun _ => Fixtures.self_managed_overflow) "u1")
       sample_db
     = (sample_db, Some (NumericOverflow "salary"))
  /\ NumericOverflow "salary"
     <> RaisedException "An employee cannot be their own manager".
Proof. repeat split; try reflexivity. discriminate. Qed.

(** C7. On every update of an employee row the timestamp trigger sets
    [updated_at] to the current time and changes no other column: the stored
    row has [updated_at = NOW()] and, in every other column, the value the
    update supplied. *)
Theorem update_touches_only_updated_at :
  (forall now NEW, exists NEW',
     update_updated_at now NEW = inr NEW'
     /\ updated_at NEW' = Some now /\ same_except_updated_at NEW NEW')
  /\ (forall env set key db db' i OLD,
       exec env (Update set key) db = inr db' ->
       find_key key (employees db) = Some i ->
       employees db !! i = Some OLD ->
       exists stored,
         employees db' !! i = Some stored
         /\ updated_at stored = Some (Pg.now env)
         /\ same_except_updated_at (set OLD) stored).
Proof.
  split.
  - intros now NEW. eexists. split; [reflexivity|]. split; [reflexivity|].
    repeat split.
  - intros env set key db db' i OLD Hexec Hfind Hold. simpl in Hexec.
    unfold update in Hexec. rewrite Hfind, Hold in Hexec.
    apply bind_inr in Hexec as (typed & Htyped & Hexec).
    apply coerce_inr in Htyped as [-> _].
    apply bind_inr in Hexec as (NEW & Htrig & Hexec).
    repeat (apply bind_inr in Hexec as (? & _ & Hexec)).
    injection Hexec as <-. simpl.
    unfold before_update in Htrig.
    apply bind_inr in Htrig as (NEW1 & Hcheck & Htouch).
    unfold check_manager_not_self in Hcheck.
    destruct (sql_if _); [discriminate|]. injection Hcheck as <-.
    injection Htouch as <-.
    exists (set_updated_at (Some (Pg.now env)) (set OLD)).
    split; [|split; [reflexivity | repeat split]].
    apply list_lookup_insert_eq. by eapply lookup_lt_Some.
Qed.

Lemma update_touches_only_updated_at_witness :
  exists stored,
    employees (mkDatabase [] [set_updated_at (Some 20) (set_manager_id None sample_manager)])
      !! 0%nat = Some stored
    /\ updated_at stored = Some 20
    /\ same_except_updated_at (set_manager_id None sample_manager) stored.
Proof.
  apply (proj2 update_touches_only_updated_at sample_env (set_manager_id None) "u1"
           sample_db _ 0%nat sample_manager); reflexivity.
Defined.

(** C6, as the code has it. No two employee rows ever share the same
    [employee_number], in any table that statements produce from an empty
    one, and a statement that would store a second row with a number
    already present raises; the rule is the [UNIQUE] constraint of the
    column, not a trigger. *)
Theorem employee_number_unique :
  forall db, reachable db ->
    (forall i j r1 r2,
       employees db !! i = Some r1 -> employees db !! j = Some r2 ->
       employee_number r1 = employee_number r2 -> i = j)
    /\ (forall env values r,
         r ∈ employees db ->
         employee_number r = employee_number values ->
         exists e, exec env (Insert values) db = inl e).
Proof.
  intros db Hreach.
  pose proof (reachable_unique_numbers db Hreach) as Hnd. split.
  - intros i j r1 r2 Hi Hj Heq.
    eapply (proj1 (NoDup_alt _) Hnd i j (employee_number r1));
      rewrite list_lookup_fmap; [by rewrite Hi | by rewrite Hj, Heq].
  - intros env values r Hr Heq.
    destruct (exec env (Insert values) db) as [e|db'] eqn:Hexec; [eauto|].
    exfalso. simpl in Hexec.
    pose proof (insert_unique_numbers _ _ _ _ Hexec Hnd) as Hnd'.
    unfold insert in Hexec.
    apply bind_inr in Hexec as (typed & Htyped & Hexec).
    apply coerce_inr in Htyped as [-> _].
    apply bind_inr in Hexec as (NEW & Htrig & Hexec).
    repeat (apply bind_inr in Hexec as ([] & _ & Hexec)).
    injection Hexec as <-. simpl in Hnd'.
    unfold before_insert, check_manager_not_self in Htrig.
    destruct (sql_if _); [discriminate|]. injection Htrig as <-.
    rewrite fmap_app in Hnd'. apply NoDup_app in Hnd' as (_ & Hdisj & _).
    apply (Hdisj (employee_number r)).
    + by apply list_elem_of_fmap_2.
    + simpl. rewrite Heq. apply list_elem_of_singleton. reflexivity.
Qed.

Lemma employee_number_unique_witness :
  (forall i j r1 r2,
     employees sample_db !! i = Some r1 -> employees sample_db !! j = Some r2 ->
     employee_number r1 = employee_number r2 -> i = j)
  /\ exists e, exec sample_env (Insert sample_duplicate_number) sample_db = inl e.
Proof.
  assert (reachable sample_db) as Hreach.
  { apply (reachable_exec (mkEnv 10 "u1") (Insert sample_manager) (mkDatabase [] []));
      [apply reachable_empty | reflexivity]. }
  destruct (employee_number_unique sample_db Hreach) as [H1 H2].
  split; [exact H1|].
  apply (H2 sample_env sample_duplicate_number sample_manager); [|reflexivity].
  apply list_elem_of_singleton. reflexivity.
Defined.

(** C6, as stated, fails on its second half: the row triggers let a new row
    through whose [employee_number] another row already has, on insert and
    on update alike; what rejects it is the unique index of the column. *)
Lemma triggers_pass_duplicate_number :
  sample_manager ∈ employees sample_db
  /\ employee_number sample_duplicate_number = employee_number sample_manager
  /\ before_insert (apply_defaults sample_env sample_duplicate_number)
      = inr (apply_defaults sample_env sample_duplicate_number)
  /\ before_update 20 sample_duplicate_number
      = inr (set_updated_at (Some 20) sample_duplicate_number)
  /\ exec sample_env (Insert sample_duplicate_number) sample_db
      = inl (UniqueViolation "employees_employee_number_key").
Proof.
  split; [apply list_elem_of_singleton; reflexivity|].
  repeat split; reflexivity.
Qed.

(** A row that is stored cannot be inserted a second time: the replay of a
    create that the store has already applied violates the primary key. *)
Example replayed_insert_rejected :
  exec sample_env (Insert sample_report) sample_db
    = inr (mkDatabase [] [sample_manager; apply_defaults sample_env sample_report])
  /\ exec sample_env (Insert sample_report)
       (mkDatabase [] [sample_manager; apply_defaults sample_env sample_report])
     = inl (UniqueViolation "employees_pkey").
Proof. split; reflexivity. Qed.

End PgTheorems.

(** ** The pending-operation queue and the sync engine *)

Section ClientFacts.
Import Client.
Context `{P : Platform} `{B : !Backend}.

Ltac world_cases :=
  repeat (simpl;
    match goal with
    | |- context [send ?r ?q] => destruct (send r q) as [? ?]
    | |- context [match error ?r with _ => _ end] => destruct (error r)
    | |- context [if ?b then _ else _] => destruct b
    end).

Lemma supabase_log req w :
  log (supabase req w).1 = log w ++ [(req, (supabase req w).2)].
Proof. unfold supabase. destruct (send (remote w) req). reflexivity. Qed.

Lemma supabase_frame req w :
  cache (supabase req w).1 = cache w
  /\ pending (supabase req w).1 = pending w
  /\ pendingCount (supabase req w).1 = pendingCount w
  /\ isOnline (supabase req w).1 = isOnline w.
Proof. unfold supabase. destruct (send (remote w) req). done. Qed.

Lemma fetchEmployees_frame w :
  pending (fetchEmployees w) = pending w
  /\ pendingCount (fetchEmployees w) = pendingCount w
  /\ isOnline (fetchEmployees w) = isOnline w.
Proof. unfold fetchEmployees, supabase. world_cases; done. Qed.

Lemma fetchEmployees_offline w :
  isOnline w = false ->
  cache (fetchEmployees w) = cache w
  /\ log (fetchEmployees w) = log w
  /\ remote (fetchEmployees w) = remote w.
Proof.
  intros Hoff. unfold fetchEmployees.
  destruct (0 <? length (getFromCache (setLoading true w)))%nat; simpl;
    rewrite Hoff; world_cases; done.
Qed.

Lemma fetchEmployees_log w :
  exists rest,
    log (fetchEmployees w) = log w ++ rest
    /\ forall x, x ∈ rest -> exists columns column, x.1 = select_order columns column.
Proof.
  unfold fetchEmployees.
  destruct (0 <? length (getFromCache (setLoading true w)))%nat; simpl;
    (destruct (isOnline w);
     [ pose proof (supabase_log (select_order employees_with_manager "employee_number")) as Hlog;
       unfold supabase in *; simpl in *;
       match goal with |- context [send ?r ?q] =>
         destruct (send r q) as [r' resp] eqn:Hsend end;
       exists [(select_order employees_with_manager "employee_number", resp)];
       split; [ world_cases; reflexivity
              | intros x ->%list_elem_of_singleton; simpl; eauto ]
     | exists []; split; [ world_cases; by rewrite app_nil_r
                         | intros x Hx; by apply elem_of_nil in Hx ] ]).
Qed.

Lemma replay_spec ops w :
  exists ex,
    log (replay ops w).1 = log w ++ ex
    /\ pending (replay ops w).1 = pending w
    /\ pendingCount (replay ops w).1 = pendingCount w
    /\ cache (replay ops w).1 = cache w
    /\ isOnline (replay ops w).1 = isOnline w
    /\ (forall i x, ex !! i = Some x -> (S i < length ex)%nat -> error x.2 = None)
    /\ match (replay ops w).2 with
       | None =>
           fst <$> ex = replay_request <$> ops
           /\ forall x, x ∈ ex -> error x.2 = None
       | Some op =>
           exists n, ops !! n = Some op
             /\ fst <$> ex = replay_request <$> take (S n) ops
             /\ exists x, last ex = Some x /\ is_Some (error x.2)
       end.
Proof.
  revert w. induction ops as [|op rest IH]; intros w; simpl.
  { exists []. rewrite app_nil_r. repeat split; try done.
    intros x Hx. by apply elem_of_nil in Hx. }
  pose proof (supabase_log (replay_request op) w) as Hlog.
  pose proof (supabase_frame (replay_request op) w) as (Hc & Hp & Hn & Ho).
  destruct (supabase (replay_request op) w) as [w1 resp]. simpl in *.
  destruct (error resp) as [message|] eqn:Herr; simpl.
  - exists [(replay_request op, resp)]. repeat split; try done.
    + intros i x Hi Hlt. simpl in Hlt. lia.
    + exists 0%nat. split; [done|]. split; [by rewrite take_0|].
      exists (replay_request op, resp). simpl. rewrite Herr. eauto.
  - destruct (IH w1) as (ex & Hlog' & Hp' & Hn' & Hc' & Ho' & Hbefore & Hres).
    exists ((replay_request op, resp) :: ex).
    split; [rewrite Hlog', Hlog, <- app_assoc; reflexivity|].
    split; [congruence|]. split; [congruence|]. split; [congruence|].
    split; [congruence|]. split.
    + intros [|i] x Hi Hlt; simpl in *.
      * by injection Hi as <-.
      * apply (Hbefore i x Hi). lia.
    + destruct (replay rest w1).2 as [failed|].
      * destruct Hres as (n & Hn1 & Hmap & x & Hlast & Hx).
        exists (S n). split; [done|].
        split; [change (take (S (S n)) (op :: rest)) with (op :: take (S n) rest);
                by rewrite !fmap_cons, Hmap|].
        exists x. split; [|done].
        destruct ex as [|y ex]; [discriminate|]. exact Hlast.
      * destruct Hres as [Hmap Hall]. split; [by rewrite !fmap_cons, Hmap|].
        intros x [->|Hx]%elem_of_cons; [done | by apply Hall].
Qed.

(** What one run of [syncPendingOperations] does: it replays a prefix of the
    queue, in order; either the whole queue went through and the queue is
    cleared, or the last replay failed, nothing was sent after it and the
    queue is as before. *)
Lemma syncPendingOperations_spec w :
  exists n ex rest,
    (n <= length (getPendingOperations w))%nat
    /\ log (syncPendingOperations w) = log w ++ ex ++ rest
    /\ fst <$> ex = replay_request <$> take n (getPendingOperations w)
    /\ (forall i x, ex !! i = Some x -> (S i < length ex)%nat -> error x.2 = None)
    /\ (forall x, x ∈ rest -> exists columns column, x.1 = select_order columns column)
    /\ (pendingCount w = length (getPendingOperations w) ->
        pendingCount (syncPendingOperations w)
          = length (getPendingOperations (syncPendingOperations w)))
    /\ ((n = length (getPendingOperations w)
         /\ (forall x, x ∈ ex -> error x.2 = None)
         /\ pending (syncPendingOperations w) = pending_clear (pending w))
        \/ ((exists x, last ex = Some x /\ is_Some (error x.2))
            /\ rest = []
            /\ pending (syncPendingOperations w) = pending w)).
Proof.
  unfold syncPendingOperations.
  change (getPendingOperations (setSyncing true w)) with (getPendingOperations w).
  destruct (getPendingOperations w) as [|op ops] eqn:Hops.
  { (* nothing queued: the store is already empty *)
    exists 0%nat, [], []. simpl. rewrite app_nil_r.
    repeat split; try done.
    - intros x Hx. by apply elem_of_nil in Hx.
    - unfold getPendingOperations. simpl. unfold getPendingOperations in Hops.
      by rewrite Hops.
    - left. repeat split.
      + intros x Hx. by apply elem_of_nil in Hx.
      + unfold getPendingOperations, pending_getAll in Hops.
        apply fmap_nil_inv in Hops. unfold pending_clear.
        destruct (pending w) as [k rs]; simpl in *. by rewrite Hops. }
  cbn -[replay fetchEmployees pretty String.app].
  set (w0 := toast _ (setSyncing true w)).
  destruct (replay_spec (op :: ops) w0)
    as (ex & Hlog & Hp & Hn & _ & _ & Hbefore & Hres).
  destruct (replay (op :: ops) w0) as [w1 failed]. simpl in *.
  destruct failed as [failedop|].
  - destruct Hres as (n & Hlook & Hmap & Hlast).
    exists (S n), ex, []. rewrite app_nil_r. simpl.
    split; [apply lookup_lt_Some in Hlook; simpl in Hlook; lia|].
    split; [done|]. split; [done|]. split; [done|].
    split; [intros x Hx; by apply elem_of_nil in Hx|].
    split.
    { intros Hinv. unfold getPendingOperations. simpl.
      rewrite Hn, Hp. simpl. unfold getPendingOperations in Hops.
      by rewrite Hinv, Hops. }
    right. done.
  - destruct Hres as [Hmap Hall].
    match goal with |- context [fetchEmployees ?w] => set (w2 := w) end.
    destruct (fetchEmployees_log w2) as (rest & Hfetch & Hsel).
    destruct (fetchEmployees_frame w2) as (Hfp & Hfn & _).
    exists (S (length ops)), ex, rest.
    split; [done|]. split; [by rewrite Hfetch; simpl; rewrite Hlog, <- app_assoc|].
    split.
    { change (take (S (length ops)) (op :: ops)) with (op :: take (length ops) ops).
      rewrite firstn_all. exact Hmap. }
    split; [done|]. split; [done|].
    split; [intros _; unfold getPendingOperations; by rewrite Hfn, Hfp|].
    left. split; [done|]. split; [done|]. rewrite Hfp. simpl. by rewrite Hp.
Qed.

(** In every state the application reaches, [pendingCount] is the length
    of the queue. *)
Lemma handleDialogClose_counted shouldRefresh w :
  pendingCount w = length (getPendingOperations w) ->
  pendingCount (handleDialogClose shouldRefresh w)
    = length (getPendingOperations (handleDialogClose shouldRefresh w)).
Proof.
  intros Hinv. unfold handleDialogClose. destruct shouldRefresh; [|exact Hinv].
  match goal with |- context [fetchEmployees ?w] =>
    destruct (fetchEmployees_frame w) as (Hp & Hn & _) end.
  unfold getPendingOperations. rewrite Hn, Hp. reflexivity.
Qed.

Lemma handleDialogClose_true_counted w :
  pendingCount (handleDialogClose true w)
    = length (getPendingOperations (handleDialogClose true w)).
Proof.
  unfold handleDialogClose.
  match goal with |- context [fetchEmployees ?w] =>
    destruct (fetchEmployees_frame w) as (Hp & Hn & _) end.
  unfold getPendingOperations. rewrite Hn, Hp. reflexivity.
Qed.

Lemma handleSubmit_counted formData uuid now w :
  pendingCount w = length (getPendingOperations w) ->
  pendingCount (handleSubmit formData uuid now w)
    = length (getPendingOperations (handleSubmit formData uuid now w)).
Proof.
  intros Hinv. unfold handleSubmit.
  destruct (employeeSchema _ _); [|exact Hinv].
  change (pendingCount (setSaving false ?x)) with (pendingCount x).
  change (getPendingOperations (setSaving false ?x)) with (getPendingOperations x).
  change (isOnline (setSaving true w)) with (isOnline w).
  change (selectedEmployee (setSaving true w)) with (selectedEmployee w).
  destruct (selectedEmployee w) as [employee|]; destruct (isOnline w);
    try apply handleDialogClose_true_counted.
  - pose proof (supabase_frame
      (update_eq_id (data_values (dataToSubmit formData)) (id employee))
      (setSaving true w)) as (_ & Hp & Hn & _).
    destruct (supabase _ _) as [w1 resp]. simpl in Hp, Hn.
    destruct (error resp); [|apply handleDialogClose_true_counted].
    destruct (Js.includes _ _); unfold getPendingOperations; simpl;
      by rewrite Hn, Hp.
  - pose proof (supabase_frame (insert (data_values (dataToSubmit formData)))
      (setSaving true w)) as (_ & Hp & Hn & _).
    destruct (supabase _ _) as [w1 resp]. simpl in Hp, Hn.
    destruct (error resp); [|apply handleDialogClose_true_counted].
    repeat destruct (Js.includes _ _); unfold getPendingOperations; simpl;
      by rewrite Hn, Hp.
Qed.

Lemma handleDelete_counted k confirmed now w :
  pendingCount w = length (getPendingOperations w) ->
  pendingCount (handleDelete k confirmed now w)
    = length (getPendingOperations (handleDelete k confirmed now w)).
Proof.
  intros Hinv. unfold handleDelete.
  destruct confirmed; [|exact Hinv]. simpl negb. cbv iota.
  destruct (List.find _ _) as [employee|]; [|exact Hinv].
  destruct (isOnline w).
  - pose proof (supabase_frame (delete_eq_id k) w) as (_ & Hp & Hn & _).
    destruct (supabase _ _) as [w1 resp]. simpl in Hp, Hn.
    destruct (error resp).
    + unfold getPendingOperations; simpl. by rewrite Hn, Hp.
    + match goal with |- context [fetchEmployees ?w] =>
        destruct (fetchEmployees_frame w) as (Hfp & Hfn & _) end.
      unfold getPendingOperations. rewrite Hfn, Hfp. simpl. by rewrite Hn, Hp.
  - match goal with |- context [fetchEmployees ?w] =>
      destruct (fetchEmployees_frame w) as (Hfp & Hfn & _) end.
    unfold getPendingOperations. rewrite Hfn, Hfp. reflexivity.
Qed.

Lemma reachable_counted w :
  reachable w -> pendingCount w = length (getPendingOperations w).
Proof.
  induction 1 as [r c p online|ev w _ IH].
  - unfold mount, checkPendingOperations. reflexivity.
  - destruct ev; cbn [handle].
    + unfold handleOnline. destruct (isOnline w); [exact IH|].
      unfold reconnect_effect.
      destruct (isOnline _ && _); [|exact IH].
      destruct (syncPendingOperations_spec (setIsOnline true w))
        as (n & ex & rest & _ & _ & _ & _ & _ & Hcount & _).
      apply Hcount. exact IH.
    + exact IH.
    + unfold openDialog, fetchManagers.
      match goal with |- context [supabase ?q ?w] =>
        destruct (supabase_frame q w) as (_ & Hp & Hn & _) end.
      unfold getPendingOperations. rewrite Hn, Hp. exact IH.
    + unfold openDialog, fetchManagers.
      match goal with |- context [supabase ?q ?w] =>
        destruct (supabase_frame q w) as (_ & Hp & Hn & _) end.
      unfold getPendingOperations. rewrite Hn, Hp. exact IH.
    + by apply handleDialogClose_counted.
    + by apply handleSubmit_counted.
    + by apply handleDelete_counted.
Qed.

Lemma handleDialogClose_offline w :
  isOnline w = false ->
  cache (handleDialogClose true w) = cache w
  /\ pending (handleDialogClose true w) = pending w
  /\ log (handleDialogClose true w) = log w
  /\ remote (handleDialogClose true w) = remote w.
Proof.
  intros Hoff. unfold handleDialogClose.
  match goal with |- context [fetchEmployees ?w] =>
    destruct (fetchEmployees_offline w Hoff) as (Hc & Hl & Hr);
    destruct (fetchEmployees_frame w) as (Hp & _ & _) end.
  rewrite Hc, Hp, Hl, Hr. done.
Qed.

Lemma replay_request_not_select op columns column :
  replay_request op <> select_order columns column.
Proof. unfold replay_request. destruct (operation op); discriminate. Qed.

(** A failed replay in the log of a run means the run ended on a failure. *)
Lemma failed_replay_ends_run w op resp :
  (replay_request op, resp)
    ∈ drop (length (log w)) (log (syncPendingOperations w)) ->
  is_Some (error resp) ->
  exists n ex,
    (1 <= n <= length (getPendingOperations w))%nat
    /\ log (syncPendingOperations w) = log w ++ ex
    /\ fst <$> ex = replay_request <$> take n (getPendingOperations w)
    /\ (exists x, last ex = Some x /\ is_Some (error x.2))
    /\ pending (syncPendingOperations w) = pending w.
Proof.
  intros Hin Herr.
  destruct (syncPendingOperations_spec w)
    as (n & ex & rest & Hn & Hlog & Hmap & _ & Hsel & _ & Hcases).
  rewrite Hlog, drop_app_length in Hin.
  destruct Hcases as [(_ & Hall & _)|(Hlast & -> & Hp)].
  - exfalso. apply elem_of_app in Hin as [Hin|Hin].
    + apply Hall in Hin. simpl in Hin. rewrite Hin in Herr.
      by apply is_Some_None in Herr.
    + destruct (Hsel _ Hin) as (columns & column & Heq).
      by apply replay_request_not_select in Heq.
  - exists n, ex. rewrite app_nil_r in Hlog. repeat split; try done.
    destruct Hlast as (x & Hlast & _).
    assert (length ex = n) as Hlen.
    { rewrite <- (length_fmap fst ex), Hmap, length_fmap, length_take. lia. }
    destruct ex; [discriminate|]. simpl in Hlen. lia.
Qed.

Lemma handleDialogClose_pending shouldRefresh w :
  pending (handleDialogClose shouldRefresh w) = pending w.
Proof.
  unfold handleDialogClose. destruct shouldRefresh; [|reflexivity].
  match goal with |- context [fetchEmployees ?w] =>
    destruct (fetchEmployees_frame w) as (Hp & _ & _) end.
  by rewrite Hp.
Qed.

Lemma handleSubmit_pending formData uuid now w :
  pending (handleSubmit formData uuid now w) = pending w
  \/ exists x, pending (handleSubmit formData uuid now w) = pending_add x (pending w).
Proof.
  unfold handleSubmit. destruct (employeeSchema _ _); [|by left].
  change (pending (setSaving false ?x)) with (pending x).
  change (isOnline (setSaving true w)) with (isOnline w).
  change (selectedEmployee (setSaving true w)) with (selectedEmployee w).
  destruct (selectedEmployee w) as [employee|]; destruct (isOnline w);
    rewrite ?handleDialogClose_pending; try (right; eexists; reflexivity).
  - pose proof (supabase_frame
      (update_eq_id (data_values (dataToSubmit formData)) (id employee))
      (setSaving true w)) as (_ & Hp & _ & _).
    destruct (supabase _ _) as [w1 resp]. simpl in Hp. left.
    destruct (error resp); [|by rewrite handleDialogClose_pending].
    by destruct (Js.includes _ _).
  - pose proof (supabase_frame (insert (data_values (dataToSubmit formData)))
      (setSaving true w)) as (_ & Hp & _ & _).
    destruct (supabase _ _) as [w1 resp]. simpl in Hp. left.
    destruct (error resp); [|by rewrite handleDialogClose_pending].
    by repeat destruct (Js.includes _ _).
Qed.

Lemma handleDelete_pending k confirmed now w :
  pending (handleDelete k confirmed now w) = pending w
  \/ exists x, pending (handleDelete k confirmed now w) = pending_add x (pending w).
Proof.
  unfold handleDelete. destruct confirmed; [|by left]. simpl negb. cbv iota.
  destruct (List.find _ _) as [employee|]; [|by left].
  destruct (isOnline w).
  - pose proof (supabase_frame (delete_eq_id k) w) as (_ & Hp & _ & _).
    destruct (supabase _ _) as [w1 resp]. simpl in Hp. left.
    destruct (error resp); [done|].
    match goal with |- context [fetchEmployees ?w] =>
      destruct (fetchEmployees_frame w) as (Hfp & _ & _) end.
    by rewrite Hfp.
  - right.
    match goal with |- context [fetchEmployees ?w] =>
      destruct (fetchEmployees_frame w) as (Hfp & _ & _) end.
    rewrite Hfp. eexists. reflexivity.
Qed.

Lemma pending_add_prefix x s :
  pending_getAll s `prefix_of` pending_getAll (pending_add x s).
Proof.
  unfold pending_getAll, pending_add. simpl. rewrite fmap_app.
  by apply prefix_app_r.
Qed.

(** Every event changes the queue by calls of [add] and [clear] only. *)
Lemma handle_queue_calls ev w :
  exists calls, pending (handle ev w) = foldl queue_call (pending w) calls.
Proof.
  assert (forall s x, exists calls, pending_add x s = foldl queue_call s calls)
    as Hadd.
  { intros s [op e now]. by exists [add_call op e now]. }
  destruct ev; cbn [handle].
  - unfold handleOnline. destruct (isOnline w); [by exists []|].
    unfold reconnect_effect. destruct (isOnline _ && _); [|by exists []].
    destruct (syncPendingOperations_spec (setIsOnline true w))
      as (n & ex & rest & _ & _ & _ & _ & _ & _ & Hcases).
    destruct Hcases as [(_ & _ & ->)|(_ & _ & ->)];
      [by exists [clear_call] | by exists []].
  - by exists [].
  - exists []. unfold openDialog, fetchManagers.
    match goal with |- context [supabase ?q ?w] =>
      destruct (supabase_frame q w) as (_ & Hp & _ & _) end.
    by rewrite Hp.
  - exists []. unfold openDialog, fetchManagers.
    match goal with |- context [supabase ?q ?w] =>
      destruct (supabase_frame q w) as (_ & Hp & _ & _) end.
    by rewrite Hp.
  - exists []. by rewrite handleDialogClose_pending.
  - destruct (handleSubmit_pending formData uuid now w) as [->|[x ->]];
      [by exists [] | apply Hadd].
  - destruct (handleDelete_pending k confirmed now w) as [->|[x ->]];
      [by exists [] | apply Hadd].
Qed.

Lemma handleDialogClose_signal w :
  isOnline (handleDialogClose true w) = isOnline w.
Proof.
  unfold handleDialogClose.
  match goal with |- context [fetchEmployees ?w] =>
    destruct (fetchEmployees_frame w) as (_ & _ & Ho) end.
  by rewrite Ho.
Qed.

(** The reconnect, stated on the records of the store: with the counter in
    step with the store, an [online] event that follows an offline spell
    replays the records from the first one on. *)
Lemma reconnect_spec w :
  isOnline w = false ->
  pendingCount w = length (records (pending w)) ->
  exists n ex rest,
    (n <= length (records (pending w)))%nat
    /\ log (handle online_event w) = log w ++ ex ++ rest
    /\ fst <$> ex = replay_request <$> take n (snd <$> records (pending w))
    /\ (forall i x, ex !! i = Some x -> (S i < length ex)%nat -> error x.2 = None)
    /\ (forall x, x ∈ rest -> exists columns column, x.1 = select_order columns column)
    /\ ((n = length (records (pending w))
         /\ forall x, x ∈ ex -> error x.2 = None)
        \/ ((exists x, last ex = Some x /\ is_Some (error x.2))
            /\ rest = [])).
Proof.
  intros Hoff Hcount.
  cbn [handle]. unfold handleOnline. rewrite Hoff. unfold reconnect_effect.
  change (isOnline (setIsOnline true w)) with true.
  change (pendingCount (setIsOnline true w)) with (pendingCount w).
  cbn [andb].
  destruct (0 <? pendingCount w)%nat eqn:Hpos.
  - destruct (syncPendingOperations_spec (setIsOnline true w))
      as (n & ex & rest & Hn & Hlog & Hmap & Hbefore & Hsel & _ & Hcases).
    change (getPendingOperations (setIsOnline true w))
      with (snd <$> records (pending w)) in *.
    rewrite length_fmap in Hn, Hcases.
    exists n, ex, rest. repeat split; try done.
    destruct Hcases as [(? & ? & _)|(? & ? & _)]; [left|right]; done.
  - apply Nat.ltb_ge in Hpos.
    assert (records (pending w) = []) as Hempty.
    { apply length_zero_iff_nil. lia. }
    exists 0%nat, [], []. rewrite Hempty. simpl. rewrite app_nil_r.
    repeat split; try done; try (intros x Hx; by apply elem_of_nil in Hx).
    left. split; [done|]. intros x Hx. by apply elem_of_nil in Hx.
Qed.

(** With a record in the store, the reconnect sends at least the replay of
    the first record. *)
Lemma queued_awaits_replay w :
  isOnline w = false ->
  pendingCount w = length (records (pending w)) ->
  records (pending w) <> [] ->
  exists n ex rest,
    (1 <= n <= length (records (pending w)))%nat
    /\ log (handle online_event w) = log w ++ ex ++ rest
    /\ fst <$> ex = replay_request <$> take n (snd <$> records (pending w))
    /\ (forall i x, ex !! i = Some x -> (S i < length ex)%nat -> error x.2 = None)
    /\ (n = length (records (pending w))
        \/ exists x, last ex = Some x /\ is_Some (error x.2)).
Proof.
  intros Hoff Hcount Hne.
  destruct (reconnect_spec w Hoff Hcount)
    as (n & ex & rest & Hn & Hlog & Hmap & Hbefore & _ & Hcases).
  exists n, ex, rest.
  assert (length ex = n) as Hlen.
  { rewrite <- (length_fmap fst ex), Hmap, !length_fmap, length_take,
      length_fmap. lia. }
  split.
  { destruct Hcases as [(-> & _)|((x & Hlast & _) & _)].
    - destruct (records (pending w)); [done|]. simpl. lia.
    - destruct ex; [discriminate|]. simpl in Hlen. lia. }
  repeat split; try done.
  destruct Hcases as [(? & _)|(? & _)]; [by left | by right].
Qed.

End ClientFacts.

Section ClientTheorems.
Import Client.
Context `{P : Platform} `{B : !Backend}.

(** C1. When connectivity returns, the sync engine replays the records of
    the queue store against the remote store one after the other in the
    order of the store: an insert for 'create', an update by id for
    'update', a delete by id for 'delete'. Every replay before the last one
    sent has succeeded; either every record of the store was replayed, or
    the last replay sent has failed and nothing was sent after it. *)
Theorem reconnect_replays_queue_in_order w :
  reachable w -> isOnline w = false ->
  exists n exchanges rest,
    (n <= length (records (pending w)))%nat
    /\ log (handle online_event w) = log w ++ exchanges ++ rest
    /\ fst <$> exchanges
        = replay_request <$> take n (snd <$> records (pending w))
    /\ (forall op,
         replay_request op =
           match operation op with
           | create => insert (employee_values (employee op))
           | update => update_eq_id (employee_values (employee op)) (id (employee op))
           | delete => delete_eq_id (id (employee op))
           end)
    /\ (forall i x, exchanges !! i = Some x ->
         (S i < length exchanges)%nat -> error x.2 = None)
    /\ (forall x, x ∈ rest -> exists columns column, x.1 = select_order columns column)
    /\ ((n = length (records (pending w))
         /\ forall x, x ∈ exchanges -> error x.2 = None)
        \/ ((exists x, last exchanges = Some x /\ is_Some (error x.2))
            /\ rest = [])).
Proof.
  intros Hreach Hoff. pose proof (reachable_counted w Hreach) as Hcount.
  unfold getPendingOperations, pending_getAll in Hcount.
  rewrite length_fmap in Hcount.
  destruct (reconnect_spec w Hoff Hcount)
    as (n & ex & rest & Hn & Hlog & Hmap & Hbefore & Hsel & Hcases).
  exists n, ex, rest. repeat split; done.
Qed.

(** C2. The queue is cleared only after every queued operation has been
    replayed successfully: a sync run in which the replay of some queued
    operation fails leaves the queue exactly as it was, and a run leaves the
    queue as it was unless every operation was replayed without an error, in
    which case it empties it. *)
Theorem failed_sync_keeps_queue w :
  (forall op resp,
     op ∈ getPendingOperations w ->
     (replay_request op, resp)
       ∈ drop (length (log w)) (log (syncPendingOperations w)) ->
     is_Some (error resp) ->
     pending (syncPendingOperations w) = pending w)
  /\ (pending (syncPendingOperations w) = pending w
      \/ (getPendingOperations (syncPendingOperations w) = []
          /\ exists exchanges rest,
               log (syncPendingOperations w) = log w ++ exchanges ++ rest
               /\ fst <$> exchanges = replay_request <$> getPendingOperations w
               /\ forall x, x ∈ exchanges -> error x.2 = None)).
Proof.
  split.
  - intros op resp _ Hin Herr.
    by destruct (failed_replay_ends_run w op resp Hin Herr)
      as (n & ex & _ & _ & _ & _ & Hp).
  - destruct (syncPendingOperations_spec w)
      as (n & ex & rest & Hn & Hlog & Hmap & _ & _ & _ & Hcases).
    destruct Hcases as [(-> & Hall & Hp)|(_ & _ & Hp)]; [right|by left].
    split; [unfold getPendingOperations; by rewrite Hp|].
    exists ex, rest. rewrite firstn_all in Hmap. done.
Qed.

(** C9, as the code has it. A sync run whose k-th replay fails removes
    nothing from the queue, so the k-1 operations already applied to the
    remote store stay queued; the next run starts again from the head of
    the queue and resubmits the operations in order, up to and including the
    first one that fails in that run, or all of them when none fails. The
    only event that removes queue entries is a reconnect whose sync run
    replayed every operation successfully, and it removes them all. *)
Theorem failed_sync_restarts_from_head w :
  (forall op resp,
     op ∈ getPendingOperations w ->
     (replay_request op, resp)
       ∈ drop (length (log w)) (log (syncPendingOperations w)) ->
     is_Some (error resp) ->
     getPendingOperations (syncPendingOperations w) = getPendingOperations w
     /\ exists n exchanges rest,
          (1 <= n <= length (getPendingOperations w))%nat
          /\ log (syncPendingOperations (syncPendingOperations w))
              = log (syncPendingOperations w) ++ exchanges ++ rest
          /\ fst <$> exchanges = replay_request <$> take n (getPendingOperations w)
          /\ (forall i x, exchanges !! i = Some x ->
               (S i < length exchanges)%nat -> error x.2 = None)
          /\ (n = length (getPendingOperations w)
              \/ exists x, last exchanges = Some x /\ is_Some (error x.2)))
  /\ (forall ev,
       getPendingOperations w `prefix_of` getPendingOperations (handle ev w)
       \/ (ev = online_event
           /\ getPendingOperations (handle ev w) = []
           /\ exists exchanges rest,
                log (handle ev w) = log w ++ exchanges ++ rest
                /\ fst <$> exchanges = replay_request <$> getPendingOperations w
                /\ forall x, x ∈ exchanges -> error x.2 = None)).
Proof.
  split.
  - intros op resp _ Hin Herr.
    destruct (failed_replay_ends_run w op resp Hin Herr)
      as (k & ex1 & Hk & _ & _ & _ & Hp).
    assert (getPendingOperations (syncPendingOperations w) = getPendingOperations w)
      as Hsame by (unfold getPendingOperations; by rewrite Hp).
    split; [exact Hsame|].
    destruct (syncPendingOperations_spec (syncPendingOperations w))
      as (n & ex & rest & Hn & Hlog & Hmap & Hbefore & _ & _ & Hcases).
    rewrite Hsame in Hn, Hmap, Hcases.
    exists n, ex, rest.
    assert (length ex = n) as Hlen.
    { rewrite <- (length_fmap fst ex), Hmap, length_fmap, length_take. lia. }
    split.
    { destruct Hcases as [(-> & _)|((x & Hlast & _) & _)]; [lia|].
      destruct ex; [discriminate|]. simpl in Hlen. lia. }
    repeat split; try done.
    destruct Hcases as [(? & _)|(? & _)]; [by left | by right].
  - intros ev. destruct ev; cbn [handle].
    + unfold handleOnline. destruct (isOnline w); [by left|].
      unfold reconnect_effect. destruct (isOnline _ && _); [|by left].
      destruct (syncPendingOperations_spec (setIsOnline true w))
        as (n & ex & rest & Hn & Hlog & Hmap & _ & _ & _ & Hcases).
      change (getPendingOperations (setIsOnline true w))
        with (getPendingOperations w) in *.
      change (pending (setIsOnline true w)) with (pending w) in *.
      change (log (setIsOnline true w)) with (log w) in *.
      destruct Hcases as [(-> & Hall & Hp)|(_ & _ & Hp)].
      * right. split; [done|].
        split; [unfold getPendingOperations; by rewrite Hp|].
        exists ex, rest. rewrite firstn_all in Hmap. done.
      * left. unfold getPendingOperations. by rewrite Hp.
    + by left.
    + left. unfold openDialog, fetchManagers.
      match goal with |- context [supabase ?q ?w] =>
        destruct (supabase_frame q w) as (_ & Hp & _ & _) end.
      unfold getPendingOperations. by rewrite Hp.
    + left. unfold openDialog, fetchManagers.
      match goal with |- context [supabase ?q ?w] =>
        destruct (supabase_frame q w) as (_ & Hp & _ & _) end.
      unfold getPendingOperations. by rewrite Hp.
    + left. unfold getPendingOperations. by rewrite handleDialogClose_pending.
    + left. unfold getPendingOperations.
      destruct (handleSubmit_pending formData uuid now w) as [->|[x ->]];
        [done | apply pending_add_prefix].
    + left. unfold getPendingOperations.
      destruct (handleDelete_pending k confirmed now w) as [->|[x ->]];
        [done | apply pending_add_prefix].
Qed.

(** C4. A record of the queue holds an operation, a payload and a timestamp:
    [addPendingOperation] appends the record made of the operation it is
    given, the employee it is given and the time of the call, and every
    record of a queue built by the calls of the application has an
    operation among 'create', 'update' and 'delete' and was enqueued by a
    call for that operation, that employee and that time; the events of the
    application change the queue through such calls only. *)
Theorem pending_records_shape :
  (forall op e now w,
     getPendingOperations (addPendingOperation op e now w)
       = getPendingOperations w ++ [mkPendingOperation op e now])
  /\ (forall calls r,
       r ∈ pending_getAll (foldl queue_call pending_empty calls) ->
       operation_name (operation r) ∈ ["create"; "update"; "delete"]
       /\ add_call (operation r) (employee r) (timestamp r) ∈ calls)
  /\ (forall ev w, exists calls,
       pending (handle ev w) = foldl queue_call (pending w) calls).
Proof.
  split; [|split; [|intros ev w; apply handle_queue_calls]].
  - intros op e now w. unfold getPendingOperations, addPendingOperation,
      pending_getAll, pending_add. simpl. by rewrite fmap_app.
  - intros calls. induction calls as [|c calls IH] using rev_ind.
    { intros r Hr. by apply elem_of_nil in Hr. }
    intros r Hr.
    rewrite foldl_app in Hr. simpl in Hr. destruct c as [op e now|].
    + unfold pending_getAll, pending_add in Hr. simpl in Hr.
      rewrite fmap_app in Hr.
      apply elem_of_app in Hr as [Hr| ->%list_elem_of_singleton].
      * destruct (IH r Hr) as [Hname Hcall]. split; [done|].
        apply elem_of_app. by left.
      * simpl. split.
        -- destruct op; simpl; [by left | right; by left | right; right; by left].
        -- apply elem_of_app. right. by apply list_elem_of_singleton.
    + by apply elem_of_nil in Hr.
Qed.

(** C5. A create, update or delete submitted while the connectivity signal
    is offline (a form that passes validation, a delete that the user
    confirms for a listed employee) is applied to the local cache, by a put
    for create and update and by a delete for delete, and the matching
    pending operation is appended to the queue store as its last record,
    under the next key of the store; no request goes to the remote store,
    and the signal stays offline. The operation then awaits replay: the
    counter of pending operations is the number of records of the store,
    so it is positive, and the next [online] event replays the store from
    its first record, up to the new record unless a replay fails before. *)
Theorem offline_operations_are_queued w :
  isOnline w = false ->
  (forall formData uuid now,
     employeeSchema formData (parseFloat (f_salary formData)) = [] ->
     let w' := handle (submit formData uuid now) w in
     let e :=
       match selectedEmployee w with
       | Some employee => updatedEmployee employee (dataToSubmit formData)
       | None => newEmployee (dataToSubmit formData) uuid
       end in
     let op :=
       match selectedEmployee w with
       | Some _ => update
       | None => create
       end in
     cache w' = <[id e := e]> (cache w)
     /\ records (pending w')
         = records (pending w)
             ++ [(next_key (pending w), mkPendingOperation op e now)]
     /\ log w' = log w /\ remote w' = remote w
     /\ isOnline w' = false
     /\ pendingCount w' = S (length (records (pending w)))
     /\ exists n exchanges rest,
          (1 <= n <= length (records (pending w')))%nat
          /\ log (handle online_event w') = log w' ++ exchanges ++ rest
          /\ fst <$> exchanges
              = replay_request <$> take n (snd <$> records (pending w'))
          /\ (forall i x, exchanges !! i = Some x ->
               (S i < length exchanges)%nat -> error x.2 = None)
          /\ (n = length (records (pending w'))
              \/ exists x, last exchanges = Some x /\ is_Some (error x.2)))
  /\ (forall k now employee,
       List.find (fun e => bool_decide (id e = k)) (employees w) = Some employee ->
       let w' := handle (click_delete k true now) w in
       cache w' = base.delete k (cache w)
       /\ records (pending w')
           = records (pending w)
               ++ [(next_key (pending w), mkPendingOperation delete employee now)]
       /\ log w' = log w /\ remote w' = remote w
       /\ isOnline w' = false
       /\ pendingCount w' = S (length (records (pending w)))
       /\ exists n exchanges rest,
            (1 <= n <= length (records (pending w')))%nat
            /\ log (handle online_event w') = log w' ++ exchanges ++ rest
            /\ fst <$> exchanges
                = replay_request <$> take n (snd <$> records (pending w'))
            /\ (forall i x, exchanges !! i = Some x ->
                 (S i < length exchanges)%nat -> error x.2 = None)
            /\ (n = length (records (pending w'))
                \/ exists x, last exchanges = Some x /\ is_Some (error x.2))).
Proof.
  intros Hoff.
  assert (forall w' r,
            isOnline w' = false ->
            records (pending w') = records (pending w) ++ [r] ->
            pendingCount w' = length (records (pending w')) ->
            pendingCount w' = S (length (records (pending w)))
            /\ exists n exchanges rest,
                 (1 <= n <= length (records (pending w')))%nat
                 /\ log (handle online_event w') = log w' ++ exchanges ++ rest
                 /\ fst <$> exchanges
                     = replay_request <$> take n (snd <$> records (pending w'))
                 /\ (forall i x, exchanges !! i = Some x ->
                      (S i < length exchanges)%nat -> error x.2 = None)
                 /\ (n = length (records (pending w'))
                     \/ exists x, last exchanges = Some x /\ is_Some (error x.2)))
    as Hawait.
  { intros w' r Hoff' Hrec Hcount. split.
    - rewrite Hcount, Hrec, length_app. simpl. lia.
    - apply (queued_awaits_replay w' Hoff' Hcount).
      rewrite Hrec. intros Hnil. by apply app_eq_nil in Hnil as [_ ?]. }
  split.
  - intros formData uuid now Hvalid. cbv zeta.
    assert (Hprops :
      let w' := handle (submit formData uuid now) w in
      let e :=
        match selectedEmployee w with
        | Some employee => updatedEmployee employee (dataToSubmit formData)
        | None => newEmployee (dataToSubmit formData) uuid
        end in
      let op :=
        match selectedEmployee w with
        | Some _ => update
        | None => create
        end in
      cache w' = <[id e := e]> (cache w)
      /\ records (pending w')
          = records (pending w)
              ++ [(next_key (pending w), mkPendingOperation op e now)]
      /\ log w' = log w /\ remote w' = remote w
      /\ isOnline w' = false
      /\ pendingCount w' = length (records (pending w'))).
    { cbn [handle]. unfold handleSubmit. rewrite Hvalid.
      change (isOnline (setSaving true w)) with (isOnline w).
      change (selectedEmployee (setSaving true w)) with (selectedEmployee w).
      rewrite Hoff. cbv zeta.
      change (cache (setSaving false ?x)) with (cache x).
      change (pending (setSaving false ?x)) with (pending x).
      change (log (setSaving false ?x)) with (log x).
      change (remote (setSaving false ?x)) with (remote x).
      change (isOnline (setSaving false ?x)) with (isOnline x).
      change (pendingCount (setSaving false ?x)) with (pendingCount x).
      destruct (selectedEmployee w) as [employee|];
        match goal with |- context [handleDialogClose true ?x] =>
          destruct (handleDialogClose_offline x Hoff) as (Hc & Hp & Hl & Hr);
          pose proof (handleDialogClose_true_counted x) as Hn;
          pose proof (handleDialogClose_signal x) as Ho
        end;
        unfold getPendingOperations, pending_getAll in Hn;
        rewrite length_fmap in Hn;
        rewrite Hn, Ho, Hc, Hp, Hl, Hr; simpl; done. }
    cbv zeta in Hprops.
    destruct Hprops as (Hc & Hrec & Hl & Hr & Hoff' & Hcount).
    destruct (Hawait _ _ Hoff' Hrec Hcount) as [Hn Hreplay].
    repeat split; done.
  - intros k now employee Hfind. cbv zeta.
    assert (Hprops :
      let w' := handle (click_delete k true now) w in
      cache w' = base.delete k (cache w)
      /\ records (pending w')
          = records (pending w)
              ++ [(next_key (pending w), mkPendingOperation delete employee now)]
      /\ log w' = log w /\ remote w' = remote w
      /\ isOnline w' = false
      /\ pendingCount w' = length (records (pending w'))).
    { cbn [handle]. unfold handleDelete.
      simpl negb. cbv iota. rewrite Hfind, Hoff. cbv zeta.
      match goal with |- context [fetchEmployees ?x] =>
        destruct (fetchEmployees_offline x Hoff) as (Hc & Hl & Hr);
        destruct (fetchEmployees_frame x) as (Hp & Hn & Ho)
      end.
      rewrite Hc, Hp, Hl, Hr, Hn, Ho. simpl.
      unfold getPendingOperations, pending_getAll. simpl.
      rewrite length_fmap. done. }
    cbv zeta in Hprops.
    destruct Hprops as (Hc & Hrec & Hl & Hr & Hoff' & Hcount).
    destruct (Hawait _ _ Hoff' Hrec Hcount) as [Hn Hreplay].
    repeat split; done.
Qed.

End ClientTheorems.

Section ClientWitnesses.
Import Client Samples.

Lemma reconnect_replays_queue_in_order_witness :
  reachable offline_world /\ isOnline offline_world = false
  /\ records (pending offline_world)
      = [(1%N, mkPendingOperation create ada 1);
         (2%N, mkPendingOperation update bob 2);
         (3%N, mkPendingOperation delete cy 3)]
  /\ log offline_world = []
  /\ log (handle online_event offline_world)
      = [(insert (employee_values ada), ok);
         (update_eq_id (employee_values bob) "u2", ok);
         (delete_eq_id "u3", failure)]
  /\ exists n exchanges rest,
      (n <= length (records (pending offline_world)))%nat
      /\ log (handle online_event offline_world)
          = log offline_world ++ exchanges ++ rest
      /\ fst <$> exchanges
          = replay_request <$> take n (snd <$> records (pending offline_world))
      /\ (forall op,
           replay_request op =
             match operation op with
             | create => insert (employee_values (employee op))
             | update => update_eq_id (employee_values (employee op)) (id (employee op))
             | delete => delete_eq_id (id (employee op))
             end)
      /\ (forall i x, exchanges !! i = Some x ->
           (S i < length exchanges)%nat -> error x.2 = None)
      /\ (forall x, x ∈ rest -> exists columns column, x.1 = select_order columns column)
      /\ ((n = length (records (pending offline_world))
           /\ forall x, x ∈ exchanges -> error x.2 = None)
          \/ ((exists x, last exchanges = Some x /\ is_Some (error x.2))
              /\ rest = [])).
Proof.
  assert (reachable offline_world) as Hreach by apply reachable_mount.
  split; [exact Hreach|]. split; [reflexivity|]. split; [reflexivity|].
  split; [reflexivity|]. split; [reflexivity|].
  apply (reconnect_replays_queue_in_order offline_world Hreach). reflexivity.
Defined.

Lemma failed_sync_keeps_queue_witness :
  mkPendingOperation delete cy 3 ∈ getPendingOperations offline_world
  /\ (delete_eq_id "u3", failure)
      ∈ drop (length (log offline_world)) (log (syncPendingOperations offline_world))
  /\ pending (syncPendingOperations offline_world) = pending offline_world.
Proof.
  assert (mkPendingOperation delete cy 3 ∈ getPendingOperations offline_world)
    as Hop by (apply (list_elem_of_lookup_2 _ 2%nat); reflexivity).
  assert ((replay_request (mkPendingOperation delete cy 3), failure)
            ∈ drop (length (log offline_world))
                (log (syncPendingOperations offline_world)))
    as Hin by (apply (list_elem_of_lookup_2 _ 2%nat); reflexivity).
  split; [exact Hop|]. split; [exact Hin|].
  apply (proj1 (failed_sync_keeps_queue offline_world) _ failure Hop Hin).
  simpl. eauto.
Defined.

Lemma failed_sync_restarts_from_head_witness :
  getPendingOperations (syncPendingOperations offline_world)
    = getPendingOperations offline_world
  /\ exists n exchanges rest,
       (1 <= n <= length (getPendingOperations offline_world))%nat
       /\ log (syncPendingOperations (syncPendingOperations offline_world))
           = log (syncPendingOperations offline_world) ++ exchanges ++ rest
       /\ fst <$> exchanges
           = replay_request <$> take n (getPendingOperations offline_world)
       /\ (forall i x, exchanges !! i = Some x ->
            (S i < length exchanges)%nat -> error x.2 = None)
       /\ (n = length (getPendingOperations offline_world)
           \/ exists x, last exchanges = Some x /\ is_Some (error x.2)).
Proof.
  apply (proj1 (failed_sync_restarts_from_head offline_world)
           (mkPendingOperation delete cy 3) failure).
  - apply (list_elem_of_lookup_2 _ 2%nat). reflexivity.
  - apply (list_elem_of_lookup_2 _ 2%nat). reflexivity.
  - simpl. eauto.
Defined.

(** C9, as stated, fails. The queue holds a create, an update and a delete;
    in the first run the create and the update are applied and the delete
    fails; in the next run the create fails, the run stops there, and the
    update, which the remote store has already applied, is not submitted
    again. *)
Lemma applied_operation_not_resubmitted :
  let w1 := handle online_event offline_world in
  let w2 := handle online_event (handle offline_event w1) in
  getPendingOperations offline_world
    = [mkPendingOperation create ada 1; mkPendingOperation update bob 2;
       mkPendingOperation delete cy 3]
  /\ drop (length (log offline_world)) (log w1)
      = [(insert (employee_values ada), ok);
         (update_eq_id (employee_values bob) "u2", ok);
         (delete_eq_id "u3", failure)]
  /\ getPendingOperations w1 = getPendingOperations offline_world
  /\ drop (length (log w1)) (log w2) = [(insert (employee_values ada), failure)]
  /\ replay_request (mkPendingOperation update bob 2)
      ∉ fst <$> drop (length (log w1)) (log w2).
Proof.
  cbv zeta. split; [reflexivity|]. split; [reflexivity|].
  split; [reflexivity|]. split; [reflexivity|].
  intros Hin. apply list_elem_of_fmap in Hin as (x & Hreq & Hx).
  apply list_elem_of_singleton in Hx. subst x. discriminate Hreq.
Qed.

Lemma pending_records_shape_witness :
  mkPendingOperation update bob 2
    ∈ pending_getAll
        (foldl queue_call pending_empty
           [add_call create ada 1; clear_call; add_call update bob 2])
  /\ operation_name update ∈ ["create"; "update"; "delete"]
  /\ add_call update bob 2
      ∈ [add_call create ada 1; clear_call; add_call update bob 2].
Proof.
  assert (mkPendingOperation update bob 2
            ∈ pending_getAll
                (foldl queue_call pending_empty
                   [add_call create ada 1; clear_call; add_call update bob 2]))
    as Hin by (apply (list_elem_of_lookup_2 _ 0%nat); reflexivity).
  split; [exact Hin|].
  exact (proj1 (proj2 pending_records_shape) _ _ Hin).
Defined.

Lemma offline_operations_are_queued_witness :
  isOnline offline_clean = false
  /\ employeeSchema sample_form (parseFloat (f_salary sample_form)) = []
  /\ (let w' := handle (submit sample_form "u1" 5) offline_clean in
      cache w' = <["u1" := ada]> (cache offline_clean)
      /\ records (pending w') = [(1%N, mkPendingOperation create ada 5)]
      /\ log w' = log offline_clean /\ remote w' = remote offline_clean
      /\ isOnline w' = false
      /\ pendingCount w' = 1%nat
      /\ log offline_clean = []
      /\ log (handle online_event w')
          = [(insert (employee_values ada), ok);
             (select_order employees_with_manager "employee_number", ok)])
  /\ (let w' := handle (click_delete "u2" true 6) offline_clean in
      cache w' = base.delete "u2" (cache offline_clean)
      /\ records (pending w') = [(1%N, mkPendingOperation delete bob 6)]
      /\ log w' = log offline_clean /\ remote w' = remote offline_clean
      /\ isOnline w' = false
      /\ pendingCount w' = 1%nat
      /\ log (handle online_event w')
          = [(delete_eq_id "u2", ok);
             (select_order employees_with_manager "employee_number", ok)]).
Proof.
  destruct (offline_operations_are_queued offline_clean eq_refl) as [Hsubmit Hdelete].
  split; [reflexivity|]. split; [reflexivity|]. split.
  - destruct (Hsubmit sample_form "u1" 5 eq_refl)
      as (Hc & Hrec & Hl & Hr & Ho & Hn & _).
    split; [exact Hc|]. split; [exact Hrec|]. split; [exact Hl|].
    split; [exact Hr|]. split; [exact Ho|]. split; [exact Hn|].
    split; reflexivity.
  - destruct (Hdelete "u2" 6 bob eq_refl)
      as (Hc & Hrec & Hl & Hr & Ho & Hn & _).
    split; [exact Hc|]. split; [exact Hrec|]. split; [exact Hl|].
    split; [exact Hr|]. split; [exact Ho|]. split; [exact Hn|].
    reflexivity.
Defined.

(** A form that fails validation is answered by a toast and goes no
    further, and a delete that the user does not confirm does nothing. *)
Example invalid_form_stops :
  employeeSchema invalid_form (parseFloat (f_salary invalid_form))
    = ["Employee number is required"]
  /\ cache (handle (submit invalid_form "u1" 5) offline_clean) = cache offline_clean
  /\ pending (handle (submit invalid_form "u1" 5) offline_clean)
      = pending offline_clean
  /\ toasts (handle (submit invalid_form "u1" 5) offline_clean)
      = toasts offline_clean ++ [toast_error "Employee number is required"]
  /\ handle (click_delete "u2" false 6) offline_clean = offline_clean.
Proof. repeat split; reflexivity. Qed.

End ClientWitnesses.

(** ** Gravatar URLs *)

Section GravatarFacts.
Import Js Gravatar.

(** *** The ASCII platform of the examples *)

Lemma is_space_lower_char c : is_space (lower_char c) = is_space c.
Proof. destruct c as [[] [] [] [] [] [] [] []]; reflexivity. Qed.

Lemma lower_char_idemp c : lower_char (lower_char c) = lower_char c.
Proof. destruct c as [[] [] [] [] [] [] [] []]; reflexivity. Qed.

Lemma ascii_toLowerCase_idemp s : ascii_toLowerCase (ascii_toLowerCase s) = ascii_toLowerCase s.
Proof.
  induction s as [|c s IH]; simpl; [reflexivity|].
  by rewrite lower_char_idemp, IH.
Qed.

Lemma ascii_trimStart_toLowerCase s :
  ascii_trimStart (ascii_toLowerCase s) = ascii_toLowerCase (ascii_trimStart s).
Proof.
  induction s as [|c s IH]; simpl; [reflexivity|].
  rewrite is_space_lower_char. destruct (is_space c); [exact IH | reflexivity].
Qed.

Lemma ascii_trimEnd_toLowerCase s :
  ascii_trimEnd (ascii_toLowerCase s) = ascii_toLowerCase (ascii_trimEnd s).
Proof.
  induction s as [|c s IH]; simpl; [reflexivity|].
  rewrite IH, is_space_lower_char.
  destruct (ascii_trimEnd s); simpl; [destruct (is_space c)|]; reflexivity.
Qed.

Lemma ascii_trim_toLowerCase s : ascii_trim (ascii_toLowerCase s) = ascii_toLowerCase (ascii_trim s).
Proof. unfold ascii_trim. by rewrite ascii_trimStart_toLowerCase, ascii_trimEnd_toLowerCase. Qed.

Lemma ascii_trimEnd_idemp s : ascii_trimEnd (ascii_trimEnd s) = ascii_trimEnd s.
Proof.
  induction s as [|c s IH]; simpl; [reflexivity|].
  destruct (ascii_trimEnd s) as [|d t] eqn:E.
  - destruct (is_space c) eqn:Hc; simpl; [reflexivity | by rewrite Hc].
  - simpl in *. by rewrite IH.
Qed.

(** A text that does not begin with white space. *)
Lemma ascii_trimStart_clean s :
  match ascii_trimStart s with
  | EmptyString => True
  | String c _ => is_space c = false
  end.
Proof.
  induction s as [|c s IH]; simpl; [done|].
  destruct (is_space c) eqn:Hc; [exact IH | exact Hc].
Qed.

Lemma ascii_trimStart_trimEnd s :
  match s with
  | EmptyString => True
  | String c _ => is_space c = false
  end ->
  ascii_trimStart (ascii_trimEnd s) = ascii_trimEnd s.
Proof.
  destruct s as [|c s]; simpl; [done|]. intros Hc.
  destruct (ascii_trimEnd s); rewrite ?Hc; simpl; by rewrite Hc.
Qed.

Lemma ascii_trim_idemp s : ascii_trim (ascii_trim s) = ascii_trim s.
Proof.
  unfold ascii_trim. rewrite ascii_trimStart_trimEnd by apply ascii_trimStart_clean.
  apply ascii_trimEnd_idemp.
Qed.

Lemma ascii_normalize_idemp s :
  ascii_toLowerCase (ascii_trim (ascii_toLowerCase (ascii_trim s))) = ascii_toLowerCase (ascii_trim s).
Proof. by rewrite ascii_trim_toLowerCase, ascii_toLowerCase_idemp, ascii_trim_idemp. Qed.

Lemma ascii_truthy_toLowerCase s : truthy (ascii_toLowerCase s) = truthy s.
Proof. by destruct s. Qed.

Lemma ascii_truthy_trim s : truthy (ascii_trim s) = true -> truthy s = true.
Proof. by destruct s. Qed.

Lemma ascii_trim_empty : ascii_trim "" = "".
Proof. reflexivity. Qed.

Lemma ascii_toLowerCase_empty s : ascii_toLowerCase s = "" -> s = "".
Proof. by destruct s. Qed.

(** *** [getGravatarUrl] on any platform *)

(** C10, as the code has it. On a platform whose [trim] and [toLowerCase]
    are idempotent, commute, and give the empty text for the empty text
    only ([trim] at least for it, [toLowerCase] for no other), as those of
    JavaScript do: for every e-mail text whose trimmed form is not empty,
    and every size and default image, [getGravatarUrl] gives the same URL
    for the text and for its trimmed, lowercased form; for a null, undefined
    or empty e-mail it gives the URL without a hash,
    'https://www.gravatar.com/avatar/?s=<size>&d=<defaultImage>'. *)
Theorem getGravatarUrl_normalized `{Str : Strings} `{Nm : Numbers} :
  (forall s, trim (trim s) = trim s) ->
  (forall s, toLowerCase (toLowerCase s) = toLowerCase s) ->
  (forall s, trim (toLowerCase s) = toLowerCase (trim s)) ->
  trim "" = "" ->
  (forall s, toLowerCase s = "" -> s = "") ->
  (forall e size defaultImage,
     trim e <> "" ->
     getGravatarUrl (str e) size defaultImage
       = getGravatarUrl (str (toLowerCase (trim e))) size defaultImage)
  /\ (forall email size defaultImage,
       truthy_nullable email = false ->
       getGravatarUrl email size defaultImage
         = "https://www.gravatar.com/avatar/?s="
             +:+ number_to_string (default (literal 200) size)
             +:+ "&d=" +:+ default "mp" defaultImage).
Proof.
  intros Htrim Hlower Hcomm Hempty Hlower_empty. split.
  - intros e size defaultImage Hne.
    assert (truthy e = true) as He.
    { destruct e; [by rewrite Hempty in Hne | done]. }
    assert (truthy (toLowerCase (trim e)) = true) as Hn.
    { destruct (toLowerCase (trim e)) eqn:Heq; [|done].
      by apply Hlower_empty in Heq. }
    unfold getGravatarUrl. rewrite He, Hn.
    by rewrite Hcomm, Hlower, Htrim.
  - intros email size defaultImage Hfalsy. unfold getGravatarUrl.
    destruct email as [| |e]; try reflexivity.
    simpl in Hfalsy. by rewrite Hfalsy.
Qed.

Lemma getGravatarUrl_normalized_witness :
  trim "  Ada@Example.COM " <> ""
  /\ toLowerCase (trim "  Ada@Example.COM ") = "ada@example.com"
  /\ getGravatarUrl (str "  Ada@Example.COM ") (Some 40%N) None
      = getGravatarUrl (str "ada@example.com") (Some 40%N) None
  /\ getGravatarUrl (str "ada@example.com") (Some 40%N) None
      = "https://www.gravatar.com/avatar/3e3417d7ef77d5932a6734b916515ed5?s=40&d=mp"
  /\ getGravatarUrl null (Some 40%N) None
      = "https://www.gravatar.com/avatar/?s=40&d=mp".
Proof.
  assert (trim "  Ada@Example.COM " <> "") as Hne by discriminate.
  destruct (getGravatarUrl_normalized (Str:=ascii_strings) (Nm:=decimal_numbers)
              ascii_trim_idemp ascii_toLowerCase_idemp ascii_trim_toLowerCase
              ascii_trim_empty ascii_toLowerCase_empty) as [Hnorm Hnone].
  split; [exact Hne|]. split; [reflexivity|]. split.
  - exact (Hnorm "  Ada@Example.COM " (Some 40%N) None Hne).
  - split; [vm_compute; reflexivity|].
    exact (Hnone null (Some 40%N) None eq_refl).
Defined.

(** C10, as stated, fails for an e-mail made of white space only: the text
    is not empty, so the URL carries the MD5 digest of the empty text, while
    its trimmed form is empty and gets the URL without a hash. *)
Lemma getGravatarUrl_blank_email :
  " " <> ""
  /\ toLowerCase (trim " ") = ""
  /\ getGravatarUrl (str " ") None None
      = "https://www.gravatar.com/avatar/d41d8cd98f00b204e9800998ecf8427e?s=200&d=mp"
  /\ getGravatarUrl (str (toLowerCase (trim " "))) None None
      = "https://www.gravatar.com/avatar/?s=200&d=mp"
  /\ getGravatarUrl (str " ") None None
      <> getGravatarUrl (str (toLowerCase (trim " "))) None None.
Proof.
  split; [discriminate|]. split; [reflexivity|].
  split; [vm_compute; reflexivity|]. split; [vm_compute; reflexivity|].
  vm_compute. discriminate.
Qed.

End GravatarFacts.

(** ** The org chart *)

Section HierarchyFacts.
Import Hierarchy.

Lemma mapM_fmap_Some {A B C} (g : B -> option C) (h : A -> B) (t : A -> C)
    (l : list A) :
  (forall c, c ∈ l -> g (h c) = Some (t c)) ->
  mapM g (h <$> l) = Some (t <$> l).
Proof.
  induction l as [|c l IH]; intros Hall; [reflexivity|].
  rewrite !fmap_cons. cbn [mapM]. rewrite (Hall c) by (by left).
  rewrite IH by (intros; apply Hall; by right). reflexivity.
Qed.

Lemma find_id_Some (employees : list Employee) k y :
  List.find (fun m => bool_decide (id m = k)) employees = Some y ->
  y ∈ employees /\ id y = k.
Proof.
  intros Hf. apply find_some in Hf as [Hin Hk].
  split; [by apply list_elem_of_In | by apply bool_decide_eq_true in Hk].
Qed.

Lemma find_id_None (employees : list Employee) k :
  List.find (fun m => bool_decide (id m = k)) employees = None ->
  k ∉ id <$> employees.
Proof.
  intros Hf Hin. apply list_elem_of_fmap in Hin as (y & -> & Hy).
  apply list_elem_of_In in Hy.
  pose proof (find_none _ _ Hf y Hy) as Hb. simpl in Hb.
  by rewrite bool_decide_eq_true_2 in Hb.
Qed.

Lemma find_id_unique (employees : list Employee) y :
  NoDup (id <$> employees) -> y ∈ employees ->
  List.find (fun m => bool_decide (id m = id y)) employees = Some y.
Proof.
  induction employees as [|x l IH]; intros Hnd Hy; [by apply elem_of_nil in Hy|].
  rewrite fmap_cons in Hnd. apply NoDup_cons in Hnd as [Hx Hnd]. simpl.
  case_bool_decide as Hid.
  - apply elem_of_cons in Hy as [->|Hy]; [done|].
    exfalso. apply Hx. rewrite Hid. by apply list_elem_of_fmap_2.
  - apply elem_of_cons in Hy as [->|Hy]; [done|]. by apply IH.
Qed.

Lemma parent_elem (employees : list Employee) e p :
  parent employees e = Some p ->
  p ∈ employees /\ manager_id e = Some (id p) /\ Js.truthy (id p) = true.
Proof.
  unfold parent. destruct (manager_id e) as [k|]; [|discriminate].
  destruct (Js.truthy k) eqn:Hk; [|discriminate].
  intros [Hin <-]%find_id_Some. done.
Qed.

Section WithEmployees.
Variable employees : list Employee.
Hypothesis unique_ids : NoDup (id <$> employees).

Lemma unique_employees : NoDup employees.
Proof. by eapply NoDup_fmap_1. Qed.

Lemma buildMap_other l (m : gmap string Node) k :
  k ∉ id <$> l ->
  foldl (fun m emp => <[id emp := mkNode emp []]> m) m l !! k = m !! k.
Proof.
  revert m. induction l as [|x l IH]; intros m Hk; [reflexivity|].
  rewrite fmap_cons in Hk. apply not_elem_of_cons in Hk as [Hne Hk].
  simpl. rewrite IH by done. by apply lookup_insert_ne.
Qed.

Lemma buildMap_elem l (m : gmap string Node) e :
  NoDup (id <$> l) -> e ∈ l ->
  foldl (fun m emp => <[id emp := mkNode emp []]> m) m l !! id e
    = Some (mkNode e []).
Proof.
  revert m. induction l as [|x l IH]; intros m Hnd He;
    [by apply elem_of_nil in He|].
  rewrite fmap_cons in Hnd. apply NoDup_cons in Hnd as [Hx Hnd]. simpl.
  apply elem_of_cons in He as [->|He]; [|by apply IH].
  rewrite buildMap_other by done. apply lookup_insert_eq.
Qed.

Lemma has_manager_parent st done_ x :
  linked employees done_ st ->
  has_manager st.1 x = id <$> parent employees x.
Proof.
  intros (_ & Hin & Hout). unfold has_manager, parent.
  destruct (manager_id x) as [k|]; [|reflexivity].
  destruct (Js.truthy k); [|reflexivity]. simpl.
  destruct (List.find _ employees) as [y|] eqn:Hf.
  - apply find_id_Some in Hf as [Hy <-]. by rewrite (Hin y Hy).
  - apply find_id_None in Hf. by rewrite (Hout k Hf).
Qed.

Lemma link_step done_ st x :
  x ∈ employees -> linked employees done_ st -> linked employees (done_ ++ [x]) (link st x).
Proof.
  intros Hx Hst. pose proof (has_manager_parent st done_ x Hst) as Hman.
  destruct Hst as (Hroots & Hin & Hout). destruct st as [m rs]. simpl in *.
  unfold linked. rewrite (Hin x Hx). rewrite Hman.
  destruct (parent employees x) as [p|] eqn:Hp; simpl.
  - destruct (parent_elem _ _ _ Hp) as (Hpin & _ & _).
    split; [|split].
    + rewrite filter_app, filter_cons_False, filter_nil, app_nil_r by congruence.
      exact Hroots.
    + intros y Hy. rewrite filter_app. destruct (decide (y = p)) as [->|Hne].
      * rewrite lookup_alter_eq, (Hin p Hpin). simpl.
        rewrite filter_cons_True, filter_nil by done.
        by rewrite fmap_app.
      * rewrite lookup_alter_ne.
        -- rewrite filter_cons_False, filter_nil, app_nil_r by congruence.
           by apply Hin.
        -- intros Heq. apply Hne.
           pose proof (find_id_unique employees y unique_ids Hy) as Hfy.
           rewrite <- Heq in Hfy.
           pose proof (find_id_unique employees p unique_ids Hpin) as Hfp.
           congruence.
    + intros k Hk. rewrite lookup_alter_ne; [by apply Hout|].
      intros <-. apply Hk. by apply list_elem_of_fmap_2.
  - split; [|split].
    + rewrite filter_app, filter_cons_True, filter_nil by done.
      by rewrite fmap_app, Hroots.
    + intros y Hy.
      rewrite filter_app, filter_cons_False, filter_nil, app_nil_r by congruence.
      by apply Hin.
    + exact Hout.
Qed.

Lemma link_all rest done_ st :
  (forall x, x ∈ rest -> x ∈ employees) ->
  linked employees done_ st -> linked employees (done_ ++ rest) (foldl link st rest).
Proof.
  revert done_ st. induction rest as [|x rest IH]; intros done_ st Hsub Hst.
  - by rewrite app_nil_r.
  - simpl. rewrite (assoc_L (++) done_ [x] rest : done_ ++ x :: rest = (done_ ++ [x]) ++ rest).
    apply IH; [intros; apply Hsub; by right|].
    apply link_step; [apply Hsub; by left | done].
Qed.

Lemma link_result :
  (foldl link (buildMap employees, []) employees).2 = id <$> roots employees
  /\ forall y, y ∈ employees ->
       (foldl link (buildMap employees, []) employees).1 !! id y
         = Some (mkNode y (id <$> children employees y)).
Proof.
  assert (linked employees [] (buildMap employees, [])) as Hinit.
  { split; [reflexivity|]. split.
    - intros y Hy. simpl. unfold buildMap. by apply buildMap_elem.
    - intros k Hk. simpl. unfold buildMap. by rewrite buildMap_other. }
  pose proof (link_all employees [] _ (fun x Hx => Hx) Hinit) as (H1 & H2 & _).
  simpl in H1, H2. split; [exact H1 | exact H2].
Qed.

(** *** Reporting lines *)

Lemma ancestor_add i j e :
  ancestor employees (i + j) e = ancestor employees i e ≫= ancestor employees j.
Proof.
  revert e. induction i as [|i IH]; intros e; [reflexivity|].
  simpl. destruct (parent employees e) as [p|]; simpl; [apply IH | reflexivity].
Qed.

Lemma ancestor_S k e :
  ancestor employees (S k) e = ancestor employees k e ≫= parent employees.
Proof.
  replace (S k) with (k + 1)%nat by lia. rewrite ancestor_add.
  destruct (ancestor employees k e) as [a|]; simpl; [|reflexivity].
  by destruct (parent employees a).
Qed.

Lemma ancestor_elem k e a :
  e ∈ employees -> ancestor employees k e = Some a -> a ∈ employees.
Proof.
  revert e. induction k as [|k IH]; intros e He; simpl.
  - by intros [= <-].
  - destruct (parent employees e) as [p|] eqn:Hp; simpl; [|discriminate].
    apply IH. by apply parent_elem in Hp as [? _].
Qed.

Lemma ancestor_earlier i k e :
  (i <= k)%nat -> is_Some (ancestor employees k e) ->
  is_Some (ancestor employees i e).
Proof.
  intros Hle Hk. replace k with (i + (k - i))%nat in Hk by lia.
  rewrite ancestor_add in Hk.
  destruct (ancestor employees i e); [eauto | by apply is_Some_None in Hk].
Qed.

Lemma level_functional e d1 d2 :
  level employees e d1 -> level employees e d2 -> d1 = d2.
Proof.
  intros H1. revert d2. induction H1 as [e Hp|e p d Hp _ IH]; intros d2 H2;
    inversion H2; subst; try congruence.
  f_equal. apply IH. congruence.
Qed.

Lemma level_ancestor k e a d :
  ancestor employees k e = Some a -> level employees a d ->
  level employees e (k + d).
Proof.
  revert e. induction k as [|k IH]; intros e; simpl.
  - by intros [= <-].
  - destruct (parent employees e) as [p|] eqn:Hp; simpl; [|discriminate].
    intros Ha Hl. eapply level_report; eauto.
Qed.

Lemma level_ancestor_inv k e a d :
  level employees e d -> ancestor employees k e = Some a ->
  (k <= d)%nat /\ level employees a (d - k).
Proof.
  intros Hl. revert k. induction Hl as [e Hp|e p d Hp Hl IH]; intros k.
  - destruct k as [|k]; simpl.
    + intros [= <-]. split; [lia|]. by apply level_root.
    + rewrite Hp. discriminate.
  - destruct k as [|k]; simpl.
    + intros [= <-]. split; [lia|]. by eapply level_report.
    + rewrite Hp. simpl. intros Ha. destruct (IH k Ha). split; [lia | done].
Qed.

(** A reporting line that ends is not a cycle. *)
Lemma level_acyclic e d k :
  level employees e d -> (0 < k)%nat -> ancestor employees k e <> Some e.
Proof.
  intros Hl Hk Ha. destruct (level_ancestor_inv k e e d Hl Ha) as [Hle Hl'].
  pose proof (level_functional e d (d - k) Hl Hl'). lia.
Qed.

Lemma ends_within_level fuel e :
  ends_within employees fuel e = true ->
  exists d, (d <= fuel)%nat /\ level employees e d.
Proof.
  revert e. induction fuel as [|fuel IH]; intros e; simpl;
    destruct (parent employees e) as [p|] eqn:Hp; try discriminate.
  - intros _. exists 0%nat. split; [lia | by apply level_root].
  - intros Hend. destruct (IH p Hend) as (d & Hd & Hl).
    exists (S d). split; [lia | by eapply level_report].
  - intros _. exists 0%nat. split; [lia | by apply level_root].
Qed.

(** The test [acyclicb] is sound. *)
Lemma acyclicb_acyclic : acyclicb employees = true -> acyclic employees.
Proof.
  intros Hb e k He Hk. unfold acyclicb in Hb.
  rewrite forallb_forall in Hb. apply list_elem_of_In in He.
  destruct (ends_within_level _ e (Hb e He)) as (d & _ & Hl).
  by eapply level_acyclic.
Qed.

(** Without a cycle a reporting line cannot go through more employees than
    the list has. *)
Lemma acyclic_runs_out e :
  acyclic employees -> e ∈ employees ->
  ancestor employees (length employees) e = None.
Proof.
  intros Hacyc He.
  destruct (ancestor employees (length employees) e) as [a|] eqn:Ha;
    [exfalso|reflexivity].
  set (line := (fun i => ancestor employees i e) <$> seq 0 (S (length employees))).
  assert (NoDup line) as Hnd.
  { apply NoDup_alt. intros i j o Hi Hj. unfold line in Hi, Hj.
    rewrite list_lookup_fmap in Hi, Hj.
    destruct (seq 0 (S (length employees)) !! i) as [i'|] eqn:Hi'; [|discriminate].
    destruct (seq 0 (S (length employees)) !! j) as [j'|] eqn:Hj'; [|discriminate].
    apply lookup_seq in Hi' as [-> Hilt]. apply lookup_seq in Hj' as [-> Hjlt].
    simpl in Hi, Hj. injection Hi as Hi. injection Hj as Hj.
    assert (is_Some (ancestor employees i e)) as [x Hx].
    { apply (ancestor_earlier i (length employees)); [lia | by rewrite Ha]. }
    destruct (decide (i = j)) as [|Hne]; [done|exfalso].
    assert (forall i0 j0 y, (i0 < j0)%nat ->
              ancestor employees i0 e = Some y ->
              ancestor employees j0 e = Some y -> False) as Hcycle.
    { intros i0 j0 y Hlt Hi0 Hj0.
      replace j0 with (i0 + (j0 - i0))%nat in Hj0 by lia.
      rewrite ancestor_add, Hi0 in Hj0. simpl in Hj0.
      revert Hj0. apply Hacyc; [by eapply ancestor_elem | lia]. }
    destruct (decide (i < j)%nat).
    - apply (Hcycle i j x); [done|done|congruence].
    - apply (Hcycle j i x); [lia|congruence|done]. }
  assert (line ⊆+ (Some <$> employees)) as Hsub.
  { apply NoDup_submseteq; [done|]. intros o Ho. unfold line in Ho.
    apply list_elem_of_fmap in Ho as (i & -> & Hi).
    apply elem_of_seq in Hi.
    assert (is_Some (ancestor employees i e)) as [x Hx].
    { apply (ancestor_earlier i (length employees)); [lia | by rewrite Ha]. }
    rewrite Hx. apply list_elem_of_fmap_2. by eapply ancestor_elem. }
  apply submseteq_length in Hsub. unfold line in Hsub.
  rewrite !length_fmap, length_seq in Hsub. lia.
Qed.

Lemma level_or_ancestor k e :
  (exists d, (d < k)%nat /\ level employees e d)
  \/ is_Some (ancestor employees k e).
Proof.
  induction k as [|k [(d & Hd & Hl)|[a Ha]]].
  - right. simpl. eauto.
  - left. exists d. split; [lia | done].
  - destruct (parent employees a) as [p|] eqn:Hp.
    + right. rewrite ancestor_S, Ha. simpl. rewrite Hp. eauto.
    + left. exists k. split; [lia|].
      replace k with (k + 0)%nat by lia.
      eapply level_ancestor; [exact Ha | by apply level_root].
Qed.

(** Without a cycle every employee has a level, below the length of the
    list. *)
Lemma acyclic_level e :
  acyclic employees -> e ∈ employees ->
  exists d, (d < length employees)%nat /\ level employees e d.
Proof.
  intros Hacyc He.
  destruct (level_or_ancestor (length employees) e) as [Hl|Hs]; [exact Hl|].
  rewrite acyclic_runs_out in Hs by done. by apply is_Some_None in Hs.
Qed.

Lemma level_ends_within e d fuel :
  level employees e d -> (d <= fuel)%nat -> ends_within employees fuel e = true.
Proof.
  intros Hl. revert fuel. induction Hl as [e Hp|e p d Hp _ IH]; intros fuel Hd.
  - destruct fuel; simpl; by rewrite Hp.
  - destruct fuel as [|fuel]; [lia|]. simpl. rewrite Hp. apply IH. lia.
Qed.

(** The test [acyclicb] is complete: it decides [acyclic]. *)
Lemma acyclic_acyclicb : acyclic employees -> acyclicb employees = true.
Proof.
  intros Hacyc. unfold acyclicb. apply forallb_forall. intros e He.
  apply list_elem_of_In in He.
  destruct (acyclic_level e Hacyc He) as (d & Hd & Hl).
  apply (level_ends_within e d); [done | lia].
Qed.

(** *** The trees behind the references *)

Lemma children_elem c y :
  c ∈ children employees y <-> c ∈ employees /\ parent employees c = Some y.
Proof. unfold children. rewrite list_elem_of_filter. tauto. Qed.

Lemma roots_elem e :
  e ∈ roots employees <-> e ∈ employees /\ parent employees e = None.
Proof. unfold roots. rewrite list_elem_of_filter. tauto. Qed.

Lemma unfold_tree (m : gmap string Node) f y d :
  acyclic employees ->
  (forall z, z ∈ employees ->
     m !! id z = Some (mkNode z (id <$> children employees z))) ->
  y ∈ employees -> level employees y d ->
  (length employees <= d + S f)%nat ->
  unfold (S f) m (id y) = Some (tree employees f y).
Proof.
  intros Hacyc Hm. revert y d. induction f as [|f IH]; intros y d Hy Hl Hlen.
  - assert (children employees y = []) as Hnone.
    { destruct (children employees y) as [|c l] eqn:Hc; [reflexivity|exfalso].
      assert (c ∈ children employees y) as Hin by (rewrite Hc; by left).
      apply children_elem in Hin as [Hcin Hcp].
      destruct (acyclic_level c Hacyc Hcin) as (d' & Hd' & Hl').
      pose proof (level_functional c d' (S d) Hl' (level_report _ _ _ _ Hcp Hl)).
      lia. }
    cbn [unfold]. rewrite (Hm y Hy). simpl. rewrite Hnone. reflexivity.
  - cbn [unfold]. rewrite (Hm y Hy). cbn [mbind option_bind subordinates employee].
    rewrite (mapM_fmap_Some (unfold (S f) m) id (tree employees f)).
    + reflexivity.
    + intros c [Hcin Hcp]%children_elem.
      apply (IH c (S d)); [done | by eapply level_report | lia].
Qed.

(** *** Counting occurrences *)

Ltac decide_cases :=
  unfold one_if;
  repeat match goal with
  | |- context [decide ?P] => destruct (decide P)
  | |- context [Employee_eq_dec ?a ?b] => destruct (Employee_eq_dec a b)
  end;
  try congruence; try lia.

Lemma count_concat {A} (g : A -> list Employee) (l : list A) x :
  count (concat (g <$> l)) x = sum_list_with (fun c => count (g c) x) l.
Proof.
  induction l as [|c l IH]; [reflexivity|].
  rewrite fmap_cons. simpl. unfold count in *. by rewrite count_occ_app, IH.
Qed.

Lemma sum_list_with_add {A} (f g : A -> nat) (l : list A) :
  sum_list_with (fun c => (f c + g c)%nat) l
    = (sum_list_with f l + sum_list_with g l)%nat.
Proof. induction l as [|c l IH]; simpl; lia. Qed.

Lemma sum_list_with_ext_in {A} (f g : A -> nat) (l : list A) :
  (forall c, c ∈ l -> f c = g c) -> sum_list_with f l = sum_list_with g l.
Proof.
  induction l as [|c l IH]; intros Heq; [reflexivity|]. simpl.
  rewrite (Heq c) by (by left). rewrite IH; [reflexivity|].
  intros; apply Heq; by right.
Qed.

Lemma sum_list_with_one_if (l : list Employee) x :
  sum_list_with (fun c => one_if (c = x)) l = count l x.
Proof.
  induction l as [|c l IH]; [reflexivity|]. simpl. rewrite IH.
  unfold count. simpl. decide_cases.
Qed.

Lemma count_NoDup (l : list Employee) x :
  NoDup l -> x ∈ l -> count l x = 1%nat.
Proof.
  unfold count.
  induction 1 as [|y l Hy Hnd IH]; intros Hx; [by apply elem_of_nil in Hx|].
  simpl. destruct (Employee_eq_dec y x) as [->|Hne].
  - f_equal. apply count_occ_not_In. by rewrite <- list_elem_of_In.
  - apply IH. by apply elem_of_cons in Hx as [->|Hx].
Qed.

Lemma count_not_elem (l : list Employee) x : x ∉ l -> count l x = 0%nat.
Proof.
  intros Hx. unfold count. apply count_occ_not_In. by rewrite <- list_elem_of_In.
Qed.

Lemma count_children x y :
  x ∈ employees ->
  count (children employees y) x = one_if (parent employees x = Some y).
Proof.
  intros Hx. unfold one_if.
  destruct (decide (parent employees x = Some y)) as [Hp|Hp].
  - apply count_NoDup; [|by apply children_elem].
    apply NoDup_filter, unique_employees.
  - apply count_not_elem. rewrite children_elem. tauto.
Qed.

Lemma count_roots x :
  x ∈ employees ->
  count (roots employees) x = one_if (parent employees x = None).
Proof.
  intros Hx. unfold one_if.
  destruct (decide (parent employees x = None)) as [Hp|Hp].
  - apply count_NoDup; [|by apply roots_elem].
    apply NoDup_filter, unique_employees.
  - apply count_not_elem. rewrite roots_elem. tauto.
Qed.

Lemma count_tree_S f y x :
  count (flatten (tree employees (S f) y)) x
    = (one_if (y = x)
       + sum_list_with (fun c => count (flatten (tree employees f c)) x)
           (children employees y))%nat.
Proof.
  cbn [tree flatten]. rewrite <- list_fmap_compose.
  rewrite <- (count_concat (fun c => flatten (tree employees f c))).
  unfold count, compose. simpl. decide_cases.
Qed.

Lemma count_tree_0 y x :
  count (flatten (tree employees 0 y)) x = one_if (y = x).
Proof.
  unfold count. simpl. decide_cases.
Qed.

(** An employee without a manager occurs in a tree at its root only. *)
Lemma count_tree_root x f y :
  parent employees x = None ->
  count (flatten (tree employees f y)) x = one_if (y = x).
Proof.
  intros Hp. revert y. induction f as [|f IH]; intros y; [apply count_tree_0|].
  rewrite count_tree_S.
  rewrite (sum_list_with_ext_in _ (fun _ => 0%nat)).
  - assert (forall l : list Employee, sum_list_with (fun _ => 0%nat) l = 0%nat) as ->
      by (intros l; induction l; simpl; lia). lia.
  - intros c [_ Hc]%children_elem. rewrite IH. decide_cases.
Qed.

(** An employee with a manager occurs once under each place where the
    manager occurs. *)
Lemma count_tree_report x p f y :
  x ∈ employees -> parent employees x = Some p ->
  count (flatten (tree employees (S f) y)) x
    = (one_if (y = x) + count (flatten (tree employees f y)) p)%nat.
Proof.
  intros Hx Hp. revert y. induction f as [|f IH]; intros y.
  - rewrite count_tree_S, count_tree_0.
    rewrite (sum_list_with_ext_in _ (fun c => one_if (c = x)))
      by (intros; apply count_tree_0).
    rewrite sum_list_with_one_if, count_children, Hp by done.
    decide_cases.
  - rewrite count_tree_S.
    rewrite (sum_list_with_ext_in _
      (fun c => (one_if (c = x) + count (flatten (tree employees f c)) p)%nat))
      by (intros; apply IH).
    rewrite sum_list_with_add, sum_list_with_one_if, count_children, Hp by done.
    rewrite (count_tree_S f y p). decide_cases.
Qed.

Lemma occurrences_sum x (l : list Employee) f :
  occurrences x (tree employees f <$> l)
    = sum_list_with (fun r => count (flatten (tree employees f r)) x) l.
Proof.
  unfold occurrences. rewrite <- list_fmap_compose.
  apply (count_concat (fun r => flatten (tree employees f r))).
Qed.

(** Every employee with a level occurs once in the forest under the roots,
    as soon as the trees go as deep as its level. *)
Lemma occurrences_level x d :
  level employees x d -> x ∈ employees ->
  forall f, (d <= f)%nat ->
    occurrences x (tree employees f <$> roots employees) = 1%nat.
Proof.
  induction 1 as [x Hp|x p d Hp Hl IH]; intros Hx f Hf.
  - rewrite occurrences_sum.
    rewrite (sum_list_with_ext_in _ (fun r => one_if (r = x)))
      by (intros; by apply count_tree_root).
    rewrite sum_list_with_one_if, count_roots by done. decide_cases.
  - destruct f as [|f]; [lia|]. rewrite occurrences_sum.
    rewrite (sum_list_with_ext_in _
      (fun r => (one_if (r = x) + count (flatten (tree employees f r)) p)%nat))
      by (intros; by apply count_tree_report).
    rewrite sum_list_with_add, sum_list_with_one_if, count_roots by done.
    rewrite <- occurrences_sum, IH; [|by apply parent_elem in Hp as [? _] | lia].
    decide_cases.
Qed.

(** *** Where the nodes are *)

Lemma elem_of_concat {A} (x : A) (ls : list (list A)) :
  x ∈ concat ls <-> exists l, l ∈ ls /\ x ∈ l.
Proof.
  rewrite list_elem_of_In, in_concat. split; intros (l & Hl & Hx); exists l.
  - by rewrite !list_elem_of_In.
  - by rewrite <- !list_elem_of_In.
Qed.

Lemma Tree_induction (Q : Tree -> Prop) :
  (forall e l, Forall Q l -> Q (tree_node e l)) -> forall t, Q t.
Proof.
  intros Hnode. fix IH 1. intros [e l]. apply Hnode.
  induction l as [|t l IHl]; constructor; [apply IH | exact IHl].
Qed.

Lemma nodes_self t : t ∈ nodes t.
Proof. destruct t. simpl. by left. Qed.

Lemma nodes_subs T t' t : t' ∈ nodes T -> t ∈ subs t' -> t ∈ nodes T.
Proof.
  revert t' t. induction T as [e l IH] using Tree_induction.
  intros t' t Ht' Ht. cbn [nodes] in *. right.
  apply elem_of_cons in Ht' as [->|Ht'].
  - simpl in Ht. apply elem_of_concat. exists (nodes t).
    split; [by apply list_elem_of_fmap_2 | apply nodes_self].
  - apply elem_of_concat in Ht' as (ns & Hns & Ht').
    apply list_elem_of_fmap in Hns as (T' & -> & HT').
    apply elem_of_concat. exists (nodes T').
    split; [by apply list_elem_of_fmap_2|].
    rewrite Forall_forall in IH. by apply (IH T' HT' t' t).
Qed.

Lemma root_tree f y : root (tree employees f y) = y.
Proof. by destruct f. Qed.

Lemma flatten_tree_elem f y z :
  y ∈ employees -> z ∈ flatten (tree employees f y) -> z ∈ employees.
Proof.
  revert y. induction f as [|f IH]; intros y Hy; cbn [tree flatten].
  - simpl. by intros ->%list_elem_of_singleton.
  - intros [->|Hz]%elem_of_cons; [done|].
    apply elem_of_concat in Hz as (l & Hl & Hz).
    apply list_elem_of_fmap in Hl as (t & -> & Ht).
    apply list_elem_of_fmap in Ht as (c & -> & Hc).
    apply children_elem in Hc as [Hc _]. by apply (IH c).
Qed.

(** The node of an employee of level [d] sits in the forest with the depth
    that is left below level [d]. *)
Lemma tree_in_forest m d f :
  level employees m d -> m ∈ employees -> (d <= f)%nat ->
  tree employees (f - d) m
    ∈ concat (nodes <$> (tree employees f <$> roots employees)).
Proof.
  induction 1 as [m Hp|m p d Hp Hl IH]; intros Hm Hf.
  - rewrite Nat.sub_0_r. apply elem_of_concat.
    exists (nodes (tree employees f m)). split; [|apply nodes_self].
    apply list_elem_of_fmap_2, list_elem_of_fmap_2. by apply roots_elem.
  - destruct (parent_elem _ _ _ Hp) as (Hpin & _ & _).
    specialize (IH Hpin ltac:(lia)).
    apply elem_of_concat in IH as (ns & Hns & Hin).
    apply list_elem_of_fmap in Hns as (T & -> & HT).
    apply elem_of_concat. exists (nodes T).
    split; [by apply list_elem_of_fmap_2|].
    apply (nodes_subs T _ _ Hin).
    replace (f - d)%nat with (S (f - S d)) by lia. cbn [tree subs].
    apply list_elem_of_fmap_2. by apply children_elem.
Qed.

Lemma parent_None_iff e :
  parent employees e = None
  <-> manager_id e = None \/ manager_id e = Some ""
      \/ forall m, m ∈ employees -> manager_id e <> Some (id m).
Proof.
  unfold parent. destruct (manager_id e) as [k|]; [|by split; [left|]].
  destruct k as [|a k]; [by split; [right; left|]|]. simpl. split.
  - intros Hf. right. right. intros m Hm [= Hk].
    apply find_id_None in Hf. apply Hf. rewrite Hk.
    by apply list_elem_of_fmap_2.
  - intros [?|[?|Hno]]; try discriminate.
    destruct (List.find _ employees) as [y|] eqn:Hf; [exfalso|reflexivity].
    apply find_id_Some in Hf as [Hy Hid]. apply (Hno y Hy). by rewrite Hid.
Qed.

(** What [buildHierarchyTree] makes of a non-empty list without a cycle. *)
Lemma buildHierarchyTree_trees `{Str : Js.Strings} hierarchyTree :
  acyclic employees -> employees <> [] ->
  buildHierarchyTree employees "" hierarchyTree
    = Some (tree employees (length employees - 1) <$> roots employees).
Proof.
  intros Hacyc Hne. unfold buildHierarchyTree.
  assert (length employees <> 0%nat) as Hlen
    by (intros H0; by apply Hne, nil_length_inv).
  destruct (Nat.eqb_spec (length employees) 0) as [|_]; [done|].
  destruct link_result as [Hroots Hmap].
  destruct (foldl link (buildMap employees, []) employees) as [m rs].
  simpl in Hroots, Hmap. subst rs.
  rewrite (mapM_fmap_Some (unfold (length employees) m) id
             (tree employees (length employees - 1))); [reflexivity|].
  intros r [Hr Hp]%roots_elem.
  replace (length employees) with (S (length employees - 1)) at 1 by lia.
  apply (unfold_tree m _ r 0); [done | done | done | by apply level_root | lia].
Qed.

End WithEmployees.

(** C8, as the code has it. For every employee list with pairwise distinct
    ids in which no employee is above itself, and with an empty search
    term, [buildHierarchyTree] produces a forest in which every employee of
    the list appears exactly once; an employee is a root if and only if its
    [manager_id] is null, empty, or matches no id in the list; and every
    other employee appears among the subordinates of the employee whose id
    equals its [manager_id]. *)
Theorem buildHierarchyTree_forest `{Str : Js.Strings} employees hierarchyTree :
  NoDup (id <$> employees) -> acyclic employees ->
  exists forest,
    buildHierarchyTree employees "" hierarchyTree = Some forest
    /\ (forall e, e ∈ employees -> occurrences e forest = 1%nat)
    /\ (employees <> [] -> concat (flatten <$> forest) ≡ₚ employees)
    /\ (forall e, e ∈ employees ->
         (e ∈ root <$> forest
          <-> manager_id e = None \/ manager_id e = Some ""
              \/ forall m, m ∈ employees -> manager_id e <> Some (id m)))
    /\ (forall e, e ∈ employees -> e ∉ root <$> forest ->
         exists m t,
           m ∈ employees /\ manager_id e = Some (id m)
           /\ t ∈ concat (nodes <$> forest)
           /\ root t = m /\ e ∈ root <$> subs t).
Proof.
  intros Hnd Hacyc. destruct (decide (employees = [])) as [->|Hne].
  { exists hierarchyTree. split; [reflexivity|].
    split; [intros e He; by apply elem_of_nil in He|]. split; [done|].
    split; intros e He; by apply elem_of_nil in He. }
  set (f := (length employees - 1)%nat).
  exists (tree employees f <$> roots employees).
  split; [by apply buildHierarchyTree_trees|].
  assert (forall e, e ∈ employees ->
            occurrences e (tree employees f <$> roots employees) = 1%nat) as Honce.
  { intros e He. destruct (acyclic_level employees e Hacyc He) as (d & Hd & Hl).
    apply (occurrences_level employees Hnd e d Hl He). unfold f. lia. }
  assert (root <$> (tree employees f <$> roots employees) = roots employees)
    as Hroots.
  { generalize (roots employees). intros l.
    induction l as [|r l IH]; [reflexivity|].
    rewrite !fmap_cons, root_tree. by f_equal. }
  split; [exact Honce|]. split; [|split].
  - intros _. apply (Permutation_count_occ Employee_eq_dec). intros x.
    destruct (decide (x ∈ employees)) as [Hx|Hx].
    + specialize (Honce x Hx). unfold occurrences, count in Honce.
      rewrite Honce. symmetry.
      apply (count_NoDup employees x); [by eapply NoDup_fmap_1 | done].
    + assert (count_occ Employee_eq_dec employees x = 0%nat) as ->
        by (apply count_occ_not_In; by rewrite <- list_elem_of_In).
      apply count_occ_not_In. rewrite <- list_elem_of_In.
      intros Hin. apply Hx.
      apply elem_of_concat in Hin as (l & Hl & Hin).
      apply list_elem_of_fmap in Hl as (t & -> & Ht).
      apply list_elem_of_fmap in Ht as (r & -> & Hr).
      apply roots_elem in Hr as [Hr _]. by eapply flatten_tree_elem.
  - intros e He. rewrite Hroots, roots_elem, parent_None_iff. tauto.
  - intros e He Hnot. rewrite Hroots, roots_elem in Hnot.
    destruct (parent employees e) as [m|] eqn:Hp; [|tauto].
    destruct (parent_elem _ _ _ Hp) as (Hm & Hid & _).
    destruct (acyclic_level employees m Hacyc Hm) as (d & _ & Hl).
    destruct (acyclic_level employees e Hacyc He) as (d' & Hd' & Hl').
    pose proof (level_functional employees e d' (S d) Hl'
                  (level_report _ _ _ _ Hp Hl)) as ->.
    exists m, (tree employees (f - d) m).
    split; [done|]. split; [done|].
    split; [apply tree_in_forest; [done | done | unfold f; lia]|].
    split; [apply root_tree|].
    replace (f - d)%nat with (S (f - S d)) by (unfold f; lia).
    cbn [tree subs]. rewrite <- list_fmap_compose.
    apply (list_elem_of_fmap_2' _ _ e); [by apply children_elem|].
    simpl. by rewrite root_tree.
Qed.

Lemma buildHierarchyTree_forest_witness :
  NoDup (id <$> [cat; ann; ben; dan]) /\ acyclic [cat; ann; ben; dan]
  /\ exists forest,
      buildHierarchyTree [cat; ann; ben; dan] "" [] = Some forest
      /\ (forall e, e ∈ [cat; ann; ben; dan] -> occurrences e forest = 1%nat)
      /\ ([cat; ann; ben; dan] <> [] ->
          concat (flatten <$> forest) ≡ₚ [cat; ann; ben; dan])
      /\ (forall e, e ∈ [cat; ann; ben; dan] ->
           (e ∈ root <$> forest
            <-> manager_id e = None \/ manager_id e = Some ""
                \/ forall m, m ∈ [cat; ann; ben; dan] -> manager_id e <> Some (id m)))
      /\ (forall e, e ∈ [cat; ann; ben; dan] -> e ∉ root <$> forest ->
           exists m t,
             m ∈ [cat; ann; ben; dan] /\ manager_id e = Some (id m)
             /\ t ∈ concat (nodes <$> forest)
             /\ root t = m /\ e ∈ root <$> subs t).
Proof.
  assert (NoDup (id <$> [cat; ann; ben; dan])) as Hnd
    by (apply (bool_decide_unpack _); vm_compute; exact I).
  assert (acyclic [cat; ann; ben; dan]) as Hacyc
    by (apply acyclicb_acyclic; reflexivity).
  split; [exact Hnd|]. split; [exact Hacyc|].
  exact (buildHierarchyTree_forest [cat; ann; ben; dan] [] Hnd Hacyc).
Defined.

(** C8, as stated, fails in three ways. With the same id twice and no
    manager anywhere, the later employee appears twice and the earlier one
    not at all. With a search term, employees that do not match are left
    out. With an employee whose id is the empty text, a report naming that
    id is a root although its [manager_id] matches an id of the list. *)
Lemma buildHierarchyTree_not_once :
  (acyclic [ann; ann_again]
   /\ buildHierarchyTree [ann; ann_again] "" []
       = Some [tree_node ann_again []; tree_node ann_again []]
   /\ occurrences ann [tree_node ann_again []; tree_node ann_again []] = 0%nat
   /\ occurrences ann_again [tree_node ann_again []; tree_node ann_again []]
       = 2%nat)
  /\ (NoDup (id <$> [ann; ben]) /\ acyclic [ann; ben]
      /\ buildHierarchyTree [ann; ben] "cto" [] = Some [tree_node ann [tree_node ben []]]
      /\ buildHierarchyTree [ann; ben] "zz" [] = Some []
      /\ occurrences ann [] = 0%nat)
  /\ (NoDup (id <$> [nameless; fay]) /\ acyclic [nameless; fay]
      /\ manager_id fay = Some (id nameless)
      /\ buildHierarchyTree [nameless; fay] "" []
          = Some [tree_node nameless []; tree_node fay []]).
Proof.
  split; [|split].
  - split; [apply acyclicb_acyclic; reflexivity|]. repeat split; reflexivity.
  - split; [apply (bool_decide_unpack _); vm_compute; exact I|].
    split; [apply acyclicb_acyclic; reflexivity|]. repeat split; reflexivity.
  - split; [apply (bool_decide_unpack _); vm_compute; exact I|].
    split; [apply acyclicb_acyclic; reflexivity|]. repeat split; reflexivity.
Qed.

End HierarchyFacts.

(** * Further properties *)

(** ** Invariants of the employees table *)

Section PgTable.
Import Pg.

(** The referential action leaves every column but [manager_id] and
    [updated_at] as it was. *)
Lemma on_delete_set_null_shape env key r r' :
  on_delete_set_null env key r = inr r' ->
  (manager_id r <> Some key /\ r' = r)
  \/ (manager_id r = Some key
      /\ r' = set_updated_at (Some (now env)) (set_manager_id None r)).
Proof.
  unfold on_delete_set_null. case_bool_decide as Hm.
  - unfold before_update, check_manager_not_self. simpl.
    intros [= <-]. right. done.
  - intros [= <-]. left. done.
Qed.

Lemma on_delete_set_null_total env key r :
  exists r', on_delete_set_null env key r = inr r'.
Proof.
  unfold on_delete_set_null. case_bool_decide; [|eauto].
  unfold before_update, check_manager_not_self. simpl. eauto.
Qed.

Lemma map_sum_total env key rows :
  exists rows', map_sum (on_delete_set_null env key) rows = inr rows'.
Proof.
  induction rows as [|r rows [rows' IH]]; simpl; [eauto|].
  destruct (on_delete_set_null_total env key r) as [r' ->]. simpl.
  rewrite IH. simpl. eauto.
Qed.

Lemma map_sum_Forall2 env key rows rows' :
  map_sum (on_delete_set_null env key) rows = inr rows' ->
  Forall2 (fun r r' => on_delete_set_null env key r = inr r') rows rows'.
Proof.
  revert rows'. induction rows as [|r rows IH]; intros rows'; simpl.
  - intros [= <-]. constructor.
  - intros Hm. apply bind_inr in Hm as (r' & Hr & Hm).
    apply bind_inr in Hm as (rest & Hrest & Hm). injection Hm as <-.
    constructor; [done | by apply IH].
Qed.

Lemma map_sum_column {A} (column : Row -> A) env key rows rows' :
  (forall v w r, column (set_updated_at v (set_manager_id w r)) = column r) ->
  map_sum (on_delete_set_null env key) rows = inr rows' ->
  column <$> rows' = column <$> rows.
Proof.
  intros Hcol Hm. apply map_sum_Forall2 in Hm.
  induction Hm as [|r r' rows rows' Hr _ IH]; [reflexivity|].
  rewrite !fmap_cons, IH. f_equal.
  apply on_delete_set_null_shape in Hr as [[_ ->]|[_ ->]]; [reflexivity|apply Hcol].
Qed.

Lemma map_sum_elem env key rows rows' r' :
  map_sum (on_delete_set_null env key) rows = inr rows' -> r' ∈ rows' ->
  exists r, r ∈ rows /\ on_delete_set_null env key r = inr r'.
Proof.
  intros Hm Hin. apply map_sum_Forall2 in Hm.
  induction Hm as [|r r0 rows rows' Hr _ IH]; [by apply elem_of_nil in Hin|].
  apply elem_of_cons in Hin as [->|Hin].
  - exists r. split; [by left | done].
  - destruct (IH Hin) as (r1 & ? & ?). exists r1. split; [by right | done].
Qed.

Lemma map_sum_elem_of env key rows rows' r :
  map_sum (on_delete_set_null env key) rows = inr rows' -> r ∈ rows ->
  exists r', r' ∈ rows' /\ on_delete_set_null env key r = inr r'.
Proof.
  intros Hm Hin. apply map_sum_Forall2 in Hm.
  induction Hm as [|r0 r' rows rows' Hr _ IH]; [by apply elem_of_nil in Hin|].
  apply elem_of_cons in Hin as [->|Hin].
  - exists r'. split; [by left | done].
  - destruct (IH Hin) as (r1 & ? & ?). exists r1. split; [by right | done].
Qed.

(** What the three statements do to the list of tuples. *)
Lemma insert_inv env values db db' :
  insert env values db = inr db' ->
  exists NEW,
    before_insert (apply_defaults env values) = inr NEW
    /\ check_row NEW = inr tt
    /\ check_unique (employees db) NEW = inr tt
    /\ check_foreign_keys (auth_users db) (employees db ++ [NEW]) NEW = inr tt
    /\ db' = mkDatabase (auth_users db) (employees db ++ [NEW]).
Proof.
  unfold insert. intros Hi.
  apply bind_inr in Hi as (typed & Htyped & Hi).
  apply coerce_inr in Htyped as [-> _].
  apply bind_inr in Hi as (NEW & Htrig & Hi).
  apply bind_inr in Hi as ([] & Hrow & Hi).
  apply bind_inr in Hi as ([] & Huniq & Hi).
  apply bind_inr in Hi as ([] & Hfk & Hi). injection Hi as <-.
  exists NEW. done.
Qed.

Lemma update_inv env set key db db' :
  update env set key db = inr db' ->
  db' = db
  \/ exists i OLD NEW,
       employees db !! i = Some OLD
       /\ before_update (now env) (set OLD) = inr NEW
       /\ check_row NEW = inr tt
       /\ check_unique (delete i (employees db)) NEW = inr tt
       /\ check_foreign_keys (auth_users db) (<[i:=NEW]> (employees db)) NEW = inr tt
       /\ still_referenced OLD NEW (delete i (employees db)) = inr tt
       /\ db' = mkDatabase (auth_users db) (<[i:=NEW]> (employees db)).
Proof.
  unfold update. intros Hu.
  destruct (find_key key (employees db)) as [i|]; [|left; by injection Hu].
  destruct (employees db !! i) as [OLD|] eqn:Hold; [|left; by injection Hu].
  apply bind_inr in Hu as (typed & Htyped & Hu).
  apply coerce_inr in Htyped as [-> _].
  apply bind_inr in Hu as (NEW & Htrig & Hu).
  apply bind_inr in Hu as ([] & Hrow & Hu).
  apply bind_inr in Hu as ([] & Huniq & Hu).
  apply bind_inr in Hu as ([] & Hfk & Hu).
  apply bind_inr in Hu as ([] & Href & Hu). injection Hu as <-.
  right. exists i, OLD, NEW. done.
Qed.

Lemma delete_inv env key db db' :
  delete_row env key db = inr db' ->
  exists rows,
    map_sum (on_delete_set_null env key)
      (filter (fun r => id r <> Some key) (employees db)) = inr rows
    /\ db' = mkDatabase (auth_users db) rows.
Proof.
  unfold delete_row. intros Hd.
  apply bind_inr in Hd as (rows & Hrows & Hd). injection Hd as <-. eauto.
Qed.

Lemma list_insert_elem {A} (l : list A) i x y :
  y ∈ <[i:=x]> l -> y = x \/ y ∈ delete i l.
Proof.
  destruct (l !! i) as [z|] eqn:Hi.
  - rewrite insert_take_drop by (by eapply lookup_lt_Some).
    rewrite delete_take_drop.
    intros [Hy|[->|Hy]%elem_of_cons]%elem_of_app; [right|by left|right];
      apply elem_of_app; [by left | by right].
  - apply lookup_ge_None in Hi. rewrite list_insert_ge by done.
    rewrite delete_take_drop, take_ge, drop_ge, app_nil_r by lia. by right.
Qed.

Lemma list_delete_elem {A} (l : list A) i y : y ∈ delete i l -> y ∈ l.
Proof. intros Hy. eapply elem_of_sublist; [exact Hy | apply sublist_delete]. Qed.

Lemma before_update_shape now r NEW :
  before_update now r = inr NEW ->
  NEW = set_updated_at (Some now) r
  /\ ~ (exists k, id r = Some k /\ manager_id r = Some k).
Proof.
  unfold before_update. intros Hb.
  apply bind_inr in Hb as (r1 & Hc & Ht).
  unfold check_manager_not_self in Hc.
  destruct (sql_if _) eqn:Hif; [discriminate|].
  injection Hc as <-. injection Ht as <-. split; [done|].
  intros (k & Hid & Hm).
  assert (sql_if (sql_eq (manager_id r) (id r)) = true) as Htrue
    by (apply sql_if_eq_true; eauto).
  congruence.
Qed.

Lemma check_unique_inv others NEW :
  check_unique others NEW = inr tt ->
  unique_key "employees_pkey" id others NEW = inr tt
  /\ unique_key "employees_employee_number_key" employee_number others NEW = inr tt
  /\ unique_key "employees_email_key" email others NEW = inr tt.
Proof.
  unfold check_unique. intros Hu.
  apply bind_inr in Hu as ([] & H1 & Hu).
  apply bind_inr in Hu as ([] & H2 & H3). done.
Qed.

(** [check_row] spelled out. *)
Lemma check_row_spec r :
  check_row r = inr tt <->
  is_Some (id r) /\ is_Some (employee_number r) /\ is_Some (first_name r)
  /\ is_Some (last_name r) /\ is_Some (birth_date r) /\ is_Some (role r)
  /\ exists c, salary r = Some c /\ 0 <= c < 10 ^ 12.
Proof.
  unfold check_row, salary_in_range, salary_check, require_not_null. split.
  - intros Hc.
    destruct (salary r) as [c|]; simpl in Hc;
      [destruct (Z.abs c <? 10 ^ 12) eqn:Hrange; simpl in Hc; [|discriminate]|];
      destruct (id r), (employee_number r), (first_name r), (last_name r),
        (birth_date r), (role r); simpl in Hc; try discriminate.
    destruct (0 <=? c) eqn:Hpos; [|discriminate].
    repeat (split; [eauto|]). exists c. split; [done|]. lia.
  - intros ([? ->] & [? ->] & [? ->] & [? ->] & [? ->] & [? ->] & c & -> & Hc).
    simpl. replace (Z.abs c <? 10 ^ 12) with true by lia. simpl.
    replace (0 <=? c) with true by lia. reflexivity.
Qed.

Lemma reachable_rows_checked db r :
  reachable db -> r ∈ employees db -> check_row r = inr tt.
Proof.
  intros Hreach. revert r.
  induction Hreach as [users|env stmt db db' _ IH Hexec]; intros r Hr.
  { by apply elem_of_nil in Hr. }
  destruct stmt as [values|set key|key]; simpl in Hexec.
  - apply insert_inv in Hexec as (NEW & _ & Hrow & _ & _ & ->). simpl in Hr.
    apply elem_of_app in Hr as [Hr| ->%list_elem_of_singleton]; [by apply IH|done].
  - apply update_inv in Hexec as [->|(i & OLD & NEW & _ & _ & Hrow & _ & _ & _ & ->)];
      [by apply IH|].
    simpl in Hr. apply list_insert_elem in Hr as [->|Hr]; [done|].
    apply list_delete_elem in Hr. by apply IH.
  - apply delete_inv in Hexec as (rows & Hrows & ->). simpl in Hr.
    destruct (map_sum_elem _ _ _ _ _ Hrows Hr) as (r0 & Hr0 & Hshape).
    apply list_elem_of_filter in Hr0 as [_ Hr0].
    apply on_delete_set_null_shape in Hshape as [[_ ->]|[_ ->]];
      [by apply IH|].
    rewrite <- (IH r0 Hr0). reflexivity.
Qed.

Lemma reachable_unique_ids db :
  reachable db -> NoDup (id <$> employees db).
Proof.
  induction 1 as [users|env stmt db db' _ IH Hexec]; [apply NoDup_nil_2|].
  destruct stmt as [values|set key|key]; simpl in Hexec.
  - apply insert_inv in Hexec as (NEW & _ & Hrow & Huniq & _ & ->). simpl.
    apply check_row_spec in Hrow as ([v Hv] & _).
    apply check_unique_inv in Huniq as (Hpk & _ & _).
    rewrite fmap_app. apply NoDup_app. split; [done|]. split.
    + simpl. intros x Hx ->%list_elem_of_singleton. rewrite Hv in Hx.
      by eapply unique_key_fresh.
    + simpl. apply NoDup_singleton.
  - apply update_inv in Hexec as [->|(i & OLD & NEW & _ & _ & Hrow & Huniq & _ & _ & ->)];
      [done|]. simpl.
    apply check_row_spec in Hrow as ([v Hv] & _).
    apply check_unique_inv in Huniq as (Hpk & _ & _).
    rewrite list_fmap_insert. apply NoDup_list_insert; [done|].
    rewrite <- list_fmap_delete, Hv. by eapply unique_key_fresh.
  - apply delete_inv in Hexec as (rows & Hrows & ->). simpl.
    rewrite (map_sum_column id _ _ _ _ (fun _ _ _ => eq_refl) Hrows).
    eapply sublist_NoDup; [exact IH | apply fmap_sublist, sublist_filter].
Qed.

Lemma NoDup_omap_filter {A B} (f : A -> option B) (P : A -> Prop)
    `{!forall x, Decision (P x)} (l : list A) :
  NoDup (omap f l) -> NoDup (omap f (filter P l)).
Proof.
  induction l as [|x l IH]; [done|]. intros Hnd. cbn [omap list_omap] in Hnd.
  assert (NoDup (omap f l)) as Hl
    by (destruct (f x); [by apply NoDup_cons in Hnd as [_ ?] | done]).
  rewrite filter_cons. case_decide; [|by apply IH].
  cbn [omap list_omap]. destruct (f x) as [v|] eqn:Hfx; [|by apply IH].
  apply NoDup_cons in Hnd as [Hv _]. apply NoDup_cons. split; [|by apply IH].
  intros Hin. apply Hv. apply list_elem_of_omap in Hin as (y & Hy & Hfy).
  apply list_elem_of_filter in Hy as [_ Hy].
  apply list_elem_of_omap. eauto.
Qed.

Lemma NoDup_omap_insert {A B} (f : A -> option B) (l : list A) i x :
  NoDup (omap f l) ->
  (forall v, f x = Some v -> Some v ∉ f <$> delete i l) ->
  NoDup (omap f (<[i:=x]> l)).
Proof.
  intros Hl Hx. destruct (l !! i) as [y|] eqn:Hi.
  - rewrite insert_take_drop by (by eapply lookup_lt_Some).
    rewrite delete_take_drop in Hx.
    rewrite <- (take_drop_middle l i y Hi) in Hl.
    rewrite omap_app in Hl. rewrite omap_app.
    cbn [omap list_omap] in *.
    apply NoDup_app in Hl as (Ht & Hdisj & Hd).
    assert (NoDup (omap f (drop (S i) l))) as Hd'
      by (destruct (f y); [by apply NoDup_cons in Hd as [_ ?] | done]).
    assert (forall z, z ∈ omap f (take i l) -> z ∉ omap f (drop (S i) l)) as Hdisj'.
    { intros z Hz Hz'. apply (Hdisj z Hz).
      destruct (f y); [by right | done]. }
    destruct (f x) as [v|] eqn:Hfx.
    + assert ((v ∉ omap f (take i l)) /\ (v ∉ omap f (drop (S i) l))) as [Hv1 Hv2].
      { split; intros Hin; apply list_elem_of_omap in Hin as (z & Hz & Hfz);
          apply (Hx v eq_refl); rewrite fmap_app, elem_of_app;
          [left|right]; rewrite <- Hfz; by apply list_elem_of_fmap_2. }
      apply NoDup_app. split; [done|]. split.
      * intros z Hz [->|Hz']%elem_of_cons; [done | by apply (Hdisj' z)].
      * by apply NoDup_cons.
    + apply NoDup_app. done.
  - apply lookup_ge_None in Hi. by rewrite list_insert_ge.
Qed.

Lemma map_sum_omap {A} (column : Row -> option A) env key rows rows' :
  (forall v w r, column (set_updated_at v (set_manager_id w r)) = column r) ->
  map_sum (on_delete_set_null env key) rows = inr rows' ->
  omap column rows' = omap column rows.
Proof.
  intros Hcol Hm. apply map_sum_Forall2 in Hm.
  induction Hm as [|r r' rows rows' Hr _ IH]; [reflexivity|].
  cbn [omap list_omap]. rewrite IH.
  apply on_delete_set_null_shape in Hr as [[_ ->]|[_ ->]];
    [reflexivity | by rewrite Hcol].
Qed.

Lemma reachable_unique_emails db :
  reachable db -> NoDup (omap email (employees db)).
Proof.
  induction 1 as [users|env stmt db db' _ IH Hexec]; [apply NoDup_nil_2|].
  destruct stmt as [values|set key|key]; simpl in Hexec.
  - apply insert_inv in Hexec as (NEW & _ & _ & Huniq & _ & ->). simpl.
    apply check_unique_inv in Huniq as (_ & _ & Hem).
    rewrite omap_app. cbn [omap list_omap].
    destruct (email NEW) as [v|] eqn:Hv; [|by rewrite app_nil_r].
    apply NoDup_app. split; [done|]. split; [|apply NoDup_singleton].
    intros x Hx ->%list_elem_of_singleton.
    apply list_elem_of_omap in Hx as (y & Hy & Hfy).
    eapply (unique_key_fresh _ email); [exact Hem | exact Hv |].
    rewrite <- Hfy. by apply list_elem_of_fmap_2.
  - apply update_inv in Hexec as [->|(i & OLD & NEW & _ & _ & _ & Huniq & _ & _ & ->)];
      [done|]. simpl.
    apply check_unique_inv in Huniq as (_ & _ & Hem).
    apply NoDup_omap_insert; [done|]. intros v Hv.
    by eapply unique_key_fresh.
  - apply delete_inv in Hexec as (rows & Hrows & ->). simpl.
    rewrite (map_sum_omap email _ _ _ _ (fun _ _ _ => eq_refl) Hrows).
    by apply NoDup_omap_filter.
Qed.

Lemma NoDup_omap_lookup {A B} (f : A -> option B) (l : list A) i j x y v :
  NoDup (omap f l) -> l !! i = Some x -> l !! j = Some y ->
  f x = Some v -> f y = Some v -> i = j.
Proof.
  revert i j. induction l as [|z l IH]; intros i j Hnd Hi Hj Hx Hy;
    [discriminate|].
  cbn [omap list_omap] in Hnd.
  assert (NoDup (omap f l)) as Hl
    by (destruct (f z); [by apply NoDup_cons in Hnd as [_ ?] | done]).
  assert (forall k w, l !! k = Some w -> f w = Some v -> f z = Some v -> False)
    as Hhead.
  { intros k w Hk Hw Hz. rewrite Hz in Hnd. apply NoDup_cons in Hnd as [Hv _].
    apply Hv, list_elem_of_omap. exists w.
    split; [by eapply list_elem_of_lookup_2 | done]. }
  destruct i as [|i], j as [|j]; simpl in Hi, Hj.
  - reflexivity.
  - injection Hi as ->. exfalso. by apply (Hhead j y).
  - injection Hj as ->. exfalso. by apply (Hhead i x).
  - f_equal. by apply IH.
Qed.

Lemma reachable_not_self_managed db r :
  reachable db -> r ∈ employees db ->
  ~ (exists k, id r = Some k /\ manager_id r = Some k).
Proof.
  intros Hreach. revert r.
  induction Hreach as [users|env stmt db db' _ IH Hexec]; intros r Hr.
  { by apply elem_of_nil in Hr. }
  destruct stmt as [values|set key|key]; simpl in Hexec.
  - apply insert_inv in Hexec as (NEW & Htrig & _ & _ & _ & ->). simpl in Hr.
    apply elem_of_app in Hr as [Hr| ->%list_elem_of_singleton]; [by apply IH|].
    unfold before_insert, check_manager_not_self in Htrig.
    destruct (sql_if _) eqn:Hif; [discriminate|]. injection Htrig as <-.
    intros (k & Hid & Hm).
    assert (sql_if (sql_eq (manager_id (apply_defaults env values))
                      (id (apply_defaults env values))) = true) as Htrue
      by (apply sql_if_eq_true; eauto).
    congruence.
  - apply update_inv in Hexec as [->|(i & OLD & NEW & _ & Htrig & _ & _ & _ & _ & ->)];
      [by apply IH|].
    simpl in Hr. apply list_insert_elem in Hr as [->|Hr].
    + apply before_update_shape in Htrig as [-> Hnot]. exact Hnot.
    + apply list_delete_elem in Hr. by apply IH.
  - apply delete_inv in Hexec as (rows & Hrows & ->). simpl in Hr.
    destruct (map_sum_elem _ _ _ _ _ Hrows Hr) as (r0 & Hr0 & Hshape).
    apply list_elem_of_filter in Hr0 as [_ Hr0].
    apply on_delete_set_null_shape in Hshape as [[_ ->]|[_ ->]];
      [by apply IH|].
    intros (k & _ & Hm). discriminate Hm.
Qed.

Lemma check_foreign_keys_inv users rows NEW :
  check_foreign_keys users rows NEW = inr tt ->
  (forall k, manager_id NEW = Some k -> Some k ∈ id <$> rows)
  /\ (forall u, created_by NEW = Some u -> u ∈ users).
Proof.
  unfold check_foreign_keys, references. intros Hfk.
  apply bind_inr in Hfk as ([] & Hm & Hc). split.
  - intros k Hk. rewrite Hk in Hm. by case_bool_decide.
  - intros u Hu. rewrite Hu in Hc. case_bool_decide as Hin; [|discriminate].
    by apply list_elem_of_fmap in Hin as (x & [= ->] & Hx).
Qed.

Lemma reachable_users db db' env stmt :
  exec env stmt db = inr db' -> auth_users db' = auth_users db.
Proof.
  destruct stmt as [values|set key|key]; simpl; intros Hexec.
  - by apply insert_inv in Hexec as (NEW & _ & _ & _ & _ & ->).
  - by apply update_inv in Hexec as [->|(i & OLD & NEW & _ & _ & _ & _ & _ & _ & ->)].
  - by apply delete_inv in Hexec as (rows & _ & ->).
Qed.

Lemma reachable_foreign_keys db r :
  reachable db -> r ∈ employees db ->
  (forall k, manager_id r = Some k -> Some k ∈ id <$> employees db)
  /\ (forall u, created_by r = Some u -> u ∈ auth_users db).
Proof.
  intros Hreach. revert r.
  induction Hreach as [users|env stmt db db' _ IH Hexec]; intros r Hr.
  { by apply elem_of_nil in Hr. }
  destruct stmt as [values|set key|key]; simpl in Hexec.
  - apply insert_inv in Hexec as (NEW & _ & _ & _ & Hfk & ->). simpl in *.
    apply check_foreign_keys_inv in Hfk as [Hman Hby].
    apply elem_of_app in Hr as [Hr| ->%list_elem_of_singleton]; [|done].
    destruct (IH r Hr) as [H1 H2]. split; [|done].
    intros k Hk. rewrite fmap_app. apply elem_of_app. left. by apply H1.
  - apply update_inv in Hexec
      as [->|(i & OLD & NEW & Hold & _ & _ & _ & Hfk & Href & ->)];
      [by apply IH|].
    simpl in *. apply check_foreign_keys_inv in Hfk as [Hman Hby].
    apply list_insert_elem in Hr as [->|Hr]; [done|].
    destruct (IH r (list_delete_elem _ _ _ Hr)) as [H1 H2]. split; [|done].
    intros k Hk. specialize (H1 k Hk).
    apply list_elem_of_lookup in H1 as [j Hj].
    rewrite list_lookup_fmap in Hj.
    destruct (employees db !! j) as [y|] eqn:Hy; [|discriminate].
    simpl in Hj. injection Hj as Hj.
    destruct (decide (i = j)) as [->|Hne].
    + assert (y = OLD) as -> by congruence.
      unfold still_referenced in Href.
      case_bool_decide as Hsame.
      * apply (list_elem_of_lookup_2 _ j). rewrite list_lookup_fmap.
        rewrite list_lookup_insert_eq by (by eapply lookup_lt_Some).
        simpl. congruence.
      * case_bool_decide as Hstill; [discriminate|]. exfalso. apply Hstill.
        split; [rewrite Hj; eauto|]. rewrite Hj, <- Hk.
        by apply list_elem_of_fmap_2.
    + apply (list_elem_of_lookup_2 _ j). rewrite list_lookup_fmap.
      rewrite list_lookup_insert_ne by done. by rewrite Hy, <- Hj.
  - apply delete_inv in Hexec as (rows & Hrows & ->). simpl in *.
    destruct (map_sum_elem _ _ _ _ _ Hrows Hr) as (r0 & Hr0 & Hshape).
    apply list_elem_of_filter in Hr0 as [_ Hr0].
    destruct (IH r0 Hr0) as [H1 H2].
    apply on_delete_set_null_shape in Hshape as [[Hnot ->]|[_ ->]];
      [|split; [discriminate | exact H2]].
    split; [|done]. intros k Hk. specialize (H1 k Hk).
    rewrite (map_sum_column id _ _ _ _ (fun _ _ _ => eq_refl) Hrows).
    apply list_elem_of_fmap in H1 as (y & Hid & Hy).
    rewrite Hid. apply list_elem_of_fmap_2, list_elem_of_filter.
    split; [|done]. congruence.
Qed.

Lemma staffed_db_reachable : reachable Fixtures.staffed_db.
Proof.
  apply (reachable_exec sample_env (Insert sample_report) sample_db);
    [|reflexivity].
  apply (reachable_exec (mkEnv 10 "u1") (Insert sample_manager) (mkDatabase [] []));
    [apply reachable_empty | reflexivity].
Qed.

(** X1. In every table that statements produce from an empty one, every row
    has a primary key and no two rows have the same one. *)
Theorem primary_key_unique db :
  reachable db ->
  (forall r, r ∈ employees db -> is_Some (id r))
  /\ (forall i j r1 r2,
       employees db !! i = Some r1 -> employees db !! j = Some r2 ->
       id r1 = id r2 -> i = j).
Proof.
  intros Hreach. split.
  - intros r Hr. by apply (reachable_rows_checked db r Hreach), check_row_spec in Hr
      as (? & _).
  - intros i j r1 r2 Hi Hj Heq.
    eapply (proj1 (NoDup_alt _) (reachable_unique_ids db Hreach) i j (id r1));
      rewrite list_lookup_fmap; [by rewrite Hi | by rewrite Hj, Heq].
Qed.

Lemma primary_key_unique_witness :
  (forall r, r ∈ employees Fixtures.staffed_db -> is_Some (id r))
  /\ (forall i j r1 r2,
       employees Fixtures.staffed_db !! i = Some r1 ->
       employees Fixtures.staffed_db !! j = Some r2 ->
       id r1 = id r2 -> i = j).
Proof. exact (primary_key_unique Fixtures.staffed_db staffed_db_reachable). Defined.

(** X2. Every stored row satisfies the column constraints: the columns
    declared NOT NULL hold a value, and the salary is a non-negative amount
    that fits [DECIMAL(12, 2)]. *)
Theorem stored_rows_satisfy_constraints db r :
  reachable db -> r ∈ employees db ->
  is_Some (id r) /\ is_Some (employee_number r) /\ is_Some (first_name r)
  /\ is_Some (last_name r) /\ is_Some (birth_date r) /\ is_Some (role r)
  /\ exists c, salary r = Some c /\ 0 <= c < 10 ^ 12.
Proof.
  intros Hreach Hr. by apply check_row_spec, (reachable_rows_checked db).
Qed.

Lemma stored_rows_satisfy_constraints_witness :
  is_Some (id sample_manager) /\ is_Some (employee_number sample_manager)
  /\ is_Some (first_name sample_manager) /\ is_Some (last_name sample_manager)
  /\ is_Some (birth_date sample_manager) /\ is_Some (role sample_manager)
  /\ exists c, salary sample_manager = Some c /\ 0 <= c < 10 ^ 12.
Proof.
  apply (stored_rows_satisfy_constraints Fixtures.staffed_db sample_manager
           staffed_db_reachable).
  by left.
Defined.

Lemma bind_inl {E A C} (m : E + A) (f : A -> E + C) e :
  m ≫= f = inl e -> m = inl e \/ exists x, m = inr x /\ f x = inl e.
Proof. destruct m as [e'|x]; simpl; [intros [= ->]; by left | eauto]. Qed.

(** Where an error of a statement can come from. *)
Lemma coerce_inl values e : coerce values = inl e -> e = NumericOverflow "salary".
Proof.
  unfold coerce, salary_in_range. destruct (salary values) as [c|]; [|done].
  destruct (Z.abs c <? 10 ^ 12); simpl; [done | by intros [= <-]].
Qed.

Lemma before_insert_inl r e :
  before_insert r = inl e -> e = RaisedException self_manager_message.
Proof.
  unfold before_insert, check_manager_not_self.
  destruct (sql_if _); [by intros [= <-] | done].
Qed.

Lemma before_update_inl now r e :
  before_update now r = inl e -> e = RaisedException self_manager_message.
Proof.
  unfold before_update, check_manager_not_self.
  destruct (sql_if _); simpl; [by intros [= <-] | done].
Qed.

Lemma check_row_inl r e constraint :
  check_row r = inl e -> e <> UniqueViolation constraint.
Proof.
  unfold check_row, salary_in_range, salary_check, require_not_null.
  destruct (salary r) as [c|]; [destruct (Z.abs c <? 10 ^ 12)|]; simpl;
    try (intros [= <-]; discriminate);
    (destruct (id r); simpl; [|intros [= <-]; discriminate]);
    (destruct (employee_number r); simpl; [|intros [= <-]; discriminate]);
    (destruct (first_name r); simpl; [|intros [= <-]; discriminate]);
    (destruct (last_name r); simpl; [|intros [= <-]; discriminate]);
    (destruct (birth_date r); simpl; [|intros [= <-]; discriminate]);
    try (intros [= <-]; discriminate);
    (destruct (role r); simpl; [|intros [= <-]; discriminate]);
    destruct (0 <=? c); intros [= <-]; discriminate.
Qed.

Lemma check_unique_inl others NEW e :
  check_unique others NEW = inl e -> email NEW = None ->
  e <> UniqueViolation "employees_email_key".
Proof.
  unfold check_unique, unique_key. intros He Hnull. rewrite Hnull in He.
  destruct (id NEW) as [k|]; simpl in He;
    [case_bool_decide; simpl in He; [injection He as <-; discriminate|]|];
    (destruct (employee_number NEW) as [n|]; simpl in He;
     [case_bool_decide; simpl in He; [injection He as <-; discriminate|]|]);
    discriminate He.
Qed.

Lemma check_foreign_keys_inl users rows NEW e constraint :
  check_foreign_keys users rows NEW = inl e -> e <> UniqueViolation constraint.
Proof.
  unfold check_foreign_keys, references.
  destruct (manager_id NEW) as [m|]; simpl;
    [case_bool_decide; simpl; [|intros [= <-]; discriminate]|];
    (destruct (created_by NEW) as [u|]; simpl;
     [case_bool_decide; simpl; [|intros [= <-]; discriminate]|]);
    discriminate.
Qed.

Lemma still_referenced_inl OLD NEW others e constraint :
  still_referenced OLD NEW others = inl e -> e <> UniqueViolation constraint.
Proof.
  unfold still_referenced. repeat case_bool_decide; try discriminate.
  intros [= <-]. discriminate.
Qed.

Lemma insert_null_email env values db :
  email values = None ->
  insert env values db <> inl (UniqueViolation "employees_email_key").
Proof.
  intros Hnull He. unfold insert in He.
  apply bind_inl in He as [He|(typed & Htyped & He)];
    [by apply coerce_inl in He|].
  apply coerce_inr in Htyped as [-> _].
  apply bind_inl in He as [He|(NEW & Htrig & He)];
    [by apply before_insert_inl in He|].
  assert (email NEW = None) as Hnew.
  { unfold before_insert, check_manager_not_self in Htrig.
    destruct (sql_if _); [done|]. by injection Htrig as <-. }
  apply bind_inl in He as [He|([] & _ & He)];
    [by apply check_row_inl with (constraint := "employees_email_key") in He|].
  apply bind_inl in He as [He|([] & _ & He)];
    [by apply check_unique_inl in He|].
  apply bind_inl in He as [He|([] & _ & He)]; [|done].
  by apply check_foreign_keys_inl with (constraint := "employees_email_key") in He.
Qed.

Lemma update_null_email env set key db :
  (forall OLD, OLD ∈ employees db -> email (set OLD) = None) ->
  update env set key db <> inl (UniqueViolation "employees_email_key").
Proof.
  intros Hnull He. unfold update in He.
  destruct (find_key key (employees db)) as [i|]; [|done].
  destruct (employees db !! i) as [OLD|] eqn:Hold; [|done].
  apply bind_inl in He as [He|(typed & Htyped & He)];
    [by apply coerce_inl in He|].
  apply coerce_inr in Htyped as [-> _].
  apply bind_inl in He as [He|(NEW & Htrig & He)];
    [by apply before_update_inl in He|].
  assert (email NEW = None) as Hnew.
  { apply before_update_shape in Htrig as [-> _]. simpl.
    apply Hnull. by eapply list_elem_of_lookup_2. }
  apply bind_inl in He as [He|([] & _ & He)];
    [by apply check_row_inl with (constraint := "employees_email_key") in He|].
  apply bind_inl in He as [He|([] & _ & He)];
    [by apply check_unique_inl in He|].
  apply bind_inl in He as [He|([] & _ & He)];
    [by apply check_foreign_keys_inl with (constraint := "employees_email_key") in He|].
  apply bind_inl in He as [He|([] & _ & He)]; [|done].
  by apply still_referenced_inl with (constraint := "employees_email_key") in He.
Qed.

Lemma team_db_reachable : reachable Fixtures.team_db.
Proof.
  apply (reachable_exec sample_env (Insert Fixtures.dee)
           (mkDatabase []
              [sample_manager; apply_defaults sample_env sample_report;
               apply_defaults sample_env Fixtures.clerk])); [|reflexivity].
  apply (reachable_exec sample_env (Insert Fixtures.clerk) Fixtures.staffed_db);
    [apply staffed_db_reachable | reflexivity].
Qed.

(** X3. Two different stored rows never have the same e-mail address, and
    an insert that gives a new row the address of a stored row is refused.
    Rows without an address never conflict: a statement whose new row has a
    NULL e-mail never fails on the unique index of the column, however many
    stored rows have a NULL e-mail. *)
Theorem email_unique db :
  reachable db ->
  (forall i j r1 r2,
     employees db !! i = Some r1 -> employees db !! j = Some r2 ->
     i <> j -> is_Some (email r1) -> email r1 <> email r2)
  /\ (forall env values r,
        r ∈ employees db -> is_Some (email r) -> email values = email r ->
        exists e, exec env (Insert values) db = inl e)
  /\ (forall env values,
        email values = None ->
        exec env (Insert values) db
          <> inl (UniqueViolation "employees_email_key"))
  /\ (forall env set key,
        (forall OLD, OLD ∈ employees db -> email (set OLD) = None) ->
        exec env (Update set key) db
          <> inl (UniqueViolation "employees_email_key")).
Proof.
  intros Hreach. pose proof (reachable_unique_emails db Hreach) as Hnd.
  split; [|split; [|split]].
  - intros i j r1 r2 Hi Hj Hne [e He] Heq. apply Hne.
    apply (NoDup_omap_lookup email (employees db) i j r1 r2 e Hnd Hi Hj He).
    by rewrite <- Heq.
  - intros env values r Hr [e He] Heq.
    destruct (exec env (Insert values) db) as [err|db'] eqn:Hexec; [eauto|].
    exfalso. simpl in Hexec.
    apply insert_inv in Hexec as (NEW & Htrig & _ & Huniq & _ & _).
    apply check_unique_inv in Huniq as (_ & _ & Hemail).
    assert (email NEW = Some e) as Hnew.
    { unfold before_insert, check_manager_not_self in Htrig.
      destruct (sql_if _); [done|]. injection Htrig as <-. simpl. congruence. }
    eapply unique_key_fresh in Hemail; [|exact Hnew].
    apply Hemail. rewrite <- He. by apply list_elem_of_fmap_2.
  - intros env values Hnull. by apply insert_null_email.
  - intros env set key Hnull. by apply update_null_email.
Qed.

Lemma email_unique_witness :
  (email <$> employees Fixtures.team_db
   = [None; Some "bob@example.com"; None; Some "dee@example.com"])
  /\ email (apply_defaults sample_env sample_report)
     <> email (apply_defaults sample_env Fixtures.dee)
  /\ (exists e,
        exec sample_env (Insert Fixtures.bob_again) Fixtures.team_db = inl e)
  /\ exec sample_env (Insert Fixtures.temp) Fixtures.team_db
     <> inl (UniqueViolation "employees_email_key")
  /\ exec sample_env (Insert Fixtures.temp) Fixtures.team_db
     = inr (mkDatabase []
              (employees Fixtures.team_db
                 ++ [apply_defaults sample_env Fixtures.temp])).
Proof.
  destruct (email_unique Fixtures.team_db team_db_reachable)
    as (Hdiff & Hdup & Hnull & _).
  split; [reflexivity|]. split.
  { apply (Hdiff 1%nat 3%nat); [reflexivity | reflexivity | lia | by eexists]. }
  split.
  { apply (Hdup sample_env Fixtures.bob_again
             (apply_defaults sample_env sample_report));
      [right; by left | by eexists | reflexivity]. }
  split; [by apply Hnull|].
  reflexivity.
Defined.

(** X4. No stored row names itself as its manager, whatever inserts,
    updates and deletes produced the table. *)
Theorem no_row_manages_itself db r :
  reachable db -> r ∈ employees db -> manager_id r <> id r.
Proof.
  intros Hreach Hr Heq.
  destruct (proj1 (check_row_spec r) (reachable_rows_checked db r Hreach Hr))
    as ([k Hk] & _).
  apply (reachable_not_self_managed db r Hreach Hr).
  exists k. split; [done | congruence].
Qed.

Lemma no_row_manages_itself_witness :
  manager_id (apply_defaults sample_env sample_report)
    <> id (apply_defaults sample_env sample_report).
Proof.
  apply (no_row_manages_itself Fixtures.staffed_db _ staffed_db_reachable).
  right. by left.
Defined.

(** X5. References are never dangling: the [manager_id] of a stored row is
    NULL or the key of a stored row, and its [created_by] is NULL or a user
    of [auth.users]. *)
Theorem foreign_keys_hold db r :
  reachable db -> r ∈ employees db ->
  (forall k, manager_id r = Some k ->
     exists m, m ∈ employees db /\ id m = Some k)
  /\ (forall u, created_by r = Some u -> u ∈ auth_users db).
Proof.
  intros Hreach Hr. destruct (reachable_foreign_keys db r Hreach Hr) as [H1 H2].
  split; [|done]. intros k Hk.
  pose proof (H1 k Hk) as Hin.
  apply list_elem_of_fmap in Hin as (m & Hid & Hm). eauto.
Qed.

Lemma foreign_keys_hold_witness :
  (forall k, manager_id (apply_defaults sample_env sample_report) = Some k ->
     exists m, m ∈ employees Fixtures.staffed_db /\ id m = Some k)
  /\ (forall u, created_by (apply_defaults sample_env sample_report) = Some u ->
      u ∈ auth_users Fixtures.staffed_db).
Proof.
  apply (foreign_keys_hold Fixtures.staffed_db _ staffed_db_reachable).
  right. by left.
Defined.

Lemma find_key_None key (rows : list Row) :
  Some key ∉ id <$> rows -> find_key key rows = None.
Proof.
  induction rows as [|r rows IH]; [done|]. rewrite fmap_cons, not_elem_of_cons.
  intros [Hr Hrows]. simpl. case_bool_decide; [congruence|].
  by rewrite IH.
Qed.

Lemma map_sum_unreferenced env key rows :
  (forall r, r ∈ rows -> manager_id r <> Some key) ->
  map_sum (on_delete_set_null env key) rows = inr rows.
Proof.
  induction rows as [|r rows IH]; intros Hrows; [done|].
  assert (on_delete_set_null env key r = inr r) as Hr.
  { unfold on_delete_set_null. rewrite bool_decide_eq_false_2; [done|].
    apply Hrows. by left. }
  cbn [map_sum]. rewrite Hr. simpl.
  rewrite IH; [done|]. intros r' Hr'. apply Hrows. by right.
Qed.

Lemma filter_unkeyed key (rows : list Row) :
  Some key ∉ id <$> rows -> filter (fun r => id r <> Some key) rows = rows.
Proof.
  induction rows as [|r rows IH]; [done|]. rewrite fmap_cons, not_elem_of_cons.
  intros [Hr Hrows]. rewrite filter_cons_True by congruence. by rewrite IH.
Qed.

(** X6. [DELETE] never fails. Afterwards no row has the deleted key, neither
    as its own key nor as its manager; a row that named the deleted one as its
    manager stays with manager NULL and [updated_at] set to the time of the
    statement, and every other row stays as it was. *)
Theorem delete_sets_reports_null env key db :
  exists db',
    delete_row env key db = inr db'
    /\ auth_users db' = auth_users db
    /\ (forall r', r' ∈ employees db' ->
          id r' <> Some key /\ manager_id r' <> Some key)
    /\ (forall r, r ∈ employees db -> id r <> Some key ->
          (if bool_decide (manager_id r = Some key)
           then set_updated_at (Some (now env)) (set_manager_id None r)
           else r) ∈ employees db')
    /\ length (employees db')
       = length (filter (fun r => id r <> Some key) (employees db)).
Proof.
  unfold delete_row.
  destruct (map_sum_total env key
              (filter (fun r => id r <> Some key) (employees db)))
    as [rows Hrows].
  rewrite Hrows. simpl. eexists. split; [done|]. simpl.
  split; [done|]. split; [|split].
  - intros r' Hr'.
    destruct (map_sum_elem _ _ _ _ _ Hrows Hr') as (r & Hr & Hnull).
    apply list_elem_of_filter in Hr as [Hid _].
    apply on_delete_set_null_shape in Hnull as [[? ->]|[_ ->]]; [done|].
    by destruct r.
  - intros r Hr Hid.
    destruct (map_sum_elem_of _ _ _ _ r Hrows) as (r' & Hr' & Hnull).
    { by apply list_elem_of_filter. }
    apply on_delete_set_null_shape in Hnull as [[? ->]|[? ->]].
    + by rewrite bool_decide_eq_false_2.
    + by rewrite bool_decide_eq_true_2.
  - apply map_sum_Forall2 in Hrows. symmetry. by eapply Forall2_length.
Qed.

Lemma delete_sets_reports_null_witness :
  exists db',
    delete_row sample_env "u1" Fixtures.staffed_db = inr db'
    /\ auth_users db' = auth_users Fixtures.staffed_db
    /\ (forall r', r' ∈ employees db' ->
          id r' <> Some "u1" /\ manager_id r' <> Some "u1")
    /\ (forall r, r ∈ employees Fixtures.staffed_db -> id r <> Some "u1" ->
          (if bool_decide (manager_id r = Some "u1")
           then set_updated_at (Some (now sample_env)) (set_manager_id None r)
           else r) ∈ employees db')
    /\ length (employees db')
       = length (filter (fun r => id r <> Some "u1")
                   (employees Fixtures.staffed_db)).
Proof. exact (delete_sets_reports_null sample_env "u1" Fixtures.staffed_db). Defined.

(** X7. A statement for a key that no row has changes nothing and raises
    nothing, be it an update or a delete. *)
Theorem missing_key_is_noop env key set db :
  reachable db -> Some key ∉ id <$> employees db ->
  run env (Update set key) db = (db, None)
  /\ run env (Delete key) db = (db, None).
Proof.
  intros Hreach Hkey. unfold run, exec. split.
  - unfold update. by rewrite find_key_None.
  - unfold delete_row. rewrite filter_unkeyed by done.
    rewrite map_sum_unreferenced; [by destruct db|].
    intros r Hr Hm.
    destruct (reachable_foreign_keys db r Hreach Hr) as [Hfk _].
    by apply Hkey, Hfk.
Qed.

Lemma missing_key_is_noop_witness :
  run sample_env (Update (set_manager_id None) "u7") Fixtures.staffed_db
    = (Fixtures.staffed_db, None)
  /\ run sample_env (Delete "u7") Fixtures.staffed_db
    = (Fixtures.staffed_db, None).
Proof.
  apply (missing_key_is_noop sample_env "u7" (set_manager_id None)
           Fixtures.staffed_db staffed_db_reachable).
  by vm_compute; intros Hin; repeat (apply elem_of_cons in Hin as [?|Hin];
    [discriminate|]); apply elem_of_nil in Hin.
Defined.

End PgTable.

(** ** The local cache and the list on screen *)

Ltac world_split :=
  repeat (simpl;
    match goal with
    | |- context [Client.send ?r ?q] => destruct (Client.send r q) as [? ?]
    | |- context [match Client.error ?r with _ => _ end] =>
        destruct (Client.error r)
    | |- context [if ?b then _ else _] => destruct b
    end).

Section ClientCache.
Import Client.
Context `{P : Platform} `{B : !Backend}.

Lemma insert_sorted_perm (e : Employee) l : insert_sorted e l ≡ₚ e :: l.
Proof.
  induction l as [|x l IH]; simpl; [done|].
  destruct (String.leb _ _); [done|]. rewrite IH. apply Permutation_swap.
Qed.

Lemma cache_getAll_perm (c : CacheStore) :
  cache_getAll c ≡ₚ (map_to_list c).*2.
Proof.
  unfold cache_getAll. induction ((map_to_list c).*2) as [|x l IH]; simpl; [done|].
  by rewrite insert_sorted_perm, IH.
Qed.

(** [getAll] returns the records of the store, each one once. *)
Lemma elem_of_cache_getAll (c : CacheStore) x :
  x ∈ cache_getAll c <-> exists k, c !! k = Some x.
Proof.
  rewrite cache_getAll_perm, list_elem_of_fmap. split.
  - intros ([k y] & -> & Hin). exists k. simpl.
    exact (proj1 (elem_of_map_to_list (M:=gmap string) c k y) Hin).
  - intros (k & Hk). exists (k, x). split; [done|].
    exact (proj2 (elem_of_map_to_list (M:=gmap string) c k x) Hk).
Qed.

Lemma keyed_NoDup (c : CacheStore) : keyed c -> NoDup (id <$> cache_getAll c).
Proof.
  intros Hkeyed. rewrite cache_getAll_perm, <- list_fmap_compose.
  assert ((id ∘ snd) <$> map_to_list c = (map_to_list c).*1) as ->.
  { apply list_fmap_ext. intros i [k e] Hin. simpl.
    apply Hkeyed. apply (proj1 (elem_of_map_to_list (M:=gmap string) c k e)).
    by eapply list_elem_of_lookup_2. }
  exact (NoDup_fst_map_to_list (M:=gmap string) c).
Qed.

Lemma keyed_empty : keyed ∅.
Proof. intros k e. unfold CacheStore. by rewrite lookup_empty. Qed.

Lemma keyed_insert e (c : gmap string Employee) :
  keyed c -> keyed (<[id e := e]> c).
Proof.
  intros Hkeyed k x. unfold CacheStore in *.
  destruct (decide (k = id e)) as [->|Hne].
  - rewrite lookup_insert_eq. by intros [= <-].
  - rewrite lookup_insert_ne by done. apply Hkeyed.
Qed.

Lemma keyed_delete k (c : gmap string Employee) :
  keyed c -> keyed (base.delete k c).
Proof.
  intros Hkeyed j x Hj. unfold CacheStore in *.
  apply lookup_delete_Some in Hj as [_ Hj]. by apply Hkeyed.
Qed.

Lemma keyed_saved l : keyed (saved l).
Proof.
  unfold saved. induction l as [|e l IH] using rev_ind; [apply keyed_empty|].
  rewrite foldl_snoc. by apply keyed_insert.
Qed.

Lemma saved_lookup l k x :
  saved l !! k = Some x -> x ∈ l.
Proof.
  unfold saved, CacheStore. induction l as [|e l IH] using rev_ind.
  - simpl. by rewrite lookup_empty.
  - rewrite foldl_snoc. destruct (decide (k = id e)) as [->|Hne].
    + rewrite lookup_insert_eq. intros [= <-]. apply elem_of_app. right. by left.
    + rewrite lookup_insert_ne by done. intros Hk. apply elem_of_app. left. auto.
Qed.

Lemma saved_covers l x :
  x ∈ l -> is_Some (saved l !! id x).
Proof.
  unfold saved, CacheStore. induction l as [|e l IH] using rev_ind.
  - intros Hx. by apply elem_of_nil in Hx.
  - rewrite foldl_snoc. intros Hx. destruct (decide (id x = id e)) as [->|Hne].
    + rewrite lookup_insert_eq. eauto.
    + rewrite lookup_insert_ne by done. apply IH.
      apply elem_of_app in Hx as [Hx|Hx]; [done|].
      apply list_elem_of_singleton in Hx. by subst.
Qed.

Lemma saved_NoDup l :
  NoDup (id <$> l) -> map_to_list (saved l) ≡ₚ (fun e => (id e, e)) <$> l.
Proof.
  induction l as [|e l IH] using rev_ind; intros Hnd.
  - unfold saved, CacheStore. simpl. by rewrite map_to_list_empty.
  - rewrite fmap_app in Hnd. apply NoDup_app in Hnd as (Hl & Hfresh & _).
    unfold saved, CacheStore in *.
    rewrite foldl_snoc, fmap_app. simpl.
    rewrite map_to_list_insert.
    + rewrite IH by done. apply Permutation_cons_append.
    + destruct (foldl _ _ _ !! id e) as [x|] eqn:Hx; [|done].
      exfalso. apply (Hfresh (id e)); [|by left].
      apply list_elem_of_fmap. exists x. split.
      * symmetry. by apply (keyed_saved l).
      * by apply (saved_lookup l (id e)).
Qed.

(** How each handler leaves the cache: as it was, replaced by a fetched
    list, or changed by one put or one delete. *)
Lemma fetchEmployees_cache w :
  cache (fetchEmployees w) = cache w
  \/ exists l, cache (fetchEmployees w) = saved l.
Proof.
  unfold fetchEmployees, supabase, saveToCache. world_split;
    solve [by left | right; eexists; reflexivity].
Qed.

Lemma handleDialogClose_cache shouldRefresh w :
  cache (handleDialogClose shouldRefresh w) = cache w
  \/ exists l, cache (handleDialogClose shouldRefresh w) = saved l.
Proof.
  unfold handleDialogClose. destruct shouldRefresh; [|by left].
  match goal with |- context [fetchEmployees ?w] =>
    destruct (fetchEmployees_cache w) as [Hc|[l Hc]] end;
    rewrite Hc; [by left | right; by exists l].
Qed.

Lemma syncPendingOperations_cache w :
  cache (syncPendingOperations w) = cache w
  \/ exists l, cache (syncPendingOperations w) = saved l.
Proof.
  unfold syncPendingOperations.
  destruct (length _ =? 0)%nat; [by left|].
  cbn -[replay fetchEmployees pretty String.app].
  match goal with |- context [replay ?ops ?w0] =>
    destruct (replay_spec ops w0) as (ex & _ & _ & _ & Hc & _);
    destruct (replay ops w0) as [w1 failed] end.
  simpl in Hc. destruct failed as [op|]; [left; exact Hc|].
  match goal with |- context [fetchEmployees ?w] =>
    destruct (fetchEmployees_cache w) as [Hf|[l Hf]] end;
    rewrite Hf; [left; exact Hc | right; by exists l].
Qed.

Lemma handle_cache ev w :
  cache (handle ev w) = cache w
  \/ (exists l, cache (handle ev w) = saved l)
  \/ (exists e, cache (handle ev w) = <[id e := e]> (cache w))
  \/ (exists k, cache (handle ev w) = base.delete k (cache w)).
Proof.
  destruct ev; cbn [handle].
  - unfold handleOnline. destruct (isOnline w); [by left|].
    unfold reconnect_effect. destruct (isOnline _ && _); [|by left].
    destruct (syncPendingOperations_cache (setIsOnline true w)) as [->|[l ->]];
      [by left | right; left; by exists l].
  - by left.
  - left. unfold openDialog, fetchManagers.
    match goal with |- context [supabase ?q ?w] =>
      destruct (supabase_frame q w) as (Hc & _) end.
    by rewrite Hc.
  - left. unfold openDialog, fetchManagers.
    match goal with |- context [supabase ?q ?w] =>
      destruct (supabase_frame q w) as (Hc & _) end.
    by rewrite Hc.
  - destruct (handleDialogClose_cache false w) as [->|[l ->]];
      [by left | right; left; by exists l].
  - unfold handleSubmit. destruct (employeeSchema _ _); [|by left].
    change (cache (setSaving false ?x)) with (cache x).
    change (isOnline (setSaving true w)) with (isOnline w).
    change (selectedEmployee (setSaving true w)) with (selectedEmployee w).
    destruct (selectedEmployee w) as [employee|]; destruct (isOnline w) eqn:Hon.
    + pose proof (supabase_frame
        (update_eq_id (data_values (dataToSubmit formData)) (id employee))
        (setSaving true w)) as (Hc & _).
      destruct (supabase _ _) as [w1 resp]. simpl in Hc.
      destruct (error resp).
      * left. by destruct (Js.includes _ _).
      * match goal with |- context [handleDialogClose true ?x] =>
          destruct (handleDialogClose_cache true x) as [->|[l ->]] end;
          [left; exact Hc | right; left; by exists l].
    + match goal with |- context [handleDialogClose true ?x] =>
        destruct (handleDialogClose_offline x Hon) as (-> & _) end.
      right. right. left. eexists. reflexivity.
    + pose proof (supabase_frame (insert (data_values (dataToSubmit formData)))
        (setSaving true w)) as (Hc & _).
      destruct (supabase _ _) as [w1 resp]. simpl in Hc.
      destruct (error resp).
      * left. by repeat destruct (Js.includes _ _).
      * match goal with |- context [handleDialogClose true ?x] =>
          destruct (handleDialogClose_cache true x) as [->|[l ->]] end;
          [left; exact Hc | right; left; by exists l].
    + match goal with |- context [handleDialogClose true ?x] =>
        destruct (handleDialogClose_offline x Hon) as (-> & _) end.
      right. right. left. eexists. reflexivity.
  - unfold handleDelete. destruct confirmed; [|by left]. simpl negb. cbv iota.
    destruct (List.find _ _) as [employee|]; [|by left].
    destruct (isOnline w) eqn:Hon.
    + pose proof (supabase_frame (delete_eq_id k) w) as (Hc & _).
      destruct (supabase _ _) as [w1 resp]. simpl in Hc.
      destruct (error resp); [left; exact Hc|].
      match goal with |- context [fetchEmployees ?x] =>
        destruct (fetchEmployees_cache x) as [->|[l ->]] end;
        [left; exact Hc | right; left; by exists l].
    + match goal with |- context [fetchEmployees ?x] =>
        destruct (fetchEmployees_offline x Hon) as (-> & _) end.
      right. right. right. by exists k.
Qed.

Lemma handle_keyed ev w : keyed (cache w) -> keyed (cache (handle ev w)).
Proof.
  intros Hkeyed.
  destruct (handle_cache ev w) as [->|[[l ->]|[[e ->]|[k ->]]]];
    [done | apply keyed_saved | by apply keyed_insert | by apply keyed_delete].
Qed.

Lemma mount_keyed r c p online : keyed c -> keyed (cache (mount r c p online)).
Proof.
  intros Hkeyed. unfold mount.
  change (cache (checkPendingOperations ?x)) with (cache x).
  match goal with |- context [fetchEmployees ?x] =>
    destruct (fetchEmployees_cache x) as [->|[l ->]] end;
    [done | apply keyed_saved].
Qed.

Lemma after_keyed evs w : keyed (cache w) -> keyed (cache (after evs w)).
Proof.
  revert w. induction evs as [|ev evs IH]; intros w Hkeyed; [done|].
  apply IH. by apply handle_keyed.
Qed.

(** X8. What [saveToCache] stores is what [getFromCache] reads back: only
    employees of the saved list, one for each [id] of the list, none of the
    records that were in the cache before; when no two employees of the list
    share an [id], the list itself in some order. *)
Theorem cache_round_trip l w :
  (forall x, x ∈ getFromCache (saveToCache l w) -> x ∈ l)
  /\ (forall x, x ∈ l ->
        exists y, y ∈ getFromCache (saveToCache l w) /\ id y = id x)
  /\ NoDup (id <$> getFromCache (saveToCache l w))
  /\ (NoDup (id <$> l) -> getFromCache (saveToCache l w) ≡ₚ l).
Proof.
  change (getFromCache (saveToCache l w)) with (cache_getAll (saved l)).
  split; [|split; [|split]].
  - intros x [k Hk]%elem_of_cache_getAll. by apply (saved_lookup l k).
  - intros x Hx. destruct (saved_covers l x Hx) as [y Hy].
    exists y. split; [apply elem_of_cache_getAll; eauto|].
    by apply (keyed_saved l).
  - apply keyed_NoDup, keyed_saved.
  - intros Hnd. rewrite cache_getAll_perm, (saved_NoDup l Hnd).
    rewrite <- list_fmap_compose.
    assert (forall k : list Employee,
              (snd ∘ (fun e => (id e, e))) <$> k = k) as ->; [|done].
    induction k as [|e k IH]; [done|]. rewrite fmap_cons. simpl. by f_equal.
Qed.

(** X9. On a cache that holds every record under its [id], a put
    ([addToLocalDB], [updateInLocalDB]) replaces the record with the [id] of
    the employee and leaves the others, a delete removes the record with
    that [id] and leaves the others, and [clearCache] leaves nothing. *)
Theorem local_edits_on_cache w :
  keyed (cache w) ->
  (forall e x,
     x ∈ getFromCache (addToLocalDB e w)
     <-> x = e \/ (x ∈ getFromCache w /\ id x <> id e))
  /\ (forall e x,
        x ∈ getFromCache (updateInLocalDB e w)
        <-> x = e \/ (x ∈ getFromCache w /\ id x <> id e))
  /\ (forall k x,
        x ∈ getFromCache (deleteFromLocalDB k w)
        <-> x ∈ getFromCache w /\ id x <> k)
  /\ getFromCache (clearCache w) = [].
Proof.
  intros Hkeyed.
  assert (forall e x,
    x ∈ cache_getAll (<[id e := e]> (cache w))
    <-> x = e \/ (x ∈ cache_getAll (cache w) /\ id x <> id e)) as Hput.
  { intros e x. rewrite !elem_of_cache_getAll. unfold CacheStore in *. split.
    - intros [k Hk]. destruct (decide (k = id e)) as [->|Hne].
      + rewrite lookup_insert_eq in Hk. left. congruence.
      + rewrite lookup_insert_ne in Hk by done. right.
        split; [eauto|]. by rewrite (Hkeyed k x Hk).
    - intros [->|[[k Hk] Hne]].
      + exists (id e). by rewrite lookup_insert_eq.
      + exists k. rewrite lookup_insert_ne; [done|].
        rewrite <- (Hkeyed k x Hk). congruence. }
  split; [exact Hput|]. split; [exact Hput|]. split.
  - intros k x. unfold getFromCache, deleteFromLocalDB. simpl.
    rewrite !elem_of_cache_getAll. unfold CacheStore in *. split.
    + intros [j Hj]. apply lookup_delete_Some in Hj as [Hne Hj].
      split; [eauto|]. by rewrite (Hkeyed j x Hj).
    + intros [[j Hj] Hne]. exists j. apply lookup_delete_Some.
      split; [|done]. rewrite <- (Hkeyed j x Hj). congruence.
  - unfold getFromCache, clearCache, cache_getAll, CacheStore. simpl.
    by rewrite map_to_list_empty.
Qed.

(** X10. Whatever the user does, the cache holds every record under its
    own [id], provided the store found at start-up did; so the list it reads
    from the cache never has the same [id] twice. *)
Theorem cache_keys_are_ids r c p online evs :
  keyed c ->
  keyed (cache (after evs (mount r c p online)))
  /\ NoDup (id <$> getFromCache (after evs (mount r c p online))).
Proof.
  intros Hkeyed.
  assert (keyed (cache (after evs (mount r c p online)))) as H
    by by apply after_keyed, mount_keyed.
  split; [exact H | by apply keyed_NoDup].
Qed.

End ClientCache.

Section ClientCacheWitnesses.
Import Client Samples.

Lemma keyed_bob : keyed (cache offline_clean).
Proof. change (cache offline_clean) with (saved [bob]). apply keyed_saved. Qed.

Lemma cache_round_trip_witness :
  (forall x, x ∈ getFromCache (saveToCache [bob; cy] offline_clean) -> x ∈ [bob; cy])
  /\ (forall x, x ∈ [bob; cy] ->
        exists y, y ∈ getFromCache (saveToCache [bob; cy] offline_clean)
                  /\ id y = id x)
  /\ NoDup (id <$> getFromCache (saveToCache [bob; cy] offline_clean))
  /\ (NoDup (id <$> [bob; cy]) ->
      getFromCache (saveToCache [bob; cy] offline_clean) ≡ₚ [bob; cy]).
Proof. exact (cache_round_trip [bob; cy] offline_clean). Defined.

Lemma local_edits_on_cache_witness :
  (forall x,
     x ∈ getFromCache (addToLocalDB ada offline_clean)
     <-> x = ada \/ (x ∈ getFromCache offline_clean /\ id x <> id ada))
  /\ (forall x,
        x ∈ getFromCache (deleteFromLocalDB "u2" offline_clean)
        <-> x ∈ getFromCache offline_clean /\ id x <> "u2").
Proof.
  destruct (local_edits_on_cache offline_clean keyed_bob) as (Hadd & _ & Hdel & _).
  split; [exact (Hadd ada) | exact (Hdel "u2")].
Defined.

Lemma cache_keys_are_ids_witness :
  keyed (cache (after [submit sample_form "u1" 5; click_delete "u2" true 6]
                  (mount [] (cache offline_clean) pending_empty false)))
  /\ NoDup (id <$> getFromCache
              (after [submit sample_form "u1" 5; click_delete "u2" true 6]
                 (mount [] (cache offline_clean) pending_empty false))).
Proof.
  exact (cache_keys_are_ids [] (cache offline_clean) pending_empty false
           [submit sample_form "u1" 5; click_delete "u2" true 6] keyed_bob).
Defined.

End ClientCacheWitnesses.

(** ** The handlers of the application *)

Section ClientBehaviour.
Import Client.
Context `{P : Platform} `{B : !Backend}.

Lemma reachable_after evs w : reachable w -> reachable (after evs w).
Proof.
  revert w. induction evs as [|ev evs IH]; intros w Hw; [done|].
  apply IH. by apply reachable_handle.
Qed.

(** X11. In every state of the application, the number of pending changes
    that the offline badge shows is the number of operations in the queue. *)
Theorem pending_count_is_queue_length r c p online evs :
  pendingCount (after evs (mount r c p online))
    = length (getPendingOperations (after evs (mount r c p online))).
Proof. apply reachable_counted, reachable_after, reachable_mount. Qed.

(** A call on the remote store changes the remote store and the log only. *)
Lemma supabase_world req w :
  exists r l, (supabase req w).1 = with_remote r l w.
Proof. unfold supabase. destruct (send (remote w) req). simpl. eauto. Qed.

Lemma fetchEmployees_flags w :
  loading (fetchEmployees w) = false
  /\ syncing (fetchEmployees w) = syncing w
  /\ saving (fetchEmployees w) = saving w
  /\ dialogOpen (fetchEmployees w) = dialogOpen w
  /\ selectedEmployee (fetchEmployees w) = selectedEmployee w.
Proof. unfold fetchEmployees, supabase. world_split; done. Qed.

Lemma replay_flags ops w :
  loading (replay ops w).1 = loading w
  /\ syncing (replay ops w).1 = syncing w
  /\ saving (replay ops w).1 = saving w
  /\ dialogOpen (replay ops w).1 = dialogOpen w
  /\ selectedEmployee (replay ops w).1 = selectedEmployee w
  /\ employees (replay ops w).1 = employees w.
Proof.
  revert w. induction ops as [|op rest IH]; intros w; simpl; [done|].
  destruct (supabase_world (replay_request op) w) as (r & l & Hw).
  destruct (supabase (replay_request op) w) as [w1 resp]. simpl in Hw. subst w1.
  destruct (error resp); [done|].
  destruct (IH (with_remote r l w)) as (-> & -> & -> & -> & -> & ->). done.
Qed.

Lemma syncPendingOperations_flags w :
  syncing (syncPendingOperations w) = false
  /\ saving (syncPendingOperations w) = saving w
  /\ (loading w = false -> loading (syncPendingOperations w) = false)
  /\ dialogOpen (syncPendingOperations w) = dialogOpen w
  /\ selectedEmployee (syncPendingOperations w) = selectedEmployee w.
Proof.
  unfold syncPendingOperations.
  destruct (length _ =? 0)%nat; [done|].
  cbn -[replay fetchEmployees pretty String.app].
  match goal with |- context [replay ?ops ?w0] =>
    destruct (replay_flags ops w0) as (Hl & Hs & Hv & Hd & He & _);
    destruct (replay ops w0) as [w1 failed] end.
  cbn -[fetchEmployees] in *. destruct failed as [op|]; cbn -[fetchEmployees].
  - rewrite Hl, Hv, Hd, He. done.
  - match goal with |- context [fetchEmployees ?w] =>
      destruct (fetchEmployees_flags w) as (-> & -> & -> & -> & ->) end.
    simpl. rewrite Hv, Hd, He. done.
Qed.

Lemma handleDialogClose_flags shouldRefresh w :
  settled w -> settled (handleDialogClose shouldRefresh w).
Proof.
  unfold settled, handleDialogClose. intros (Hl & Hs & Hv).
  destruct shouldRefresh; [|done].
  match goal with |- context [fetchEmployees ?w] =>
    destruct (fetchEmployees_flags w) as (-> & -> & -> & _) end.
  done.
Qed.

Lemma handle_settled ev w : settled w -> settled (handle ev w).
Proof.
  intros Hw. pose proof Hw as (Hl & Hs & Hv). destruct ev; cbn [handle].
  - unfold handleOnline. destruct (isOnline w); [done|].
    unfold reconnect_effect. destruct (isOnline _ && _); [|done].
    destruct (syncPendingOperations_flags (setIsOnline true w))
      as (Hs' & Hv' & Hl' & _).
    unfold settled. rewrite Hs', Hv', Hl'; done.
  - done.
  - unfold openDialog, fetchManagers.
    match goal with |- context [supabase ?q ?w] =>
      destruct (supabase_world q w) as (r & l & ->) end. done.
  - unfold openDialog, fetchManagers.
    match goal with |- context [supabase ?q ?w] =>
      destruct (supabase_world q w) as (r & l & ->) end. done.
  - by apply handleDialogClose_flags.
  - unfold handleSubmit. destruct (employeeSchema _ _); [|done].
    assert (forall x, syncing x = false ->
              settled (setSaving false (handleDialogClose true x))) as Hclose.
    { intros x Hxs. unfold handleDialogClose, settled.
      cbn -[fetchEmployees].
      match goal with |- context [fetchEmployees ?w] =>
        destruct (fetchEmployees_flags w) as (-> & -> & _) end.
      done. }
    change (isOnline (setSaving true w)) with (isOnline w).
    change (selectedEmployee (setSaving true w)) with (selectedEmployee w).
    destruct (selectedEmployee w) as [employee|]; destruct (isOnline w);
      try (apply Hclose; done).
    + match goal with |- context [supabase ?q ?w] =>
        destruct (supabase_world q w) as (r & l & Hw1);
        destruct (supabase q w) as [w1 resp] end.
      simpl in Hw1. subst w1.
      destruct (error resp); [by destruct (Js.includes _ _)|].
      apply Hclose. done.
    + match goal with |- context [supabase ?q ?w] =>
        destruct (supabase_world q w) as (r & l & Hw1);
        destruct (supabase q w) as [w1 resp] end.
      simpl in Hw1. subst w1.
      destruct (error resp); [by repeat destruct (Js.includes _ _)|].
      apply Hclose. done.
  - unfold handleDelete. destruct confirmed; [|done]. simpl negb. cbv iota.
    destruct (List.find _ _) as [employee|]; [|done].
    destruct (isOnline w).
    + match goal with |- context [supabase ?q ?w] =>
        destruct (supabase_world q w) as (r & l & Hw1);
        destruct (supabase q w) as [w1 resp] end.
      simpl in Hw1. subst w1.
      destruct (error resp); [done|].
      match goal with |- context [fetchEmployees ?w] =>
        destruct (fetchEmployees_flags w) as (Hfl & Hfs & Hfv & _) end.
      unfold settled. rewrite Hfl, Hfs, Hfv. done.
    + match goal with |- context [fetchEmployees ?w] =>
        destruct (fetchEmployees_flags w) as (Hfl & Hfs & Hfv & _) end.
      unfold settled. rewrite Hfl, Hfs, Hfv. done.
Qed.

(** X12. Every handler switches off the indicator it switched on: once a
    handler has run to its end, the list is not loading, no sync is shown as
    running and the dialog is not saving, whatever the remote store
    answered. *)
Theorem no_spinner_left_on r c p online evs :
  settled (after evs (mount r c p online)).
Proof.
  assert (settled (mount r c p online)) as Hmount.
  { unfold mount, settled.
    change (loading (checkPendingOperations ?x)) with (loading x).
    change (syncing (checkPendingOperations ?x)) with (syncing x).
    change (saving (checkPendingOperations ?x)) with (saving x).
    match goal with |- context [fetchEmployees ?w] =>
      destruct (fetchEmployees_flags w) as (-> & -> & -> & _) end.
    done. }
  revert Hmount. generalize (mount r c p online).
  induction evs as [|ev evs IH]; intros w Hw; [done|].
  apply IH. by apply handle_settled.
Qed.

Lemma handleDialogClose_log shouldRefresh w :
  exists rest,
    log (handleDialogClose shouldRefresh w) = log w ++ rest
    /\ forall x, x ∈ rest -> exists columns column, x.1 = select_order columns column.
Proof.
  unfold handleDialogClose. destruct shouldRefresh.
  - match goal with |- context [fetchEmployees ?w] =>
      destruct (fetchEmployees_log w) as (rest & Hlog & Hsel) end.
    exists rest. split; [exact Hlog | exact Hsel].
  - exists []. split; [by rewrite app_nil_r|].
    intros x Hx. by apply elem_of_nil in Hx.
Qed.

Lemma handleDialogClose_online shouldRefresh w :
  isOnline (handleDialogClose shouldRefresh w) = isOnline w.
Proof.
  unfold handleDialogClose. destruct shouldRefresh; [|done].
  match goal with |- context [fetchEmployees ?w] =>
    destruct (fetchEmployees_frame w) as (_ & _ & ->) end.
  done.
Qed.

Lemma user_request_select evs (rest : list (Request * Response)) :
  (forall x, x ∈ rest -> exists columns column, x.1 = select_order columns column) ->
  forall x, x ∈ rest -> user_request evs x.1.
Proof. intros Hsel x Hx. by destruct (Hsel x Hx) as (? & ? & ->). Qed.

(** While the application is online, an event sends requests for the user
    only and leaves the queue as it is. *)
Lemma handle_online ev w :
  isOnline w = true -> ev <> offline_event ->
  isOnline (handle ev w) = true
  /\ pending (handle ev w) = pending w
  /\ exists ex, log (handle ev w) = log w ++ ex
       /\ forall x, x ∈ ex -> user_request [ev] x.1.
Proof.
  intros Hon Hev.
  assert (forall w', isOnline w' = true -> pending w' = pending w -> log w' = log w ->
    isOnline w' = true /\ pending w' = pending w
    /\ exists ex, log w' = log w ++ ex
         /\ forall x, x ∈ ex -> user_request [ev] x.1) as Hsame.
  { intros w' ? ? Hl. split; [done|]. split; [done|]. exists [].
    split; [by rewrite app_nil_r|]. intros x Hx. by apply elem_of_nil in Hx. }
  assert (forall req w1 resp, supabase req w = (w1, resp) ->
    user_request [ev] req ->
    forall w', isOnline w' = isOnline w1 -> pending w' = pending w1 ->
      (exists rest, log w' = log w1 ++ rest
         /\ forall x, x ∈ rest -> exists columns column, x.1 = select_order columns column) ->
    isOnline w' = true /\ pending w' = pending w
    /\ exists ex, log w' = log w ++ ex
         /\ forall x, x ∈ ex -> user_request [ev] x.1) as Hsent.
  { intros req w1 resp Hs Hreq w' Ho Hp (rest & Hl & Hsel).
    pose proof (supabase_log req w) as Hlog.
    pose proof (supabase_frame req w) as (_ & Hp1 & _ & Ho1).
    rewrite Hs in Hlog, Hp1, Ho1. simpl in *.
    split; [congruence|]. split; [congruence|].
    exists ((req, resp) :: rest). split.
    - rewrite Hl, Hlog, <- app_assoc. done.
    - intros x [->|Hx]%elem_of_cons; [done|]. by apply (user_request_select [ev] rest). }
  assert (forall w1, exists rest : list (Request * Response), log w1 = log w1 ++ rest
         /\ forall x, x ∈ rest -> exists columns column, x.1 = select_order columns column)
    as Hnone.
  { intros w1. exists []. split; [by rewrite app_nil_r|].
    intros x Hx. by apply elem_of_nil in Hx. }
  destruct ev; cbn [handle].
  - unfold handleOnline. rewrite Hon. by apply Hsame.
  - done.
  - unfold openDialog, fetchManagers.
    destruct (supabase _ _) as [w1 resp] eqn:Hs.
    pose proof (supabase_log (select_order "*" "first_name")
                  (setDialogOpen true (setSelectedEmployee None w))) as Hlog.
    pose proof (supabase_frame (select_order "*" "first_name")
                  (setDialogOpen true (setSelectedEmployee None w))) as (_ & Hp1 & _ & Ho1).
    rewrite Hs in Hlog, Hp1, Ho1. simpl in *.
    split; [congruence|]. split; [congruence|]. eexists. split; [exact Hlog|].
    intros x ->%list_elem_of_singleton. done.
  - unfold openDialog, fetchManagers.
    destruct (supabase _ _) as [w1 resp] eqn:Hs.
    pose proof (supabase_log (select_order "*" "first_name")
                  (setDialogOpen true (setSelectedEmployee (Some e) w))) as Hlog.
    pose proof (supabase_frame (select_order "*" "first_name")
                  (setDialogOpen true (setSelectedEmployee (Some e) w))) as (_ & Hp1 & _ & Ho1).
    rewrite Hs in Hlog, Hp1, Ho1. simpl in *.
    split; [congruence|]. split; [congruence|]. eexists. split; [exact Hlog|].
    intros x ->%list_elem_of_singleton. done.
  - by apply Hsame.
  - unfold handleSubmit. destruct (employeeSchema _ _); [|by apply Hsame].
    change (isOnline (setSaving true w)) with (isOnline w).
    change (selectedEmployee (setSaving true w)) with (selectedEmployee w).
    rewrite Hon.
    assert (user_request [submit formData uuid now]
              (insert (data_values (dataToSubmit formData)))) as Hins.
    { exists formData, uuid, now. split; [by left | done]. }
    destruct (selectedEmployee w) as [employee|].
    + destruct (supabase _ (setSaving true w)) as [w1 resp] eqn:Hs.
      assert (supabase (update_eq_id (data_values (dataToSubmit formData)) (id employee)) w
              = (setSaving (saving w) w1, resp)) as Hs'.
      { unfold supabase in *. simpl in *. destruct (send _ _). by injection Hs as <- <-. }
      eapply (Hsent _ _ _ Hs'); [exact Hins| | |].
      * destruct (error resp); [by destruct (Js.includes _ _)|].
        cbn [isOnline setSaving]. by rewrite handleDialogClose_online.
      * destruct (error resp); [by destruct (Js.includes _ _)|].
        cbn [pending setSaving]. by rewrite handleDialogClose_pending.
      * destruct (error resp); [destruct (Js.includes _ _); apply (Hnone w1)|].
        cbn [log setSaving].
        match goal with |- context [handleDialogClose true ?x] =>
          destruct (handleDialogClose_log true x) as (rest & -> & Hsel) end.
        exists rest. done.
    + destruct (supabase _ (setSaving true w)) as [w1 resp] eqn:Hs.
      assert (supabase (insert (data_values (dataToSubmit formData))) w
              = (setSaving (saving w) w1, resp)) as Hs'.
      { unfold supabase in *. simpl in *. destruct (send _ _). by injection Hs as <- <-. }
      eapply (Hsent _ _ _ Hs'); [exact Hins| | |].
      * destruct (error resp); [by repeat destruct (Js.includes _ _)|].
        cbn [isOnline setSaving]. by rewrite handleDialogClose_online.
      * destruct (error resp); [by repeat destruct (Js.includes _ _)|].
        cbn [pending setSaving]. by rewrite handleDialogClose_pending.
      * destruct (error resp); [repeat destruct (Js.includes _ _); apply (Hnone w1)|].
        cbn [log setSaving].
        match goal with |- context [handleDialogClose true ?x] =>
          destruct (handleDialogClose_log true x) as (rest & -> & Hsel) end.
        exists rest. done.
  - unfold handleDelete. destruct confirmed; [|by apply Hsame]. simpl negb. cbv iota.
    destruct (List.find _ _) as [employee|]; [|by apply Hsame].
    rewrite Hon. destruct (supabase _ w) as [w1 resp] eqn:Hs.
    eapply (Hsent _ _ _ Hs).
    + exists now. by left.
    + destruct (error resp); [done|].
      match goal with |- context [fetchEmployees ?x] =>
        destruct (fetchEmployees_frame x) as (_ & _ & ->) end. done.
    + destruct (error resp); [done|].
      match goal with |- context [fetchEmployees ?x] =>
        destruct (fetchEmployees_frame x) as (-> & _ & _) end. done.
    + destruct (error resp); [apply (Hnone w1)|].
      match goal with |- context [fetchEmployees ?x] =>
        destruct (fetchEmployees_log x) as (rest & -> & Hsel) end.
      exists rest. done.
Qed.

Lemma user_request_mono evs evs' req :
  evs ⊆ evs' -> user_request evs req -> user_request evs' req.
Proof.
  intros Hsub. destruct req as [[e|d]|[e|d] k|k|columns column]; simpl; try done.
  - intros (f & u & n & Hin & ->). exists f, u, n. split; [by apply Hsub | done].
  - intros (f & u & n & Hin & ->). exists f, u, n. split; [by apply Hsub | done].
  - intros (n & Hin). exists n. by apply Hsub.
Qed.

(** X13. An application that starts online and is never told that the
    connection was lost never touches the queue it found at start-up: the
    operations stay queued as they were, and every request it sends is a
    select, the form data of a submitted form or the delete of a confirmed
    delete click, never the replay of a queued employee. *)
Theorem queue_waits_for_reconnect r c p evs :
  offline_event ∉ evs ->
  isOnline (after evs (mount r c p true)) = true
  /\ pending (after evs (mount r c p true)) = p
  /\ forall x, x ∈ log (after evs (mount r c p true)) -> user_request evs x.1.
Proof.
  intros Hevs.
  assert (isOnline (mount r c p true) = true
          /\ pending (mount r c p true) = p
          /\ forall x, x ∈ log (mount r c p true) -> user_request [] x.1) as Hmount.
  { unfold mount.
    match goal with |- context [fetchEmployees ?x] =>
      destruct (fetchEmployees_frame x) as (Hp & _ & Ho);
      destruct (fetchEmployees_log x) as (rest & Hl & Hsel) end.
    cbn -[fetchEmployees]. rewrite Hp, Ho, Hl. simpl.
    split; [done|]. split; [done|]. by apply user_request_select. }
  revert Hmount Hevs. generalize (mount r c p true).
  assert (forall done_ todo w,
    offline_event ∉ todo ->
    isOnline w = true /\ pending w = p
      /\ (forall x, x ∈ log w -> user_request done_ x.1) ->
    isOnline (after todo w) = true /\ pending (after todo w) = p
      /\ forall x, x ∈ log (after todo w) -> user_request (done_ ++ todo) x.1) as Hgen.
  { intros done_ todo. revert done_.
    induction todo as [|ev todo IH]; intros done_ w Hoff (Ho & Hp & Hl).
    - rewrite app_nil_r. done.
    - apply not_elem_of_cons in Hoff as [Hev Hoff].
      destruct (handle_online ev w Ho (not_eq_sym Hev)) as (Ho' & Hp' & ex & Hl' & Hex).
      replace (done_ ++ ev :: todo) with ((done_ ++ [ev]) ++ todo)
        by (by rewrite <- app_assoc).
      apply IH; [done|]. split; [done|]. split; [congruence|].
      intros x Hx. rewrite Hl' in Hx. apply elem_of_app in Hx as [Hx|Hx].
      + apply (user_request_mono done_); [|by apply Hl].
        intros y Hy. apply elem_of_app. by left.
      + apply (user_request_mono [ev]); [|by apply Hex].
        intros y Hy. apply elem_of_app. by right. }
  intros w Hw Hoff. apply (Hgen [] evs w Hoff Hw).
Qed.

Lemma fetchEmployees_unfetched w :
  isOnline w = false
  \/ is_Some (error (send (remote w)
                (select_order employees_with_manager "employee_number")).2) ->
  cache (fetchEmployees w) = cache w
  /\ employees (fetchEmployees w)
     = match getFromCache w with
       | [] => employees w
       | cachedData => cachedData
       end
  /\ loading (fetchEmployees w) = false
  /\ toasts (fetchEmployees w)
     = toasts w
       ++ [match isOnline w, getFromCache w with
           | true, [] => toast_error "Failed to fetch employees"
           | true, _ => toast_error "Using cached data - sync failed"
           | false, [] => toast_error "No cached data available offline"
           | false, _ => toast_info "Viewing cached data (offline mode)"
           end].
Proof.
  intros Hcase. unfold fetchEmployees, supabase.
  change (getFromCache (setLoading true w)) with (getFromCache w).
  destruct (getFromCache w) as [|x l] eqn:Hcached; simpl;
    destruct (isOnline w) eqn:Hon; simpl.
  - destruct Hcase as [?|Herr]; [done|].
    destruct (send (remote w) _) as [r resp]. simpl in *.
    destruct (error resp); [done | by apply is_Some_None in Herr].
  - done.
  - destruct Hcase as [?|Herr]; [done|].
    destruct (send (remote w) _) as [r resp]. simpl in *.
    destruct (error resp); [done | by apply is_Some_None in Herr].
  - done.
Qed.

(** X14. A fetch made offline, or answered by an error, leaves the cache
    as it is and never empties the list: the list shows the cached employees
    when there are some and stays as it was when there are none, and one
    toast tells which of the four cases it was. *)
Theorem fetch_failure_keeps_cache w :
  isOnline w = false
  \/ is_Some (error (send (remote w)
                (select_order employees_with_manager "employee_number")).2) ->
  cache (fetchEmployees w) = cache w
  /\ employees (fetchEmployees w)
     = match getFromCache w with
       | [] => employees w
       | cachedData => cachedData
       end
  /\ loading (fetchEmployees w) = false
  /\ toasts (fetchEmployees w)
     = toasts w
       ++ [match isOnline w, getFromCache w with
           | true, [] => toast_error "Failed to fetch employees"
           | true, _ => toast_error "Using cached data - sync failed"
           | false, [] => toast_error "No cached data available offline"
           | false, _ => toast_info "Viewing cached data (offline mode)"
           end].
Proof. apply fetchEmployees_unfetched. Qed.

(** X15. A fetch that the remote store answers without an error replaces
    both the list on screen and the cache by the answer, whatever was there
    before, and shows no toast; when no two employees of the answer share an
    [id], the cache then reads back as the list on screen, in some order. *)
Theorem fetch_success_mirrors_answer w r resp :
  isOnline w = true ->
  send (remote w) (select_order employees_with_manager "employee_number")
    = (r, resp) ->
  error resp = None ->
  employees (fetchEmployees w) = default [] (data resp)
  /\ cache (fetchEmployees w) = saved (default [] (data resp))
  /\ remote (fetchEmployees w) = r
  /\ toasts (fetchEmployees w) = toasts w
  /\ loading (fetchEmployees w) = false
  /\ (NoDup (id <$> default [] (data resp)) ->
      getFromCache (fetchEmployees w) ≡ₚ employees (fetchEmployees w)).
Proof.
  intros Hon Hsend Herr.
  assert (fetchEmployees w
          = setLoading false
              (saveToCache (default [] (data resp))
                 (setEmployees (default [] (data resp))
                    (with_remote r
                       (log w ++ [(select_order employees_with_manager
                                     "employee_number", resp)])
                       (if (0 <? length (getFromCache w))%nat
                        then setLoading false (setEmployees (getFromCache w)
                                                 (setLoading true w))
                        else setLoading true w))))) as ->.
  { unfold fetchEmployees, supabase.
    change (getFromCache (setLoading true w)) with (getFromCache w).
    destruct (0 <? length (getFromCache w))%nat; simpl;
      rewrite Hon, Hsend; simpl; by rewrite Herr. }
  split; [done|]. split; [done|]. split; [done|].
  split; [by destruct (0 <? length (getFromCache w))%nat|]. split; [done|].
  intros Hnd.
  change (cache_getAll (saved (default [] (data resp))) ≡ₚ default [] (data resp)).
  rewrite cache_getAll_perm, (saved_NoDup _ Hnd), <- list_fmap_compose.
  assert (forall k : list Employee,
            (snd ∘ (fun e => (id e, e))) <$> k = k) as ->; [|done].
  induction k as [|e k IH]; [done|]. rewrite fmap_cons. simpl. by f_equal.
Qed.

Lemma handleDialogClose_offline_employees w :
  isOnline w = false ->
  employees (handleDialogClose true w)
    = match getFromCache w with
      | [] => employees w
      | cachedData => cachedData
      end.
Proof.
  intros Hoff. unfold handleDialogClose.
  match goal with |- context [fetchEmployees ?x] =>
    destruct (fetchEmployees_unfetched x (or_introl Hoff)) as (_ & -> & _) end.
  done.
Qed.

End ClientBehaviour.

Section ClientDisplay.
Import Client.
Context `{P : Platform} `{B : !Backend}.

Lemma offline_close_employees w :
  isOnline w = false ->
  employees (handleDialogClose true w)
    = match getFromCache w with
      | [] => employees w
      | cachedData => cachedData
      end
  /\ cache (handleDialogClose true w) = cache w.
Proof.
  intros Hoff. split; [by apply handleDialogClose_offline_employees|].
  by destruct (handleDialogClose_offline w Hoff) as (-> & _).
Qed.

Lemma offline_fetch_employees w :
  isOnline w = false ->
  employees (fetchEmployees w)
    = match getFromCache w with
      | [] => employees w
      | cachedData => cachedData
      end
  /\ cache (fetchEmployees w) = cache w.
Proof.
  intros Hoff. unfold fetchEmployees.
  change (getFromCache (setLoading true w)) with (getFromCache w).
  destruct (getFromCache w) as [|x l]; simpl; by rewrite Hoff.
Qed.

(** X16. An employee created or updated offline is on the list as soon as
    the dialog closes, and the list is then what the cache holds. After a
    delete made offline the list is what the cache holds too, unless the
    cache is left empty: then the list stays as it was, with the deleted
    employee still on it. *)
Theorem offline_edits_show_in_list w :
  isOnline w = false ->
  (forall formData uuid now,
     employeeSchema formData (parseFloat (f_salary formData)) = [] ->
     employees (handle (submit formData uuid now) w)
       = getFromCache (handle (submit formData uuid now) w)
     /\ match selectedEmployee w with
        | Some employee => updatedEmployee employee (dataToSubmit formData)
        | None => newEmployee (dataToSubmit formData) uuid
        end ∈ employees (handle (submit formData uuid now) w))
  /\ (forall k now employee,
        List.find (fun e => bool_decide (id e = k)) (employees w) = Some employee ->
        employees (handle (click_delete k true now) w)
          = match getFromCache (handle (click_delete k true now) w) with
            | [] => employees w
            | cachedData => cachedData
            end
        /\ (getFromCache (handle (click_delete k true now) w) = [] ->
            employee ∈ employees (handle (click_delete k true now) w))).
Proof.
  intros Hoff. split.
  - intros formData uuid now Hvalid. cbn [handle]. unfold handleSubmit.
    rewrite Hvalid.
    change (isOnline (setSaving true w)) with (isOnline w).
    change (selectedEmployee (setSaving true w)) with (selectedEmployee w).
    rewrite Hoff. cbv zeta.
    change (employees (setSaving false ?x)) with (employees x).
    change (getFromCache (setSaving false ?x)) with (getFromCache x).
    unfold getFromCache.
    assert (forall k (e : Employee), e ∈ cache_getAll (<[k := e]> (cache w))) as Hin.
    { intros k e. apply elem_of_cache_getAll. exists k.
      unfold CacheStore. by rewrite lookup_insert_eq. }
    destruct (selectedEmployee w) as [employee|];
      match goal with |- context [handleDialogClose true ?x] =>
        destruct (offline_close_employees x Hoff) as (-> & ->)
      end; unfold getFromCache; simpl;
      match goal with |- context [cache_getAll (<[?k := ?e]> _)] =>
        pose proof (Hin k e) as He;
        destruct (cache_getAll _) as [|y l]; [by apply elem_of_nil in He | done]
      end.
  - intros k now employee Hfind. cbn [handle]. unfold handleDelete.
    simpl negb. cbv iota. rewrite Hfind, Hoff. cbv zeta.
    match goal with |- context [fetchEmployees ?x] =>
      destruct (offline_fetch_employees x Hoff) as (He & Hc)
    end.
    unfold getFromCache in *. rewrite He, Hc. simpl. split; [done|].
    intros ->. apply list_elem_of_In. by apply find_some in Hfind as [? _].
Qed.

(** X17. A submit that is rejected, by the validation of the form or by the
    remote store, changes nothing but the toasts: the dialog stays open on
    the same employee, the cache, the queue and the list are as they were,
    and exactly one error toast is shown; a form that fails validation is
    not sent at all. *)
Theorem rejected_submit_changes_nothing formData uuid now w :
  employeeSchema formData (parseFloat (f_salary formData)) <> []
  \/ (isOnline w = true
      /\ is_Some (error (send (remote w)
           match selectedEmployee w with
           | Some employee =>
               update_eq_id (data_values (dataToSubmit formData)) (id employee)
           | None => insert (data_values (dataToSubmit formData))
           end).2)) ->
  cache (handle (submit formData uuid now) w) = cache w
  /\ pending (handle (submit formData uuid now) w) = pending w
  /\ employees (handle (submit formData uuid now) w) = employees w
  /\ dialogOpen (handle (submit formData uuid now) w) = dialogOpen w
  /\ selectedEmployee (handle (submit formData uuid now) w) = selectedEmployee w
  /\ saving (handle (submit formData uuid now) w) = false
  /\ (exists message,
        toasts (handle (submit formData uuid now) w)
          = toasts w ++ [toast_error message])
  /\ (employeeSchema formData (parseFloat (f_salary formData)) <> [] ->
      log (handle (submit formData uuid now) w) = log w).
Proof.
  intros Hcase. cbn [handle]. unfold handleSubmit.
  destruct (employeeSchema _ _) as [|message issues] eqn:Hschema.
  - destruct Hcase as [?|[Hon Herr]]; [done|].
    change (isOnline (setSaving true w)) with (isOnline w).
    change (selectedEmployee (setSaving true w)) with (selectedEmployee w).
    rewrite Hon. unfold supabase. simpl remote.
    destruct (selectedEmployee w) as [employee|] eqn:Hsel;
      destruct (send (remote w) _) as [r resp]; simpl in Herr |- *;
      (destruct (error resp) as [m|]; [|by apply is_Some_None in Herr]);
      repeat destruct (Js.includes _ _); simpl; rewrite ?Hsel;
      repeat split; try done; eauto.
  - simpl. repeat split; try done. eauto.
Qed.

(** X26. A delete click does nothing at all when the user does not
    confirm it or when no employee on the list has the id: no request, no
    change of the cache or of the queue, no toast. *)
Theorem unconfirmed_delete_is_noop k confirmed now w :
  confirmed = false \/ k ∉ id <$> employees w ->
  handle (click_delete k confirmed now) w = w.
Proof.
  intros Hcase. cbn [handle]. unfold handleDelete.
  destruct confirmed; [|done]. destruct Hcase as [?|Hk]; [done|].
  simpl negb. cbv iota.
  destruct (List.find _ _) as [employee|] eqn:Hfind; [|done].
  apply find_some in Hfind as [Hin Hid]. apply bool_decide_eq_true in Hid.
  exfalso. apply Hk. apply list_elem_of_fmap. exists employee.
  split; [done | by apply list_elem_of_In].
Qed.

End ClientDisplay.

Section ClientForms.
Import Client.
Context `{P : Platform} `{B : !Backend}.

(** X18. Opening the dialog on an employee and submitting the form as it
    was filled in gives back the employee itself, provided the salary reads
    back from its own text and neither the e-mail address nor the manager
    is the empty text (an empty text comes back as null). *)
Theorem form_round_trip toString employee :
  parseFloat (toString (salary employee)) = salary employee ->
  email employee <> Some "" ->
  manager_id employee <> Some "" ->
  updatedEmployee employee
    (dataToSubmit (initialFormData toString (Some employee))) = employee.
Proof.
  intros Hsalary Hemail Hmanager.
  assert (forall v : option string, v <> Some "" -> or_null (default "" v) = v)
    as Hnull.
  { intros [[|c t]|] Hv; try done. }
  destruct employee as [k n f l e b sal ro m j]. simpl in *.
  unfold updatedEmployee, dataToSubmit. simpl.
  by rewrite Hsalary, (Hnull e Hemail), (Hnull m Hmanager).
Qed.

Lemma includes_empty s : Js.includes s "" = true.
Proof. by destruct s. Qed.

(** X19. Whatever order the sort puts the rows in, the search box shows an
    employee exactly when it is on the list and the search term is empty or
    the lowercased term is contained in the lowercased first name, last
    name, employee number or role of the employee, or in its lowercased
    e-mail address when it has one that is not empty. On a platform whose
    [toLowerCase] is idempotent and gives the empty text for the empty text
    only, as that of JavaScript does, a term and its lowercase form show the
    same employees. *)
Theorem search_filters_employees `{Str : Js.Strings} sort employees searchTerm :
  (forall l, sort l ≡ₚ l) ->
  (forall x,
     x ∈ filterAndSortEmployees sort employees searchTerm
     <-> x ∈ employees
         /\ (searchTerm = ""
             \/ Js.includes (Js.toLowerCase (first_name x))
                  (Js.toLowerCase searchTerm) = true
             \/ Js.includes (Js.toLowerCase (last_name x))
                  (Js.toLowerCase searchTerm) = true
             \/ Js.includes (Js.toLowerCase (employee_number x))
                  (Js.toLowerCase searchTerm) = true
             \/ Js.includes (Js.toLowerCase (role x))
                  (Js.toLowerCase searchTerm) = true
             \/ exists e,
                  email x = Some e /\ e <> ""
                  /\ Js.includes (Js.toLowerCase e)
                       (Js.toLowerCase searchTerm) = true))
  /\ ((forall s, Js.toLowerCase (Js.toLowerCase s) = Js.toLowerCase s) ->
      (forall s, Js.toLowerCase s = "" <-> s = "") ->
      filterAndSortEmployees sort employees (Js.toLowerCase searchTerm)
      ≡ₚ filterAndSortEmployees sort employees searchTerm).
Proof.
  intros Hsort.
  assert (forall term x,
    found term x = true
    <-> Js.includes (Js.toLowerCase (first_name x)) term = true
        \/ Js.includes (Js.toLowerCase (last_name x)) term = true
        \/ Js.includes (Js.toLowerCase (employee_number x)) term = true
        \/ Js.includes (Js.toLowerCase (role x)) term = true
        \/ exists e, email x = Some e /\ e <> ""
                     /\ Js.includes (Js.toLowerCase e) term = true) as Hfound.
  { intros term x. unfold found. rewrite !orb_true_iff.
    destruct (email x) as [e|].
    - rewrite andb_true_iff. split.
      + intros [[[[?|?]|?]|?]|[He ?]]; auto.
        do 4 right. exists e. split; [done|]. split; [by destruct e | done].
      + intros [?|[?|[?|[?|(e' & [= <-] & He & ?)]]]]; auto.
        right. split; [by destruct e | done].
    - split.
      + intros [[[[?|?]|?]|?]|?]; auto. done.
      + intros [?|[?|[?|[?|(e' & ? & _)]]]]; auto. done. }
  split.
  - intros x. unfold filterAndSortEmployees. rewrite Hsort.
    destruct searchTerm as [|c t].
    + simpl. split; [intros Hx; split; [done | by left] | by intros [? _]].
    + cbn [Js.truthy]. rewrite list_elem_of_filter, Hfound. split.
      * intros [Hf Hx]. split; [done | by right].
      * intros [Hx [?|Hf]]; [done | by split].
  - intros Hlower Hempty. unfold filterAndSortEmployees. rewrite !Hsort.
    assert (Js.truthy (Js.toLowerCase searchTerm) = Js.truthy searchTerm) as ->.
    { destruct searchTerm as [|c t].
      - by rewrite (proj2 (Hempty "") eq_refl).
      - destruct (Js.toLowerCase (String c t)) eqn:Heq; [|done].
        apply (proj1 (Hempty (String c t))) in Heq. discriminate Heq. }
    by rewrite Hlower.
Qed.

(** X27. The manager select never offers the employee being edited as
    its own manager. Every item submits its value as the manager id when that
    value is not the empty text; in particular the item 'No Manager' submits
    the text 'none', not null: a null manager is submitted only by a form
    whose manager field is empty. *)
Theorem manager_select_options managers employee formData :
  (forall e v,
     employee = Some e -> v ∈ managerOptions managers employee ->
     v = "none" \/ v <> id e)
  /\ "none" ∈ managerOptions managers employee
  /\ (forall v,
        v ∈ managerOptions managers employee -> v <> "" ->
        d_manager_id (dataToSubmit (onManagerChange v formData)) = Some v)
  /\ d_manager_id (dataToSubmit (onManagerChange "none" formData)) = Some "none"
  /\ (d_manager_id (dataToSubmit formData) = None <-> f_manager_id formData = "").
Proof.
  split; [|split; [|split; [|split]]].
  - intros e v -> Hv. unfold managerOptions in Hv.
    apply elem_of_cons in Hv as [->|Hv]; [by left|]. right.
    apply list_elem_of_fmap in Hv as (m & -> & Hm).
    apply list_elem_of_filter in Hm as [Hm _].
    apply negb_true_iff, bool_decide_eq_false in Hm. done.
  - by left.
  - intros v _ Hv. unfold dataToSubmit, onManagerChange, or_null. simpl.
    by destruct v.
  - reflexivity.
  - unfold dataToSubmit, or_null. simpl. by destruct (f_manager_id formData).
Qed.

End ClientForms.

Section ClientBehaviourWitnesses.
Import Client Samples.

Lemma queue_waits_for_reconnect_witness :
  isOnline (after [click_add; submit sample_form "u1" 5; online_event]
              (mount [] ∅ sample_queue true)) = true
  /\ pending (after [click_add; submit sample_form "u1" 5; online_event]
                (mount [] ∅ sample_queue true)) = sample_queue
  /\ forall x,
       x ∈ log (after [click_add; submit sample_form "u1" 5; online_event]
                  (mount [] ∅ sample_queue true)) ->
       user_request [click_add; submit sample_form "u1" 5; online_event] x.1.
Proof.
  apply (queue_waits_for_reconnect (B:=scripted_backend) [] ∅ sample_queue
           [click_add; submit sample_form "u1" 5; online_event]).
  intros Hin.
  repeat (apply elem_of_cons in Hin as [Hin|Hin]; [discriminate|]).
  by apply elem_of_nil in Hin.
Defined.

Lemma fetch_failure_keeps_cache_witness :
  cache (fetchEmployees offline_clean) = cache offline_clean
  /\ employees (fetchEmployees offline_clean) = [bob]
  /\ loading (fetchEmployees offline_clean) = false
  /\ toasts (fetchEmployees offline_clean)
     = toasts offline_clean ++ [toast_info "Viewing cached data (offline mode)"].
Proof. exact (fetch_failure_keeps_cache offline_clean (or_introl eq_refl)). Defined.

Lemma fetch_success_mirrors_answer_witness :
  employees (fetchEmployees Fixtures.online_world) = [bob; cy]
  /\ cache (fetchEmployees Fixtures.online_world) = saved [bob; cy]
  /\ remote (fetchEmployees Fixtures.online_world) = []
  /\ toasts (fetchEmployees Fixtures.online_world) = toasts Fixtures.online_world
  /\ loading (fetchEmployees Fixtures.online_world) = false
  /\ (NoDup (id <$> [bob; cy]) ->
      getFromCache (fetchEmployees Fixtures.online_world)
        ≡ₚ employees (fetchEmployees Fixtures.online_world)).
Proof.
  exact (fetch_success_mirrors_answer Fixtures.online_world [] Fixtures.listing
           eq_refl eq_refl eq_refl).
Defined.

Lemma offline_edits_show_in_list_witness :
  (employees (handle (submit sample_form "u1" 5) offline_clean)
     = getFromCache (handle (submit sample_form "u1" 5) offline_clean)
   /\ ada ∈ employees (handle (submit sample_form "u1" 5) offline_clean))
  /\ (employees (handle (click_delete "u2" true 6) offline_clean)
        = match getFromCache (handle (click_delete "u2" true 6) offline_clean) with
          | [] => employees offline_clean
          | cachedData => cachedData
          end
      /\ (getFromCache (handle (click_delete "u2" true 6) offline_clean) = [] ->
          bob ∈ employees (handle (click_delete "u2" true 6) offline_clean))).
Proof.
  destruct (offline_edits_show_in_list offline_clean eq_refl) as [Hsubmit Hdelete].
  split.
  - exact (Hsubmit sample_form "u1" 5 eq_refl).
  - exact (Hdelete "u2" 6 bob eq_refl).
Defined.

Lemma rejected_submit_changes_nothing_witness :
  cache (handle (submit sample_form "u1" 5) Fixtures.online_failing)
    = cache Fixtures.online_failing
  /\ pending (handle (submit sample_form "u1" 5) Fixtures.online_failing)
     = pending Fixtures.online_failing
  /\ employees (handle (submit sample_form "u1" 5) Fixtures.online_failing)
     = employees Fixtures.online_failing
  /\ dialogOpen (handle (submit sample_form "u1" 5) Fixtures.online_failing)
     = dialogOpen Fixtures.online_failing
  /\ selectedEmployee (handle (submit sample_form "u1" 5) Fixtures.online_failing)
     = selectedEmployee Fixtures.online_failing
  /\ saving (handle (submit sample_form "u1" 5) Fixtures.online_failing) = false
  /\ (exists message,
        toasts (handle (submit sample_form "u1" 5) Fixtures.online_failing)
          = toasts Fixtures.online_failing ++ [toast_error message])
  /\ (employeeSchema sample_form (parseFloat (f_salary sample_form)) <> [] ->
      log (handle (submit sample_form "u1" 5) Fixtures.online_failing)
        = log Fixtures.online_failing).
Proof.
  apply (rejected_submit_changes_nothing sample_form "u1" 5 Fixtures.online_failing).
  right. split; [reflexivity|]. simpl. eauto.
Defined.

Lemma form_round_trip_witness :
  updatedEmployee bob
    (dataToSubmit (initialFormData Fixtures.sample_toString (Some bob))) = bob.
Proof.
  apply (form_round_trip (P:=sample_platform) Fixtures.sample_toString bob);
    [vm_compute; reflexivity | discriminate | discriminate].
Defined.

Lemma search_filters_employees_witness :
  bob ∈ filterAndSortEmployees (fun l => l) [ada; bob; cy] "COLE"
  /\ filterAndSortEmployees (fun l => l) [ada; bob; cy] "COLE" = [bob]
  /\ filterAndSortEmployees (fun l => l) [ada; bob; cy] (Js.toLowerCase "COLE")
     ≡ₚ filterAndSortEmployees (fun l => l) [ada; bob; cy] "COLE".
Proof.
  destruct (search_filters_employees (P:=sample_platform) (Str:=Js.ascii_strings)
              (fun l => l) [ada; bob; cy] "COLE" (fun l => reflexivity l))
    as [Hshown Hcase].
  split.
  { apply Hshown. split; [right; by left|]. right. right. left. reflexivity. }
  split; [reflexivity|].
  apply Hcase; [apply ascii_toLowerCase_idemp|].
  intros s. split; [apply ascii_toLowerCase_empty | by intros ->].
Defined.

Lemma unconfirmed_delete_is_noop_witness :
  handle (click_delete "u7" true 6) offline_clean = offline_clean.
Proof.
  apply (unconfirmed_delete_is_noop "u7" true 6 offline_clean).
  right. intros Hin.
  repeat (apply elem_of_cons in Hin as [Hin|Hin]; [discriminate|]).
  by apply elem_of_nil in Hin.
Defined.

Lemma manager_select_options_witness :
  (forall e v,
     Some bob = Some e -> v ∈ managerOptions [ada; bob; cy] (Some bob) ->
     v = "none" \/ v <> id e)
  /\ "none" ∈ managerOptions [ada; bob; cy] (Some bob)
  /\ (forall v,
        v ∈ managerOptions [ada; bob; cy] (Some bob) -> v <> "" ->
        d_manager_id (dataToSubmit (onManagerChange v sample_form)) = Some v)
  /\ d_manager_id (dataToSubmit (onManagerChange "none" sample_form)) = Some "none"
  /\ (d_manager_id (dataToSubmit sample_form) = None
      <-> f_manager_id sample_form = "").
Proof. exact (manager_select_options [ada; bob; cy] (Some bob) sample_form). Defined.

End ClientBehaviourWitnesses.

(** ** Searching, expanding and collapsing the org chart *)

Section ChartFacts.
Import Hierarchy.

Section WithStrings.
Context `{Str : Js.Strings}.

Lemma filterNode_eq term e l :
  filterNode term (tree_node e l)
  = if matches e term || (0 <? length (omap (filterNode term) l))%nat
    then Some (tree_node e (omap (filterNode term) l))
    else None.
Proof. reflexivity. Qed.

Lemma filterNode_inv term e l t' :
  filterNode term (tree_node e l) = Some t' ->
  t' = tree_node e (omap (filterNode term) l)
  /\ (matches e term = true \/ omap (filterNode term) l <> []).
Proof.
  rewrite filterNode_eq. destruct (matches e term) eqn:Hm; simpl.
  - intros [= <-]. split; [done | by left].
  - destruct (omap (filterNode term) l) as [|c k] eqn:Hk; simpl; [done|].
    intros [= <-]. split; [done | by right].
Qed.

(** What [filterHierarchy] keeps of a list of nodes, given what it keeps of
    each node. *)
Lemma omap_pruned term l :
  Forall (fun t => forall t', filterNode term t = Some t' -> pruned t' t) l ->
  exists kept,
    sublist kept l /\ Forall2 pruned (omap (filterNode term) l) kept.
Proof.
  induction 1 as [|t l Ht _ (kept & Hsub & Hall)]; simpl.
  - exists []. split; constructor.
  - destruct (filterNode term t) as [t'|] eqn:Hf.
    + exists (t :: kept). split; [by constructor|].
      constructor; [by apply Ht | done].
    + exists kept. split; [by constructor | done].
Qed.

Lemma filterNode_pruned term t t' :
  filterNode term t = Some t' -> pruned t' t.
Proof.
  revert t'. induction t as [e l IH] using Tree_induction. intros t' Hf.
  apply filterNode_inv in Hf as [-> _].
  destruct (omap_pruned term l IH) as (kept & Hsub & Hall).
  by apply (pruned_node e l _ kept).
Qed.

Lemma flatten_eq e l : flatten (tree_node e l) = e :: concat (flatten <$> l).
Proof. reflexivity. Qed.

Lemma nodes_eq e l :
  nodes (tree_node e l) = tree_node e l :: concat (nodes <$> l).
Proof. reflexivity. Qed.

Lemma elem_of_forest {A} (f : Tree -> list A) (l : list Tree) x :
  x ∈ concat (f <$> l) <-> exists t, t ∈ l /\ x ∈ f t.
Proof.
  rewrite elem_of_concat. split.
  - intros (k & Hk & Hx). apply list_elem_of_fmap in Hk as (t & -> & Ht). eauto.
  - intros (t & Ht & Hx). exists (f t). split; [|done].
    apply list_elem_of_fmap. eauto.
Qed.

Lemma filterNode_flatten term t t' e :
  filterNode term t = Some t' -> e ∈ flatten t' -> e ∈ flatten t.
Proof.
  revert t' e. induction t as [r l IH] using Tree_induction. intros t' e Hf.
  apply filterNode_inv in Hf as [-> _]. rewrite !flatten_eq, !elem_of_cons.
  intros [->|He]; [by left|]. right.
  apply elem_of_forest in He as (c' & Hc' & He).
  apply list_elem_of_omap in Hc' as (c & Hc & Hfc).
  apply elem_of_forest. exists c. split; [done|].
  rewrite Forall_forall in IH. by apply (IH c Hc c').
Qed.

Lemma filterNode_keeps term t e :
  e ∈ flatten t -> matches e term = true ->
  exists t', filterNode term t = Some t' /\ e ∈ flatten t'.
Proof.
  revert e. induction t as [r l IH] using Tree_induction. intros e.
  rewrite flatten_eq, elem_of_cons, filterNode_eq. intros [->|He] Hm.
  - rewrite Hm. simpl. eexists. split; [done|]. rewrite flatten_eq. by left.
  - apply elem_of_forest in He as (c & Hc & He).
    rewrite Forall_forall in IH.
    destruct (IH c Hc e He Hm) as (c' & Hfc & He').
    assert (c' ∈ omap (filterNode term) l) as Hin
      by (apply list_elem_of_omap; eauto).
    destruct (omap (filterNode term) l) as [|x k] eqn:Hk;
      [by apply elem_of_nil in Hin|].
    rewrite orb_true_r. eexists. split; [done|].
    rewrite flatten_eq. right. apply elem_of_forest. eauto.
Qed.

Lemma filterNode_matching term t t' :
  filterNode term t = Some t' ->
  forall n, n ∈ nodes t' -> exists e, e ∈ flatten n /\ matches e term = true.
Proof.
  revert t'. induction t as [r l IH] using Tree_induction. intros t' Hf.
  apply filterNode_inv in Hf as [-> Hcase].
  rewrite Forall_forall in IH.
  assert (forall c', c' ∈ omap (filterNode term) l ->
            forall n, n ∈ nodes c' -> exists e, e ∈ flatten n /\ matches e term = true)
    as Hsubs.
  { intros c' Hc'. apply list_elem_of_omap in Hc' as (c & Hc & Hfc).
    by apply (IH c Hc). }
  intros n. rewrite nodes_eq, elem_of_cons. intros [->|Hn].
  - destruct Hcase as [Hm|Hne].
    + exists r. split; [rewrite flatten_eq; by left | done].
    + destruct (omap (filterNode term) l) as [|c' k] eqn:Hk; [done|].
      destruct (Hsubs c' ltac:(by left) c') as (e & He & Hm).
      { destruct c'. rewrite nodes_eq. by left. }
      exists e. split; [|done]. rewrite flatten_eq. right.
      apply elem_of_forest. exists c'. split; [by left | done].
  - apply elem_of_forest in Hn as (c' & Hc' & Hn). by apply (Hsubs c' Hc').
Qed.

Lemma omap_fixed {A} (f : A -> option A) (l : list A) :
  (forall x, x ∈ l -> f x = Some x) -> omap f l = l.
Proof.
  induction l as [|x l IH]; intros Hl; [done|]. simpl.
  rewrite (Hl x) by by left. simpl. f_equal. apply IH.
  intros y Hy. apply Hl. by right.
Qed.

Lemma filterNode_idemp term t t' :
  filterNode term t = Some t' -> filterNode term t' = Some t'.
Proof.
  revert t'. induction t as [r l IH] using Tree_induction. intros t' Hf.
  pose proof Hf as Hf'. apply filterNode_inv in Hf' as [-> _].
  rewrite Forall_forall in IH.
  rewrite filterNode_eq, omap_fixed.
  - rewrite filterNode_eq in Hf.
    by destruct (matches r term || (0 <? length (omap (filterNode term) l))%nat).
  - intros c' Hc'. apply list_elem_of_omap in Hc' as (c & Hc & Hfc).
    by apply (IH c Hc).
Qed.

(** X20. Searching the chart prunes it: what is shown is the chart with
    some subtrees taken out, the rest in place. Every employee that matches
    the term is shown, with the managers above it; every node shown matches
    or has a node below it that matches; and searching the result for the
    same term again changes nothing. *)
Theorem filterHierarchy_prunes forest term :
  (exists kept,
     sublist kept forest /\ Forall2 pruned (filterHierarchy forest term) kept)
  /\ (forall e,
        e ∈ concat (flatten <$> filterHierarchy forest term) ->
        e ∈ concat (flatten <$> forest))
  /\ (forall e,
        e ∈ concat (flatten <$> forest) -> matches e term = true ->
        e ∈ concat (flatten <$> filterHierarchy forest term))
  /\ (forall n,
        n ∈ concat (nodes <$> filterHierarchy forest term) ->
        exists e, e ∈ flatten n /\ matches e term = true)
  /\ filterHierarchy (filterHierarchy forest term) term
     = filterHierarchy forest term.
Proof.
  unfold filterHierarchy. split; [|split; [|split; [|split]]].
  - apply omap_pruned, Forall_forall. intros t _ t'. apply filterNode_pruned.
  - intros e (t' & Ht' & He)%elem_of_forest.
    apply list_elem_of_omap in Ht' as (t & Ht & Hf).
    apply elem_of_forest. exists t. split; [done|].
    by apply (filterNode_flatten term t t').
  - intros e (t & Ht & He)%elem_of_forest Hm.
    destruct (filterNode_keeps term t e He Hm) as (t' & Hf & He').
    apply elem_of_forest. exists t'. split; [|done].
    apply list_elem_of_omap. eauto.
  - intros n (t' & Ht' & Hn)%elem_of_forest.
    apply list_elem_of_omap in Ht' as (t & Ht & Hf).
    by apply (filterNode_matching term t t').
  - apply omap_fixed. intros t' Ht'.
    apply list_elem_of_omap in Ht' as (t & Ht & Hf).
    by apply (filterNode_idemp term t).
Qed.

End WithStrings.

Lemma filterHierarchy_prunes_witness :
  (exists kept,
     sublist kept Fixtures.chart
     /\ Forall2 pruned (filterHierarchy Fixtures.chart "cto") kept)
  /\ (forall e,
        e ∈ concat (flatten <$> filterHierarchy Fixtures.chart "cto") ->
        e ∈ concat (flatten <$> Fixtures.chart))
  /\ (forall e,
        e ∈ concat (flatten <$> Fixtures.chart) -> matches e "cto" = true ->
        e ∈ concat (flatten <$> filterHierarchy Fixtures.chart "cto"))
  /\ (forall n,
        n ∈ concat (nodes <$> filterHierarchy Fixtures.chart "cto") ->
        exists e, e ∈ flatten n /\ matches e "cto" = true)
  /\ filterHierarchy (filterHierarchy Fixtures.chart "cto") "cto"
     = filterHierarchy Fixtures.chart "cto".
Proof. exact (filterHierarchy_prunes Fixtures.chart "cto"). Defined.

Lemma addAllIds_eq allIds e l :
  addAllIds allIds (tree_node e l) = foldl addAllIds (allIds ∪ {[id e]}) l.
Proof. reflexivity. Qed.

Lemma foldl_addAllIds l :
  Forall (fun t => forall allIds k,
            k ∈ addAllIds allIds t <-> k ∈ allIds \/ k ∈ id <$> flatten t) l ->
  forall allIds k,
    k ∈ foldl addAllIds allIds l
    <-> k ∈ allIds \/ k ∈ id <$> concat (flatten <$> l).
Proof.
  induction 1 as [|t l Ht _ IH]; intros allIds k; simpl.
  - rewrite elem_of_nil. tauto.
  - rewrite IH, Ht, fmap_app, elem_of_app. tauto.
Qed.

Lemma elem_of_addAllIds t allIds k :
  k ∈ addAllIds allIds t <-> k ∈ allIds \/ k ∈ id <$> flatten t.
Proof.
  revert allIds k. induction t as [e l IH] using Tree_induction. intros allIds k.
  rewrite addAllIds_eq, (foldl_addAllIds l IH), flatten_eq, fmap_cons.
  rewrite elem_of_union, elem_of_singleton, elem_of_cons. tauto.
Qed.

Lemma elem_of_expandAll forest k :
  k ∈ expandAll forest <-> k ∈ id <$> concat (flatten <$> forest).
Proof.
  unfold expandAll. rewrite foldl_addAllIds.
  - rewrite elem_of_empty. tauto.
  - apply Forall_forall. intros t _. apply elem_of_addAllIds.
Qed.

Lemma renderNode_eq expandedNodes level e l :
  renderNode expandedNodes level (tree_node e l)
  = mkCard e level
      (if (0 <? length l)%nat
       then Some (bool_decide (id e ∈ expandedNodes), length l) else None)
    :: (if (0 <? length l)%nat && bool_decide (id e ∈ expandedNodes)
        then concat (renderNode expandedNodes (S level) <$> l)
        else []).
Proof. reflexivity. Qed.

Lemma renderNode_expanded expandedNodes t :
  (forall e, e ∈ flatten t -> id e ∈ expandedNodes) ->
  forall level, shown <$> renderNode expandedNodes level t = flatten t.
Proof.
  induction t as [e l IH] using Tree_induction. intros Hall level.
  rewrite renderNode_eq, flatten_eq, fmap_cons. simpl. f_equal.
  rewrite bool_decide_eq_true_2 by (apply Hall; rewrite flatten_eq; by left).
  destruct l as [|c l]; [done|]. simpl andb. cbv iota.
  assert (forall k, Forall (fun t =>
            (forall e, e ∈ flatten t -> id e ∈ expandedNodes) ->
            forall level, shown <$> renderNode expandedNodes level t = flatten t) k ->
          (forall e, e ∈ concat (flatten <$> k) -> id e ∈ expandedNodes) ->
          shown <$> concat (renderNode expandedNodes (S level) <$> k)
            = concat (flatten <$> k)) as Hlist.
  { induction 1 as [|t k Ht _ IHk]; intros Hk; [done|].
    rewrite !fmap_cons, !concat_cons in *.
    rewrite fmap_app, Ht, IHk; [done| |].
    - intros x Hx. apply Hk. apply elem_of_app. by right.
    - intros x Hx. apply Hk. apply elem_of_app. by left. }
  apply Hlist; [exact IH|]. intros x Hx. apply Hall. rewrite flatten_eq. by right.
Qed.

Lemma renderNode_sublist expandedNodes t level :
  shown <$> renderNode expandedNodes level t `sublist_of` flatten t.
Proof.
  revert level. induction t as [e l IH] using Tree_induction. intros level.
  rewrite renderNode_eq, flatten_eq, fmap_cons. simpl. constructor.
  destruct ((0 <? length l)%nat && _); [|apply sublist_nil_l].
  induction IH as [|t k Ht _ IHk]; [done|].
  rewrite !fmap_cons, !concat_cons, fmap_app. by apply sublist_app.
Qed.

(** X21. After [expandAll] the page shows every employee of the chart, each
    node followed by its subordinates; after [collapseAll] it shows the
    roots only, each with a plus button that counts its reports when it has
    some; whatever is expanded, the cards are employees of the chart in
    chart order; and toggling a node twice gives back the set of expanded
    nodes. *)
Theorem expand_collapse_chart hierarchyTree :
  shown <$> render (expandAll hierarchyTree) hierarchyTree
    = concat (flatten <$> hierarchyTree)
  /\ render collapseAll hierarchyTree
     = (fun t => mkCard (root t) 0
                   (if (0 <? length (subs t))%nat
                    then Some (false, length (subs t)) else None))
       <$> hierarchyTree
  /\ (forall expandedNodes,
        shown <$> render expandedNodes hierarchyTree
          `sublist_of` concat (flatten <$> hierarchyTree))
  /\ (forall k expandedNodes,
        toggleNode k (toggleNode k expandedNodes) = expandedNodes).
Proof.
  split; [|split; [|split]].
  - unfold render.
    assert (forall k,
      (forall e, e ∈ concat (flatten <$> k) -> id e ∈ expandAll hierarchyTree) ->
      shown <$> concat (renderNode (expandAll hierarchyTree) 0 <$> k)
        = concat (flatten <$> k)) as Hlist.
    { induction k as [|t k IH]; intros Hk; [done|].
      rewrite !fmap_cons, !concat_cons in *.
      rewrite fmap_app, renderNode_expanded, IH; [done| |].
      - intros x Hx. apply Hk. apply elem_of_app. by right.
      - intros x Hx. apply Hk. apply elem_of_app. by left. }
    apply Hlist. intros e He. apply elem_of_expandAll.
    apply list_elem_of_fmap. eauto.
  - unfold render, collapseAll.
    induction hierarchyTree as [|[e l] k IH]; [done|].
    rewrite !fmap_cons, !concat_cons, IH, renderNode_eq.
    rewrite bool_decide_eq_false_2 by apply not_elem_of_empty.
    rewrite andb_false_r. simpl. by destruct (0 <? length l)%nat.
  - intros expandedNodes. unfold render.
    induction hierarchyTree as [|t k IH]; [done|].
    rewrite !fmap_cons, !concat_cons, fmap_app.
    apply sublist_app; [apply renderNode_sublist | exact IH].
  - intros k expandedNodes. unfold toggleNode.
    destruct (decide (k ∈ expandedNodes)) as [Hin|Hout].
    + rewrite (bool_decide_eq_true_2 _ Hin).
      rewrite bool_decide_eq_false_2
        by (intros [_ Hn]%elem_of_difference; apply Hn; by apply elem_of_singleton).
      apply set_eq. intros j. rewrite elem_of_union, elem_of_difference,
        elem_of_singleton. destruct (decide (j = k)) as [->|]; tauto.
    + rewrite (bool_decide_eq_false_2 _ Hout).
      rewrite bool_decide_eq_true_2
        by (apply elem_of_union; right; by apply elem_of_singleton).
      apply set_eq. intros j. rewrite elem_of_difference, elem_of_union,
        elem_of_singleton. destruct (decide (j = k)) as [->|]; tauto.
Qed.

Lemma expand_collapse_chart_witness :
  shown <$> render (expandAll Fixtures.chart) Fixtures.chart
    = concat (flatten <$> Fixtures.chart)
  /\ render collapseAll Fixtures.chart
     = (fun t => mkCard (root t) 0
                   (if (0 <? length (subs t))%nat
                    then Some (false, length (subs t)) else None))
       <$> Fixtures.chart
  /\ (forall expandedNodes,
        shown <$> render expandedNodes Fixtures.chart
          `sublist_of` concat (flatten <$> Fixtures.chart))
  /\ (forall k expandedNodes,
        toggleNode k (toggleNode k expandedNodes) = expandedNodes).
Proof. exact (expand_collapse_chart Fixtures.chart). Defined.

End ChartFacts.

(** ** Profiles: sign-up and row-level security *)

Section ProfilesFacts.
Import Profiles.

Lemma map_sum_inr {E A C} (f : A -> E + C) l l' :
  Pg.map_sum f l = inr l' -> Forall2 (fun x y => f x = inr y) l l'.
Proof.
  revert l'. induction l as [|x l IH]; intros l'; simpl.
  - intros [= <-]. constructor.
  - intros Hm. apply bind_inr in Hm as (y & Hy & Hm).
    apply bind_inr in Hm as (rest & Hrest & Hm). injection Hm as <-.
    constructor; [done | by apply IH].
Qed.

Lemma filter_none {A} (Q : A -> Prop) `{forall x, Decision (Q x)} (l : list A) :
  (forall x, x ∈ l -> ~ Q x) -> filter Q l = [].
Proof.
  induction l as [|x l IH]; intros Hl; [done|].
  rewrite filter_cons_False by (apply Hl; by left).
  apply IH. intros y Hy. apply Hl. by right.
Qed.

Lemma own_profile_spec uid p :
  own_profile uid p = true <-> exists u, uid = Some u /\ id p = Some u.
Proof.
  unfold own_profile, Pg.sql_if, Pg.sql_eq.
  destruct uid as [u|], (id p) as [k|].
  - case_bool_decide as Hk; split.
    + intros _. exists u. by rewrite Hk.
    + done.
    + done.
    + intros (v & [= <-] & [= <-]). done.
  - split; [done|]. intros (v & _ & ?). done.
  - split; [done|]. intros (v & ? & _). done.
  - split; [done|]. intros (v & ? & _). done.
Qed.

(** The invariant of the two tables. *)
Lemma sign_up_inv now new db db' :
  sign_up now new db = inr db' ->
  exists e,
    user_email new = Some e
    /\ (user_id new ∉ user_id <$> users db)
    /\ (Some (user_id new) ∉ id <$> profiles db)
    /\ db' = mkDatabase (users db ++ [new])
               (profiles db
                  ++ [mkProfile (Some (user_id new)) (Some e)
                        (Some (default "" (get_text (raw_user_meta_data new)
                                             "full_name")))
                        (Some now)]).
Proof.
  unfold sign_up. case_bool_decide as Hfresh; [done|].
  unfold handle_new_user, insert_profile. simpl.
  destruct (user_email new) as [e|]; simpl; [|done].
  destruct (bool_decide (Some (user_id new) ∈ id <$> profiles db)) eqn:Hpk;
    simpl; [done|].
  apply bool_decide_eq_false in Hpk.
  case_bool_decide as Hfk; simpl; [|done].
  intros [= <-]. exists e. repeat split; try done.
  by destruct (get_text _ _).
Qed.

Lemma filter_ids key (us : list User) (ps : list Profile) :
  id <$> ps = (Some ∘ user_id) <$> us ->
  id <$> filter (fun p => id p <> Some key) ps
    = (Some ∘ user_id) <$> filter (fun u => user_id u <> key) us.
Proof.
  revert us. induction ps as [|p ps IH]; intros [|u us] Heq; try done.
  rewrite !fmap_cons in Heq. injection Heq as Hp Hrest.
  destruct (decide (user_id u = key)) as [Hk|Hk].
  - rewrite filter_cons_False by (simpl in Hp; rewrite Hp; intros Hne; apply Hne; by rewrite Hk).
    rewrite (filter_cons_False _ u) by (intros Hne; by apply Hne).
    by apply IH.
  - rewrite filter_cons_True by (simpl in Hp; rewrite Hp; congruence).
    rewrite (filter_cons_True _ u) by done.
    rewrite !fmap_cons. f_equal; [done | by apply IH].
Qed.

Lemma update_profile_row_inv uid set p p' :
  update_profile_row uid set p = inr p' ->
  id p' = id p
  /\ (is_Some (email p) -> is_Some (email p'))
  /\ (p' = p \/ (own_profile uid p = true /\ p' = set p)).
Proof.
  unfold update_profile_row.
  destruct (own_profile uid p) eqn:Hold; [|intros [= <-]; split; [done|]; split; [done | by left]].
  destruct (own_profile uid (set p)) eqn:Hnew; [|done].
  destruct (email (set p)) as [e|] eqn:He; [|done]. simpl. intros [= <-].
  apply own_profile_spec in Hold as (u & -> & Hu).
  apply own_profile_spec in Hnew as (v & [= <-] & Hv).
  split; [congruence|]. split; [rewrite He; eauto | by right].
Qed.

Lemma reachable_profiles db :
  reachable db ->
  id <$> profiles db = (Some ∘ user_id) <$> users db
  /\ NoDup (user_id <$> users db)
  /\ Forall (fun p => is_Some (email p)) (profiles db).
Proof.
  induction 1 as [|stmt db db' _ (Hids & Hnd & Hemail) Hexec].
  { split; [done|]. split; constructor. }
  destruct stmt as [now new|key|uid set]; simpl in Hexec.
  - apply sign_up_inv in Hexec as (e & He & Hfresh & _ & ->). simpl.
    split; [by rewrite !fmap_app, Hids|]. split.
    + rewrite fmap_app. apply NoDup_app. split; [done|]. split.
      * intros x Hx ->%list_elem_of_singleton. done.
      * apply NoDup_singleton.
    + apply Forall_app. split; [done|]. constructor; [simpl; eauto | constructor].
  - injection Hexec as <-. unfold delete_user. simpl.
    split; [by apply filter_ids|]. split.
    + eapply sublist_NoDup; [exact Hnd|]. apply fmap_sublist, sublist_filter.
    + apply Forall_forall. intros p Hp%list_elem_of_filter.
      rewrite Forall_forall in Hemail. apply Hemail. tauto.
  - unfold update_profiles in Hexec.
    apply bind_inr in Hexec as (ps & Hps & Hdb). injection Hdb as <-. simpl.
    apply map_sum_inr in Hps. split; [|split; [done|]].
    + rewrite <- Hids. clear Hids Hemail.
      induction Hps as [|p p' l l' Hp _ IH]; [done|].
      rewrite !fmap_cons, IH. f_equal.
      by apply update_profile_row_inv in Hp as (-> & _).
    + clear Hids. induction Hps as [|p p' l l' Hp _ IH]; [constructor|].
      apply Forall_cons in Hemail as [He Hl]. constructor; [|by apply IH].
      apply update_profile_row_inv in Hp as (_ & Hp & _). by apply Hp.
Qed.

Lemma sample_db_reachable : reachable sample_db.
Proof.
  apply (reachable_exec (SignUp 6 guest)
           (mkDatabase [eve]
              [mkProfile (Some "a1") (Some "eve@example.com") (Some "Eve Ende")
                 (Some 5)])); [|reflexivity].
  apply (reachable_exec (SignUp 5 eve) (mkDatabase [] []));
    [apply reachable_empty | reflexivity].
Qed.

(** X23. Every user has exactly one profile and every profile belongs to a
    user: the profiles are, in order, those of the users, no two users share
    an id, and every profile has an e-mail address. *)
Theorem one_profile_per_user db :
  reachable db ->
  id <$> profiles db = (Some ∘ user_id) <$> users db
  /\ NoDup (user_id <$> users db)
  /\ Forall (fun p => is_Some (email p)) (profiles db).
Proof. apply reachable_profiles. Qed.

Lemma one_profile_per_user_witness :
  id <$> profiles sample_db = (Some ∘ user_id) <$> users sample_db
  /\ NoDup (user_id <$> users sample_db)
  /\ Forall (fun p => is_Some (email p)) (profiles sample_db).
Proof. exact (one_profile_per_user sample_db sample_db_reachable). Defined.

(** X24. Signing up a user whose id is new and who has an e-mail address
    adds the user and one profile with that id and address, the
    [full_name] of the metadata or the empty text when there is none, never
    NULL, and the time of the sign-up. A user without an e-mail address
    cannot sign up: the trigger fails and no user is added. *)
Theorem sign_up_creates_profile now new db :
  reachable db ->
  user_id new ∉ user_id <$> users db ->
  sign_up now new db
  = match user_email new with
    | Some e =>
        inr (mkDatabase (users db ++ [new])
               (profiles db
                  ++ [mkProfile (Some (user_id new)) (Some e)
                        (Some (default "" (get_text (raw_user_meta_data new)
                                             "full_name")))
                        (Some now)]))
    | None => inl (Pg.NotNullViolation "email")
    end.
Proof.
  intros Hreach Hfresh.
  destruct (reachable_profiles db Hreach) as (Hids & _ & _).
  unfold sign_up. rewrite bool_decide_eq_false_2 by done.
  unfold handle_new_user, insert_profile. simpl.
  destruct (user_email new) as [e|]; simpl; [|done].
  rewrite (bool_decide_eq_false_2 (Some (user_id new) ∈ id <$> profiles db)).
  - simpl. rewrite bool_decide_eq_true_2.
    + simpl. by destruct (get_text _ _).
    + rewrite fmap_app. apply elem_of_app. right. by left.
  - rewrite Hids. intros (u & [= Hu] & Hin)%list_elem_of_fmap.
    apply Hfresh. apply list_elem_of_fmap. eauto.
Qed.

Lemma sign_up_creates_profile_witness :
  sign_up 7 (mkUser "a3" None None) sample_db = inl (Pg.NotNullViolation "email")
  /\ sign_up 7 (mkUser "a3" (Some "ann@example.com") None) sample_db
     = inr (mkDatabase (users sample_db ++ [mkUser "a3" (Some "ann@example.com") None])
              (profiles sample_db
                 ++ [mkProfile (Some "a3") (Some "ann@example.com") (Some "")
                       (Some 7)])).
Proof.
  assert ("a3" ∉ user_id <$> users sample_db) as Hfresh.
  { intros Hin. repeat (apply elem_of_cons in Hin as [Hin|Hin]; [discriminate|]).
    by apply elem_of_nil in Hin. }
  split.
  - exact (sign_up_creates_profile 7 (mkUser "a3" None None) sample_db
             sample_db_reachable Hfresh).
  - exact (sign_up_creates_profile 7 (mkUser "a3" (Some "ann@example.com") None)
             sample_db sample_db_reachable Hfresh).
Defined.

(** X25. Profiles are private: a request sees the profile whose id is its
    user and no other, so at most one and none without a user; and an update
    changes no profile but the one of its user, that one keeping its id. *)
Theorem profiles_are_private db uid :
  reachable db ->
  (forall p,
     p ∈ select_profiles uid db
     <-> p ∈ profiles db /\ exists u, uid = Some u /\ id p = Some u)
  /\ (length (select_profiles uid db) <= 1)%nat
  /\ (uid = None -> select_profiles uid db = [])
  /\ (forall set db',
        update_profiles uid set db = inr db' ->
        users db' = users db
        /\ id <$> profiles db' = id <$> profiles db
        /\ forall i p,
             profiles db !! i = Some p -> id p <> uid ->
             profiles db' !! i = Some p).
Proof.
  intros Hreach.
  destruct (reachable_profiles db Hreach) as (Hids & Hnd & _).
  assert (forall p,
    p ∈ select_profiles uid db
    <-> p ∈ profiles db /\ exists u, uid = Some u /\ id p = Some u) as Hsel.
  { intros p. unfold select_profiles.
    rewrite list_elem_of_filter, own_profile_spec. tauto. }
  split; [exact Hsel|]. split; [|split].
  - assert (NoDup (id <$> profiles db)) as Hpnd.
    { rewrite Hids, list_fmap_compose. apply (NoDup_fmap_2 _), Hnd. }
    unfold select_profiles. revert Hpnd. generalize (profiles db). intros l.
    induction l as [|p l IH]; [simpl; lia|].
    rewrite fmap_cons. intros [Hp Hl]%NoDup_cons.
    destruct (decide (own_profile uid p = true)) as [Hown|Hown].
    + rewrite filter_cons_True by done. simpl.
      assert (filter (fun p => own_profile uid p = true) l = []) as ->; [|simpl; lia].
      apply filter_none. intros q Hq Hqown.
      apply own_profile_spec in Hown as (u & -> & Hu).
      apply own_profile_spec in Hqown as (v & [= <-] & Hv).
      apply Hp. rewrite Hu, <- Hv. apply list_elem_of_fmap. eauto.
    + rewrite filter_cons_False by done. by apply IH.
  - intros ->. unfold select_profiles.
    apply filter_none. intros p _ Hp.
    by apply own_profile_spec in Hp as (u & ? & _).
  - intros set db' Hup. unfold update_profiles in Hup.
    apply bind_inr in Hup as (ps & Hps & Hdb). injection Hdb as <-. simpl.
    apply map_sum_inr in Hps. split; [done|]. split.
    + clear Hids Hsel. induction Hps as [|p p' l l' Hp _ IH]; [done|].
      rewrite !fmap_cons, IH. f_equal.
      by apply update_profile_row_inv in Hp as (-> & _).
    + intros i p Hi Hne.
      destruct (Forall2_lookup_l _ _ _ i p Hps Hi) as (p' & Hi' & Hrow).
      rewrite Hi'. f_equal.
      apply update_profile_row_inv in Hrow as (_ & _ & [->|[Hown ->]]); [done|].
      apply own_profile_spec in Hown as (u & -> & Hu). congruence.
Qed.

Lemma profiles_are_private_witness :
  (forall p,
     p ∈ select_profiles (Some "a2") sample_db
     <-> p ∈ profiles sample_db /\ exists u, Some "a2" = Some u /\ id p = Some u)
  /\ (length (select_profiles (Some "a2") sample_db) <= 1)%nat
  /\ (Some "a2" = None -> select_profiles (Some "a2") sample_db = [])
  /\ (forall set db',
        update_profiles (Some "a2") set sample_db = inr db' ->
        users db' = users sample_db
        /\ id <$> profiles db' = id <$> profiles sample_db
        /\ forall i p,
             profiles sample_db !! i = Some p -> id p <> Some "a2" ->
             profiles db' !! i = Some p).
Proof. exact (profiles_are_private sample_db (Some "a2") sample_db_reachable). Defined.

End ProfilesFacts.
